(** * The Colonel: safety validator, skill router and streaming gateway

    A shallow embedding of [backend/colonel/safety.py],
    [backend/colonel/skill_executor.py], [backend/colonel/skill_router.py]
    and [backend/colonel/websocket_gateway.py], and the properties of the
    design document checked against it.

    Conventions.
    - A Python [str] is a Rocq [string]; the regular-expression engine works
      on its list of characters.  Characters are the code points below 256;
      the character classes ([\s], [\b], [str.strip]) are Python's Unicode
      classes restricted to that range.
    - Everything the code obtains from outside (the completion service, the
      clock, [uuid4], the shell, the other tasks of the event loop) comes from
      an explicit environment threaded through a world state.
    - What the code sends or calls is recorded, in order, in a trace.
      Sending a frame succeeds: a connection that closes in the middle of a
      turn is not modelled. *)

From Stdlib Require Import String Ascii List ZArith Lia Bool DecimalString.
From stdpp Require Import gmap strings list.
Import ListNotations.

Set Warnings "-abstract-large-number".

Local Open Scope string_scope.
Local Open Scope list_scope.

(** ** Python's [re], for the constructs the patterns of safety.py use *)

Module Re.

Definition code (c : ascii) : N := N_of_ascii c.

Definition in_range (lo hi : N) (c : ascii) : bool :=
  ((lo <=? code c) && (code c <=? hi))%N.

(** [\s] on [str] patterns: [Py_UNICODE_ISSPACE], below 256. *)
Definition is_space (c : ascii) : bool :=
  in_range 9 13 c || in_range 28 32 c || (code c =? 133)%N || (code c =? 160)%N.

(** [\w] on [str] patterns: alphanumeric or underscore, below 256. *)
Definition is_word (c : ascii) : bool :=
  in_range 48 57 c || in_range 65 90 c || in_range 97 122 c || (code c =? 95)%N
  || (code c =? 170)%N || in_range 178 179 c || (code c =? 181)%N
  || in_range 185 186 c || in_range 188 190 c
  || in_range 192 214 c || in_range 216 246 c || in_range 248 255 c.

Definition lower (c : ascii) : ascii :=
  if in_range 65 90 c then ascii_of_N (code c + 32) else c.

Definition upper (c : ascii) : ascii :=
  if in_range 97 122 c then ascii_of_N (code c - 32) else c.

Inductive set_item :=
| SChar (c : ascii)
| SRange (lo hi : ascii).

Inductive regex :=
| Empty
| Lit (c : ascii)
| Dot
| Space
| NotSpace
| CharSet (items : list set_item)
| WordBoundary
| EndOfString
| Cat (r1 r2 : regex)
| Alt (r1 r2 : regex)
| Group (n : nat) (r : regex)
| Star (r : regex)
| Plus (r : regex)
| Opt (r : regex)
| Repeat (n : nat) (r : regex).

(** *** Parsing a pattern *)

Definition digit_val (c : ascii) : option nat :=
  if in_range 48 57 c then Some (N.to_nat (code c) - 48) else None.

Definition hex_val (c : ascii) : option N :=
  if in_range 48 57 c then Some (code c - 48)%N
  else if in_range 97 102 c then Some (code c - 87)%N
  else if in_range 65 70 c then Some (code c - 55)%N
  else None.

Definition is_alnum_ascii (c : ascii) : bool :=
  in_range 48 57 c || in_range 65 90 c || in_range 97 122 c.

(** The items of a set, after its opening bracket.  Negated sets and
    escapes inside a set are outside the subset: [None]. *)
Fixpoint parse_set_items (s : list ascii) : option (list set_item * list ascii) :=
  match s with
  | [] => None
  | "]"%char :: rest => Some ([], rest)
  | "\"%char :: _ => None
  | lo :: "-"%char :: hi :: rest =>
      if Ascii.eqb hi "]" then Some ([SChar lo; SChar "-"], rest)
      else match parse_set_items rest with
           | Some (items, rest') => Some (SRange lo hi :: items, rest')
           | None => None
           end
  | c :: rest =>
      match parse_set_items rest with
      | Some (items, rest') => Some (SChar c :: items, rest')
      | None => None
      end
  end.

Definition parse_set (s : list ascii) : option (regex * list ascii) :=
  match s with
  | "^"%char :: _ => None
  | "]"%char :: _ => None
  | _ => match parse_set_items s with
         | Some (items, rest) => Some (CharSet items, rest)
         | None => None
         end
  end.

Definition parse_escape (s : list ascii) : option (regex * list ascii) :=
  match s with
  | "b"%char :: rest => Some (WordBoundary, rest)
  | "s"%char :: rest => Some (Space, rest)
  | "S"%char :: rest => Some (NotSpace, rest)
  | "x"%char :: h1 :: h2 :: rest =>
      match hex_val h1, hex_val h2 with
      | Some a, Some b => Some (Lit (ascii_of_N (16 * a + b)), rest)
      | _, _ => None
      end
  | c :: rest =>
      if is_alnum_ascii c || negb (in_range 0 127 c) then None else Some (Lit c, rest)
  | [] => None
  end.

Fixpoint parse_digits (acc : nat) (s : list ascii) : nat * list ascii :=
  match s with
  | c :: rest =>
      match digit_val c with
      | Some d => parse_digits (10 * acc + d) rest
      | None => (acc, s)
      end
  | [] => (acc, s)
  end.

Inductive braces := NotARepeat | Count (n : nat) (rest : list ascii) | OtherRepeat.

(** After an opening brace: [{n}] is a repeat; a brace that opens no repeat
    is an ordinary character, as in Python. *)
Definition parse_braces (s : list ascii) : braces :=
  match s with
  | c :: _ =>
      match digit_val c with
      | Some _ =>
          match parse_digits 0 s with
          | (n, "}"%char :: rest) => Count n rest
          | (_, ","%char :: _) => OtherRepeat
          | _ => NotARepeat
          end
      | None => if Ascii.eqb c "," then OtherRepeat else NotARepeat
      end
  | [] => NotARepeat
  end.

Definition is_quantifier (c : ascii) : bool :=
  Ascii.eqb c "*" || Ascii.eqb c "+" || Ascii.eqb c "?".

(** A second quantifier (lazy, possessive, stacked) is outside the subset. *)
Definition no_second_quantifier (r : regex) (rest : list ascii) : option (regex * list ascii) :=
  match rest with
  | c :: _ => if is_quantifier c then None else Some (r, rest)
  | [] => Some (r, rest)
  end.

Definition parse_quantifier (a : regex) (s : list ascii) : option (regex * list ascii) :=
  match s with
  | "*"%char :: rest => no_second_quantifier (Star a) rest
  | "+"%char :: rest => no_second_quantifier (Plus a) rest
  | "?"%char :: rest => no_second_quantifier (Opt a) rest
  | "{"%char :: rest =>
      match parse_braces rest with
      | Count n rest' => no_second_quantifier (Repeat n a) rest'
      | NotARepeat => Some (a, s)
      | OtherRepeat => None
      end
  | _ => Some (a, s)
  end.

Definition cat (r1 r2 : regex) : regex :=
  match r2 with
  | Empty => r1
  | _ => Cat r1 r2
  end.

(** Recursive descent; [g] is the number of the next capturing group. *)
Fixpoint parse_alt (fuel g : nat) (s : list ascii) {struct fuel}
  : option (regex * nat * list ascii) :=
  match fuel with
  | 0 => None
  | S fuel' =>
      match parse_seq fuel' g s with
      | Some (r1, g1, "|"%char :: rest) =>
          match parse_alt fuel' g1 rest with
          | Some (r2, g2, rest') => Some (Alt r1 r2, g2, rest')
          | None => None
          end
      | other => other
      end
  end
with parse_seq (fuel g : nat) (s : list ascii) {struct fuel}
  : option (regex * nat * list ascii) :=
  match fuel with
  | 0 => None
  | S fuel' =>
      match s with
      | [] => Some (Empty, g, s)
      | "|"%char :: _ => Some (Empty, g, s)
      | ")"%char :: _ => Some (Empty, g, s)
      | _ =>
          match parse_atom fuel' g s with
          | Some (a, g1, rest) =>
              match parse_quantifier a rest with
              | Some (q, rest1) =>
                  match parse_seq fuel' g1 rest1 with
                  | Some (r, g2, rest2) => Some (cat q r, g2, rest2)
                  | None => None
                  end
              | None => None
              end
          | None => None
          end
      end
  end
with parse_atom (fuel g : nat) (s : list ascii) {struct fuel}
  : option (regex * nat * list ascii) :=
  match fuel with
  | 0 => None
  | S fuel' =>
      match s with
      | [] => None
      | "("%char :: "?"%char :: _ => None
      | "("%char :: rest =>
          match parse_alt fuel' (S g) rest with
          | Some (r, g1, ")"%char :: rest') => Some (Group g r, g1, rest')
          | _ => None
          end
      | "["%char :: rest =>
          match parse_set rest with
          | Some (r, rest') => Some (r, g, rest')
          | None => None
          end
      | "\"%char :: rest =>
          match parse_escape rest with
          | Some (r, rest') => Some (r, g, rest')
          | None => None
          end
      | "."%char :: rest => Some (Dot, g, rest)
      | "$"%char :: rest => Some (EndOfString, g, rest)
      | "^"%char :: _ => None
      | c :: rest => if is_quantifier c then None else Some (Lit c, g, rest)
      end
  end.

(** [re.compile]: the pair of the pattern's own [(?i)] flag and its syntax
    tree; [None] stands for [re.error] and for what the subset leaves out. *)
Definition compile (pattern : string) : option (bool * regex) :=
  let s := list_ascii_of_string pattern in
  let '(ic, body) :=
    match s with
    | "("%char :: "?"%char :: "i"%char :: ")"%char :: rest => (true, rest)
    | _ => (false, s)
    end in
  match parse_alt (2 * length body + 10) 1 body with
  | Some (r, _, []) => Some (ic, r)
  | _ => None
  end.

(** *** Matching

    A backtracking matcher in continuation-passing style, with the priorities
    of Python's engine: the left branch of an alternation first, one more
    iteration of a repeat before leaving it.  [prev] is the character before
    the current position, for word boundaries. *)

Definition captures := list (nat * list ascii).

Definition item_has (i : set_item) (c : ascii) : bool :=
  match i with
  | SChar d => Ascii.eqb c d
  | SRange lo hi => in_range (code lo) (code hi) c
  end.

Definition set_has (ic : bool) (items : list set_item) (c : ascii) : bool :=
  existsb (fun i => item_has i c
                    || (ic && (item_has i (lower c) || item_has i (upper c)))) items.

Definition lit_eq (ic : bool) (p c : ascii) : bool :=
  if ic then Ascii.eqb (lower p) (lower c) else Ascii.eqb p c.

Definition word_before (prev : option ascii) : bool :=
  match prev with Some c => is_word c | None => false end.

Definition word_after (s : list ascii) : bool :=
  match s with c :: _ => is_word c | [] => false end.

(** [$] without MULTILINE: at the end, or before a final newline. *)
Definition at_end (s : list ascii) : bool :=
  match s with
  | [] => true
  | [c] => Ascii.eqb c "010"
  | _ => false
  end.

Section Matcher.
Context {R : Type}.
Variable ic : bool.

Definition cont := option ascii -> list ascii -> captures -> option R.
Definition matcher := option ascii -> list ascii -> captures -> cont -> option R.

Definition one (p : ascii -> bool) : matcher := fun prev s cs k =>
  match s with
  | c :: s' => if p c then k (Some c) s' cs else None
  | [] => None
  end.

Definition guard (b : bool) : matcher := fun prev s cs k =>
  if b then k prev s cs else None.

(** A repeat: try one more iteration (which must consume something), and
    only if everything after it fails, leave the repeat. *)
Fixpoint star_loop (body : matcher) (fuel : nat)
    (prev : option ascii) (s : list ascii) (cs : captures) (k : cont) : option R :=
  match fuel with
  | 0 => k prev s cs
  | S fuel' =>
      match body prev s cs (fun p' s' cs' =>
              if Nat.ltb (length s') (length s) then star_loop body fuel' p' s' cs' k
              else None) with
      | Some r => Some r
      | None => k prev s cs
      end
  end.

Fixpoint repeat_loop (body : matcher) (n : nat)
    (prev : option ascii) (s : list ascii) (cs : captures) (k : cont) : option R :=
  match n with
  | 0 => k prev s cs
  | S n' => body prev s cs (fun p' s' cs' => repeat_loop body n' p' s' cs' k)
  end.

Fixpoint rmatch (r : regex) {struct r} : matcher :=
  match r with
  | Empty => fun prev s cs k => k prev s cs
  | Lit p => one (lit_eq ic p)
  | Dot => one (fun c => negb (Ascii.eqb c "010"))
  | Space => one is_space
  | NotSpace => one (fun c => negb (is_space c))
  | CharSet items => one (set_has ic items)
  | WordBoundary => fun prev s cs k =>
      guard (xorb (word_before prev) (word_after s)) prev s cs k
  | EndOfString => fun prev s cs k => guard (at_end s) prev s cs k
  | Cat r1 r2 => fun prev s cs k =>
      rmatch r1 prev s cs (fun p' s' cs' => rmatch r2 p' s' cs' k)
  | Alt r1 r2 => fun prev s cs k =>
      match rmatch r1 prev s cs k with
      | Some x => Some x
      | None => rmatch r2 prev s cs k
      end
  | Group n r1 => fun prev s cs k =>
      rmatch r1 prev s cs (fun p' s' cs' =>
        k p' s' ((n, take (length s - length s') s) :: cs'))
  | Star r1 => fun prev s cs k => star_loop (rmatch r1) (length s) prev s cs k
  | Plus r1 => fun prev s cs k =>
      rmatch r1 prev s cs (fun p' s' cs' =>
        star_loop (rmatch r1) (length s') p' s' cs' k)
  | Opt r1 => fun prev s cs k =>
      match rmatch r1 prev s cs k with
      | Some x => Some x
      | None => k prev s cs
      end
  | Repeat n r1 => repeat_loop (rmatch r1) n
  end.
End Matcher.

(** What a search finds: the text before the match, the match, the text
    after it, the character before the text after it, and the groups. *)
Record found := {
  f_pre : list ascii;
  f_match : list ascii;
  f_rest : list ascii;
  f_prev : option ascii;
  f_caps : captures
}.

Definition match_here (ic : bool) (r : regex) (prev : option ascii) (s : list ascii)
  : option found :=
  rmatch ic r prev s [] (fun p' s' cs =>
    Some {| f_pre := []; f_match := take (length s - length s') s;
            f_rest := s'; f_prev := p'; f_caps := cs |}).

(** The leftmost match at or after the current position. *)
Fixpoint search (ic : bool) (r : regex) (prev : option ascii) (s : list ascii)
  : option found :=
  match match_here ic r prev s with
  | Some f => Some f
  | None =>
      match s with
      | [] => None
      | c :: t =>
          match search ic r (Some c) t with
          | Some f => Some {| f_pre := c :: f_pre f; f_match := f_match f;
                              f_rest := f_rest f; f_prev := f_prev f;
                              f_caps := f_caps f |}
          | None => None
          end
      end
  end.

(** [re.search(pattern, text, flags)] as a truth value, for a compiled
    pattern; [flag] is [re.IGNORECASE]. *)
Definition re_search (p : bool * regex) (flag : bool) (text : string) : bool :=
  match search (fst p || flag) (snd p) None (list_ascii_of_string text) with
  | Some _ => true
  | None => false
  end.

(** *** Substitution *)

Inductive replacement :=
| Template (t : string)
| Callable (f : list ascii -> list ascii).

Fixpoint group_text (n : nat) (cs : captures) : list ascii :=
  match cs with
  | [] => []
  | (m, t) :: cs' => if Nat.eqb n m then t else group_text n cs'
  end.

(** A template: a backslash and a digit stand for that group; the templates
    of safety.py have no other escape. *)
Fixpoint expand (t : list ascii) (cs : captures) : list ascii :=
  match t with
  | [] => []
  | "\"%char :: d :: t' =>
      match digit_val d with
      | Some n => group_text n cs ++ expand t' cs
      | None => "\"%char :: d :: expand t' cs
      end
  | c :: t' => c :: expand t' cs
  end.

Definition replace_with (repl : replacement) (f : found) : list ascii :=
  match repl with
  | Template t => expand (list_ascii_of_string t) (f_caps f)
  | Callable g => g (f_match f)
  end.

(** [re.sub]: every leftmost non-overlapping match replaced.  No pattern of
    safety.py matches the empty string (see [search_nonempty]); on an empty
    match the loop copies one character and goes on. *)
Fixpoint sub_loop (fuel : nat) (ic : bool) (r : regex) (repl : replacement)
    (prev : option ascii) (s : list ascii) : list ascii :=
  match fuel with
  | 0 => s
  | S fuel' =>
      match search ic r prev s with
      | None => s
      | Some f =>
          f_pre f ++ replace_with repl f ++
          match f_match f, f_rest f with
          | [], c :: rest => c :: sub_loop fuel' ic r repl (Some c) rest
          | [], [] => []
          | _ :: _, rest => sub_loop fuel' ic r repl (f_prev f) rest
          end
      end
  end.

Definition re_sub (p : bool * regex) (repl : replacement) (text : list ascii) : list ascii :=
  sub_loop (S (length text)) (fst p) (snd p) repl None text.

(** *** The length of a match *)

Fixpoint min_len (r : regex) : nat :=
  match r with
  | Empty | WordBoundary | EndOfString | Star _ | Opt _ => 0
  | Lit _ | Dot | Space | NotSpace | CharSet _ => 1
  | Cat r1 r2 => min_len r1 + min_len r2
  | Alt r1 r2 => Nat.min (min_len r1) (min_len r2)
  | Group _ r1 | Plus r1 => min_len r1
  | Repeat n r1 => n * min_len r1
  end.

Definition add_bound (a b : option nat) : option nat :=
  match a, b with Some x, Some y => Some (x + y) | _, _ => None end.

Definition max_bound (a b : option nat) : option nat :=
  match a, b with Some x, Some y => Some (Nat.max x y) | _, _ => None end.

(** The longest match, when there is a bound. *)
Fixpoint max_len (r : regex) : option nat :=
  match r with
  | Empty | WordBoundary | EndOfString => Some 0
  | Lit _ | Dot | Space | NotSpace | CharSet _ => Some 1
  | Cat r1 r2 => add_bound (max_len r1) (max_len r2)
  | Alt r1 r2 => max_bound (max_len r1) (max_len r2)
  | Group _ r1 => max_len r1
  | Opt r1 => max_len r1
  | Star _ | Plus _ => None
  | Repeat n r1 => option_map (Nat.mul n) (max_len r1)
  end.

Definition within (hi : option nat) (n : nat) : Prop :=
  match hi with Some b => n <= b | None => True end.

(** A matcher hands its continuation a suffix of its input, having passed
    between [lo] and [hi] characters. *)
Definition sound {R : Type} (body : @matcher R) (lo : nat) (hi : option nat) : Prop :=
  forall prev s cs (k : @cont R) x,
    body prev s cs k = Some x ->
    exists p' m s' cs',
      s = m ++ s' /\ k p' s' cs' = Some x /\ lo <= length m /\ within hi (length m).

End Re.

(** ** safety.py *)

Module Safety.

Definition compiled := (string * (bool * Re.regex))%type.

Definition compile_all (patterns : list string) : option (list compiled) :=
  mapM (fun p => match Re.compile p with
                 | Some c => Some (p, c)
                 | None => None
                 end) patterns.

(** Commands that are always blocked. *)
Definition BLOCKED_PATTERNS : list string := [
  "\brm\s+(-rf?\s+)?/\s*$";
  "\brm\s+(-rf?\s+)?/\*";
  "\bmkfs\b";
  "\bdd\s+.*of=/dev/";
  ":(){.*};:";
  "\bshutdown\b";
  "\breboot\b";
  "\binit\s+0\b";
  "\bpoweroff\b";
  ">\s*/dev/sd";
  "\bchmod\s+777\s+/";
  "\bchown\s+.*\s+/\s*$";
  "DROP\s+DATABASE";
  "DROP\s+TABLE.*CASCADE";
  "TRUNCATE\s+TABLE";
  "\bcurl\b.*\|\s*(ba)?sh";
  "\bwget\b.*\|\s*(ba)?sh";
  "python.*-c.*import\s+os.*system";
  "\biptables\s+(-F|--flush)";
  "docker\s+system\s+prune\s+-a"
].

(** Commands that require user confirmation before execution. *)
Definition CONFIRMATION_PATTERNS : list (string * string) := [
  ("\bdocker\s+(stop|kill|rm|restart)", "This will affect a running container");
  ("\bdocker\s+compose\s+(down|stop|restart)", "This will affect multiple containers");
  ("\bsystemctl\s+(stop|restart|disable)", "This will affect a system service");
  ("\bkill\b", "This will terminate a process");
  ("\bapt\s+(remove|purge|autoremove)", "This will remove packages");
  ("\bpip\s+uninstall\b", "This will uninstall Python packages");
  ("\bnpm\s+uninstall\b", "This will uninstall npm packages");
  ("DELETE\s+FROM", "This will delete database records");
  ("UPDATE\s+", "This will modify database records");
  ("ALTER\s+TABLE", "This will modify database schema")
].

(** The replacement of the last redaction rule: a match of at most 36
    characters is kept as it is. *)
Definition uuid_replacement (m : list ascii) : list ascii :=
  if Nat.leb (length m) 36 then m else list_ascii_of_string "<UUID_REDACTED>".

(** Patterns to redact from command output. *)
Definition REDACT_PATTERNS : list (string * Re.replacement) := [
  ("(?i)(password|passwd|secret|token|api[_-]?key|bearer)\s*[=:]\s*\S+",
     Re.Template "\1=<REDACTED>");
  ("(?i)(Authorization:\s*Bearer\s+)\S+", Re.Template "\1<REDACTED>");
  ("sk[_-]test[_-]\S+", Re.Template "<STRIPE_KEY_REDACTED>");
  ("sk[_-]live[_-]\S+", Re.Template "<STRIPE_KEY_REDACTED>");
  ("pk[_-]test[_-]\S+", Re.Template "<STRIPE_KEY_REDACTED>");
  ("whsec_\S+", Re.Template "<WEBHOOK_SECRET_REDACTED>");
  ("[a-f0-9]{8}-[a-f0-9]{4}-[a-f0-9]{4}-[a-f0-9]{4}-[a-f0-9]{12}",
     Re.Callable uuid_replacement)
].

Definition ANSI_PATTERN : string := "\x1b\[[0-9;]*[a-zA-Z]".

(** The patterns, compiled once.  [patterns_compile] below shows that none of
    them is rejected. *)
Definition BLOCKED_COMPILED : list compiled :=
  Eval vm_compute in default [] (compile_all BLOCKED_PATTERNS).

Definition CONFIRMATION_COMPILED : list compiled :=
  Eval vm_compute in default [] (compile_all (map fst CONFIRMATION_PATTERNS)).

Definition REDACT_COMPILED : list compiled :=
  Eval vm_compute in default [] (compile_all (map fst REDACT_PATTERNS)).

Definition ANSI_COMPILED : bool * Re.regex :=
  Eval vm_compute in default (false, Re.Empty) (Re.compile ANSI_PATTERN).

(** The loop of [validate_command]: the first pattern found in the command. *)
Fixpoint first_blocked (patterns : list compiled) (command : string) : option string :=
  match patterns with
  | [] => None
  | (pattern, c) :: rest =>
      if Re.re_search c true command then Some pattern
      else first_blocked rest command
  end.

Definition blocked_reason (pattern : string) : string :=
  "Blocked: Command matches dangerous pattern (" ++ pattern ++ ")".

(** Pattern number [i] is found in the command and no earlier pattern is. *)
Definition first_match (patterns : list compiled) (command : string)
    (i : nat) (pattern : string) : Prop :=
  exists c, patterns !! i = Some (pattern, c)
    /\ Re.re_search c true command = true
    /\ forall j q, j < i -> patterns !! j = Some q ->
                   Re.re_search (snd q) true command = false.

Definition validate_command (command : string) : bool * option string :=
  match first_blocked BLOCKED_COMPILED command with
  | Some pattern => (false, Some (blocked_reason pattern))
  | None => (true, None)
  end.

Fixpoint first_confirmation (patterns : list (compiled * string)) (command : string)
  : option string :=
  match patterns with
  | [] => None
  | ((_, c), description) :: rest =>
      if Re.re_search c true command then Some description
      else first_confirmation rest command
  end.

Definition requires_confirmation (command : string) : option string :=
  first_confirmation (zip CONFIRMATION_COMPILED (map snd CONFIRMATION_PATTERNS)) command.

Definition string_of_nat (n : nat) : string :=
  NilZero.string_of_uint (Nat.to_uint n).

Definition truncation_notice (total : nat) : string :=
  String "010" (String "010"
    ("... (output truncated, " ++ string_of_nat total ++ " total chars)")).

(** [s[:n]] for a Python integer [n]. *)
Definition slice_to (n : Z) (s : list ascii) : list ascii :=
  if (0 <=? n)%Z then take (Z.to_nat n) s
  else take (length s - Z.to_nat (- n)) s.

Definition redact (text : list ascii) : list ascii :=
  fold_left (fun result '((_, c), replacement) => Re.re_sub c replacement result)
            (zip REDACT_COMPILED (map snd REDACT_PATTERNS)) text.

Definition strip_ansi (text : list ascii) : list ascii :=
  Re.re_sub ANSI_COMPILED (Re.Template "") text.

Definition sanitize_output (output : string) (max_length : Z) : string :=
  let result := redact (strip_ansi (list_ascii_of_string output)) in
  if (max_length <? Z.of_nat (length result))%Z then
    string_of_list_ascii (slice_to max_length result)
      ++ truncation_notice (String.length output)
  else string_of_list_ascii result.

Definition DEFAULT_MAX_LENGTH : Z := 8000.

(** Inputs of the examples. *)
Definition A_UUID : string := "123e4567-e89b-12d3-a456-426614174000".

Definition letters (n : nat) : string := string_of_list_ascii (repeat "a"%char n).

End Safety.

(** ** Strings and JSON values *)

Module Py.

(** A JSON value as the code sees it after [json.loads].  A value that is
    neither a string, an integer, a boolean nor null is carried by its type
    name and its [str()]. *)
Inductive value :=
| VStr (s : string)
| VInt (z : Z)
| VBool (b : bool)
| VNull
| VOther (type_name repr : string).

Definition truthy (v : value) : bool :=
  match v with
  | VStr s => negb (String.eqb s "")
  | VInt z => negb (z =? 0)%Z
  | VBool b => b
  | VNull => false
  | VOther _ _ => true
  end.

Definition string_of_Z (z : Z) : string := NilZero.string_of_int (Z.to_int z).

Definition str (v : value) : string :=
  match v with
  | VStr s => s
  | VInt z => string_of_Z z
  | VBool true => "True"
  | VBool false => "False"
  | VNull => "None"
  | VOther _ repr => repr
  end.

Definition type_name (v : value) : string :=
  match v with
  | VStr _ => "str"
  | VInt _ => "int"
  | VBool _ => "bool"
  | VNull => "NoneType"
  | VOther t _ => t
  end.

(** [s[:n]] for a natural [n]. *)
Definition prefix (n : nat) (s : string) : string := String.substring 0 n s.

Fixpoint lstrip (s : list ascii) : list ascii :=
  match s with
  | c :: s' => if Re.is_space c then lstrip s' else s
  | [] => []
  end.

(** [str.strip()] *)
Definition strip (s : string) : string :=
  string_of_list_ascii (rev (lstrip (rev (lstrip (list_ascii_of_string s))))).

Fixpoint starts_with (p s : list ascii) : bool :=
  match p, s with
  | [], _ => true
  | a :: p', b :: s' => Ascii.eqb a b && starts_with p' s'
  | _ :: _, [] => false
  end.

(** [str.replace(old, new)] for a non-empty [old]: the occurrences from left
    to right, without overlap; [skip] counts the characters of the occurrence
    being replaced that are still to pass. *)
Fixpoint replace_chars (old new : list ascii) (skip : nat) (s : list ascii) : list ascii :=
  match s with
  | [] => []
  | c :: s' =>
      match skip with
      | S k => replace_chars old new k s'
      | 0 =>
          if starts_with old s
          then new ++ replace_chars old new (length old - 1) s'
          else c :: replace_chars old new 0 s'
      end
  end.

Definition replace (old new s : string) : string :=
  string_of_list_ascii
    (replace_chars (list_ascii_of_string old) (list_ascii_of_string new) 0
                   (list_ascii_of_string s)).

(** [s.split(sep, 1)]: the text before and after the first [sep], if any. *)
Fixpoint split_once_chars (sep s : list ascii) : option (list ascii * list ascii) :=
  if starts_with sep s then Some ([], drop (length sep) s)
  else match s with
       | [] => None
       | c :: s' =>
           match split_once_chars sep s' with
           | Some (a, b) => Some (c :: a, b)
           | None => None
           end
       end.

Definition split_once (sep s : string) : option (string * string) :=
  match split_once_chars (list_ascii_of_string sep) (list_ascii_of_string s) with
  | Some (a, b) => Some (string_of_list_ascii a, string_of_list_ascii b)
  | None => None
  end.

End Py.

(** ** models.py: frames, chat messages, sessions *)

Module Models.
Import Py.

Inductive role := user | assistant | system | tool.

(** A tool call of the function-calling format; its type is always
    [function]. *)
Record ToolCall := {
  tc_id : string;
  tc_name : string;
  tc_arguments : string
}.

(** [ChatMessage], without its generated id and timestamp.  The messages sent
    to the completion service have the same fields. *)
Record ChatMessage := {
  msg_role : role;
  content : string;
  tool_call_id : option string;
  tool_calls : option (list ToolCall);
  name : option string
}.

Definition plain (r : role) (text : string) : ChatMessage :=
  {| msg_role := r; content := text; tool_call_id := None;
     tool_calls := None; name := None |}.

Record ColonelSession := {
  session_id : string;
  messages : list ChatMessage;
  title : option string
}.

(** The frames sent to the client, without the generated [id] and
    [timestamp] of [WSFrame]; the confirmation frame is given its id. *)
Inductive frame :=
| WSChunkFrame (content : string)
| WSMessageDoneFrame (message_id content : string)
| WSErrorFrame (detail : string) (code : option string)
| WSSkillStartFrame (skill_name action : string) (params : gmap string value)
| WSSkillResultFrame (skill_name action : string) (success : bool)
                     (output : string) (duration_ms : option Z)
| WSConfirmFrame (id skill_name action description : string)
                 (params : gmap string value)
| WSPongFrame.

Record audit_entry := {
  audit_colonel_id : string;
  audit_skill_name : string;
  audit_action_name : string;
  audit_parameters : gmap string value;
  audit_result_summary : string;
  audit_success : bool;
  audit_duration_ms : Z
}.

(** What the code does to the outside, in order. *)
Inductive event :=
| Send (f : frame)                              (* ws.send_json *)
| WaitFor (timeout_seconds : Z) (timed_out : bool)
                                                (* asyncio.wait_for(event.wait(), timeout) *)
| Call (func_name : string) (exec_params : gmap string value)
                                                (* executor( **exec_params ) *)
| Spawn (command : string) (timeout : value)    (* create_subprocess_shell *)
| Audit (entry : audit_entry)                   (* INSERT INTO colonel_audit_log *)
| LlmRequest (llm_messages : list ChatMessage)  (* POST to the completion service *)
| Save (session : ColonelSession).              (* _save_session *)

Definition trace := list event.

Definition is_message_done (e : event) : bool :=
  match e with Send (WSMessageDoneFrame _ _) => true | _ => false end.


Definition is_error (e : event) : bool :=
  match e with Send (WSErrorFrame _ _) => true | _ => false end.


Definition is_call (e : event) : bool :=
  match e with Call _ _ => true | _ => false end.


Definition is_llm_request (e : event) : bool :=
  match e with LlmRequest _ => true | _ => false end.

Fixpoint count (p : event -> bool) (t : trace) : nat :=
  match t with
  | [] => 0
  | e :: t' => (if p e then 1 else 0) + count p t'
  end.

(** The frames of a trace, in the order sent. *)
Definition frames (t : trace) : list frame :=
  omap (fun e => match e with Send f => Some f | _ => None end) t.

(** What a coroutine gives back: a value, or an exception that propagates. *)
Inductive outcome (A : Type) :=
| Returned (a : A)
| Raised (exception : string).
Arguments Returned {A} a.
Arguments Raised {A} exception.

(** *** What the environment provides *)

Inductive proc_outcome :=
| ProcDone (stdout stderr : string)   (* communicate() returned in time *)
| ProcTimeout                         (* asyncio.TimeoutError *)
| ProcError (e : string).             (* any other exception *)

Record tc_delta := {
  d_index : Z;            (* tc_delta.get("index", 0) *)
  d_id : string;          (* empty when absent *)
  d_name : string;        (* function.name, empty when absent *)
  d_arguments : string    (* function.arguments, empty when absent *)
}.

(** One line of the event stream of the completion service, as
    [_call_llm_stream] tells them apart. *)
Inductive sse_line :=
| NotData                            (* no [data: ] prefix *)
| DataDone                           (* [DONE] *)
| DataInvalid                        (* not JSON *)
| DataError (message : string)       (* an error object without choices *)
| DataNoChoices
| DataDelta (content : string) (tool_calls : list tc_delta)
| ReadTimeout                        (* httpx.ReadTimeout raised here *)
| Fault (e : string).                (* any other exception raised here *)

(** A response with a status other than 200, or the lines of the stream. *)
Inductive llm_response :=
| HttpError (status_code : Z) (body : string)
| Stream (lines : list sse_line).

(** [json.loads] on the argument string of a tool call. *)
Inductive parsed :=
| JsonInvalid
| JsonObject (o : gmap string value)
| JsonOther (v : value).

Record environment (W : Type) := {
  (** [str(uuid.uuid4())[:8]] *)
  uuid8 : W -> string * W;
  (** the milliseconds an executor took, by [time.monotonic] *)
  elapsed_ms : W -> Z * W;
  (** the confirmations other tasks hand to [handle_confirmation] while
      this one waits *)
  other_tasks : W -> list (string * bool) * W;
  (** the subprocess of [bash_execute] *)
  shell : W -> string -> value -> proc_outcome * W;
  (** the executors that talk to Docker, psutil, PostgreSQL and the like *)
  external : W -> string -> gmap string value -> outcome string * W;
  (** the completion service *)
  completion : W -> list ChatMessage -> llm_response * W;
  (** [json.loads] *)
  json_loads : string -> parsed
}.
Arguments uuid8 {W}.
Arguments elapsed_ms {W}.
Arguments other_tasks {W}.
Arguments shell {W}.
Arguments external {W}.
Arguments completion {W}.
Arguments json_loads {W}.

End Models.

(** ** skill_executor.py *)

Module Executor.
Import Py Models.

Section Executors.
Context {W : Type}.
Variable env : environment W.

(** [bash_execute(command, timeout)].  The validation comes first; only an
    allowed command reaches [create_subprocess_shell]. *)
Definition bash_execute (w : W) (command : string) (timeout : value)
  : string * trace * W :=
  match Safety.validate_command command with
  | (false, reason) => ("Blocked: " +:+ default "None" reason, [], w)
  | (true, _) =>
      let '(p, w') := shell env w command timeout in
      let result :=
        match p with
        | ProcTimeout => "Command timed out after " +:+ str timeout +:+ "s"
        | ProcError e => "Error executing command: " +:+ e
        | ProcDone stdout stderr =>
            let output :=
              if negb (String.eqb stderr "") && negb (String.eqb (strip stderr) "")
              then stdout +:+ String "010" "[STDERR]" +:+ String "010" stderr
              else stdout in
            if negb (String.eqb (strip output) "")
            then Safety.sanitize_output output Safety.DEFAULT_MAX_LENGTH
            else "(no output)"
        end in
      (result, [Spawn command timeout], w')
  end.

(** The entry of the dispatch map for the shell:
    [lambda **kw: bash_execute(kw["command"], kw.get("timeout", 30))]. *)
Definition run_command (w : W) (kw : gmap string value) : outcome string * trace * W :=
  match kw !! "command" with
  | None => (Raised "'command'", [], w)
  | Some (VStr command) =>
      let '(result, t, w') :=
        bash_execute w command (default (VInt 30) (kw !! "timeout")) in
      (Returned result, t, w')
  | Some v =>
      (Raised ("'" +:+ type_name v +:+ "' object has no attribute 'strip'"), [], w)
  end.

Inductive executor :=
| shell_executor          (* bash_execute, modelled above *)
| external_executor.      (* answered by the environment *)

Definition run (e : executor) (func_name : string) (w : W) (kw : gmap string value)
  : outcome string * trace * W :=
  match e with
  | shell_executor => run_command w kw
  | external_executor =>
      let '(o, w') := external env w func_name kw in (o, [], w')
  end.
End Executors.

(** The keys of the dispatch map. *)
Definition EXECUTOR_MAP : gmap string executor :=
  list_to_map [
    ("docker-management__list_containers", external_executor);
    ("docker-management__inspect_container", external_executor);
    ("docker-management__container_logs", external_executor);
    ("docker-management__container_stats", external_executor);
    ("docker-management__manage_container", external_executor);
    ("bash-execution__run_command", shell_executor);
    ("system-status__cpu", external_executor);
    ("system-status__memory", external_executor);
    ("system-status__disk", external_executor);
    ("system-status__gpu", external_executor);
    ("system-status__processes", external_executor);
    ("system-status__full_status", external_executor);
    ("service-health__check_all", external_executor);
    ("service-health__check_one", external_executor);
    ("log-viewer__get_logs", external_executor);
    ("log-viewer__search_logs", external_executor);
    ("postgresql-ops__list_databases", external_executor);
    ("postgresql-ops__list_tables", external_executor);
    ("postgresql-ops__query", external_executor);
    ("postgresql-ops__stats", external_executor);
    ("keycloak-auth__list_users", external_executor);
    ("keycloak-auth__list_realms", external_executor);
    ("keycloak-auth__user_info", external_executor);
    ("forgejo-management__list_repos", external_executor);
    ("forgejo-management__list_orgs", external_executor)
  ].

End Executor.

(** ** skill_router.py *)

Module Router.
Import Py Models Executor.

Record action := {
  action_name : string;
  confirmation_required : bool     (* absent in the manifest: False *)
}.

Record skill := {
  skill_actions : list action
}.

(** The router: the skill catalog and the two dictionaries of the
    confirmation handshake.  An [asyncio.Event] is represented by its flag;
    the waiter's own reference to its event is the entry under its id. *)
Record router := {
  skills : gmap string skill;
  _pending_confirmations : gmap string bool;
  _confirmation_results : gmap string bool
}.

(** [get_confirmation_required] of skill_loader.py *)
Definition get_confirmation_required (catalog : gmap string skill) (func_name : string)
  : bool :=
  match split_once "__" func_name with
  | None => false
  | Some (skill_name, act) =>
      match catalog !! skill_name with
      | None => false
      | Some s =>
          match List.find (fun a => String.eqb (action_name a) act) (skill_actions s) with
          | Some a => confirmation_required a
          | None => false
          end
      end
  end.

(** [handle_confirmation]: the value is stored first, then the event of a
    pending confirmation is set. *)
Definition handle_confirmation (confirm_id : string) (confirmed : bool) (r : router)
  : router :=
  let results := <[confirm_id := confirmed]> (_confirmation_results r) in
  match _pending_confirmations r !! confirm_id with
  | Some _ =>
      {| skills := skills r;
         _pending_confirmations := <[confirm_id := true]> (_pending_confirmations r);
         _confirmation_results := results |}
  | None =>
      {| skills := skills r;
         _pending_confirmations := _pending_confirmations r;
         _confirmation_results := results |}
  end.

Definition handle_all (calls : list (string * bool)) (r : router) : router :=
  fold_left (fun r' '(confirm_id, confirmed) => handle_confirmation confirm_id confirmed r')
            calls r.

(** The value of the last call for an id among the calls of other tasks. *)
Fixpoint last_answer (confirm_id : string) (calls : list (string * bool)) : option bool :=
  match calls with
  | [] => None
  | c :: rest =>
      match last_answer confirm_id rest with
      | Some v => Some v
      | None => if String.eqb (fst c) confirm_id then Some (snd c) else None
      end
  end.

(** The arguments of a tool call: a dictionary, or another JSON value. *)
Inductive tool_args :=
| ArgsObject (params : gmap string value)
| ArgsOther (v : value).

Definition CONFIRMATION_TIMEOUT : Z := 60.

Definition CANCELLED : string := "Action cancelled by user.".

Definition BASH : string := "bash-execution__run_command".

Section Execute.
Context {W : Type}.
Variable env : environment W.

(** The names of the skill and of the action. *)
Definition split_name (func_name : string) : string * string :=
  match split_once "__" func_name with
  | Some (s, a) => (s, a)
  | None => (func_name, func_name)
  end.

(** The check before the confirmation flow: whether a confirmation is
    needed and with which reason; re.search raises on a command that is not
    a string. *)
Definition confirmation_need (r : router) (func_name : string)
    (params : gmap string value) : outcome (bool * option string) :=
  let needs_confirm := get_confirmation_required (skills r) func_name in
  if String.eqb func_name BASH then
    match params !! "command" with
    | None => Returned (needs_confirm, None)
    | Some (VStr command) =>
        match Safety.requires_confirmation command with
        | Some reason =>
            if String.eqb reason "" then Returned (needs_confirm, Some reason)
            else Returned (true, Some reason)
        | None => Returned (needs_confirm, None)
        end
    | Some v =>
        Raised ("expected string or bytes-like object, got '" +:+ type_name v +:+ "'")
    end
  else Returned (needs_confirm, None).

(** The text of the confirmation frame: the reason found by the safety
    patterns, or a question made of the names. *)
Definition description_of (reason : option string) (skill_name act : string) : string :=
  match reason with
  | Some d => if String.eqb d "" then "Execute " +:+ act +:+ " on " +:+ skill_name +:+ "?"
              else d
  | None => "Execute " +:+ act +:+ " on " +:+ skill_name +:+ "?"
  end.

(** The confirmation flow: the frame, the event, the wait of at most 60
    seconds, and the clean-up.  Gives whether the action was confirmed. *)
Definition confirm (w : W) (r : router) (skill_name act : string)
    (reason : option string) (params : gmap string value)
  : bool * router * trace * W :=
  let '(confirm_id, w1) := uuid8 env w in
  let sent :=
    Send (WSConfirmFrame confirm_id skill_name act
            (description_of reason skill_name act) params) in
  let r1 := {| skills := skills r;
               _pending_confirmations := <[confirm_id := false]> (_pending_confirmations r);
               _confirmation_results := _confirmation_results r |} in
  let '(calls, w2) := other_tasks env w1 in
  let r2 := handle_all calls r1 in
  let cleaned := {| skills := skills r2;
                    _pending_confirmations := delete confirm_id (_pending_confirmations r2);
                    _confirmation_results := delete confirm_id (_confirmation_results r2) |} in
  match _pending_confirmations r2 !! confirm_id with
  | Some true =>
      let confirmed := default false (_confirmation_results r2 !! confirm_id) in
      (confirmed, cleaned, [sent; WaitFor CONFIRMATION_TIMEOUT false], w2)
  | _ =>
      (false, cleaned,
       [sent; WaitFor CONFIRMATION_TIMEOUT true;
        Send (WSSkillResultFrame skill_name act false
                "Confirmation timed out (60s)" None)], w2)
  end.

(** From the skill_start frame to the end. *)
Definition dispatch (w : W) (func_name skill_name act : string)
    (params : gmap string value) (config_id : string) (write_enabled : bool)
  : string * trace * W :=
  let exec_params :=
    if write_enabled then <["_write_enabled" := VBool true]> params else params in
  let '(result, success, ran, w1) :=
    match EXECUTOR_MAP !! func_name with
    | None => ("Unknown skill action: " +:+ func_name, false, [], w)
    | Some executor =>
        match run env executor func_name w exec_params with
        | (Returned result, t, w') => (result, true, Call func_name exec_params :: t, w')
        | (Raised e, t, w') =>
            ("Skill execution error: " +:+ e, false, Call func_name exec_params :: t, w')
        end
    end in
  let '(duration_ms, w2) := elapsed_ms env w1 in
  (result,
   [Send (WSSkillStartFrame skill_name act params)] ++ ran ++
   [Send (WSSkillResultFrame skill_name act success (prefix 500 result) (Some duration_ms));
    Audit {| audit_colonel_id := config_id; audit_skill_name := skill_name;
             audit_action_name := act; audit_parameters := params;
             audit_result_summary := prefix 500 result;
             audit_success := success; audit_duration_ms := duration_ms |}],
   w2).

(** [SkillRouter.execute] *)
Definition execute (w : W) (r : router) (func_name : string) (args : tool_args)
    (config_id : string) (write_enabled : bool)
  : outcome string * router * trace * W :=
  match args with
  | ArgsOther v =>
      (* whichever statement meets the value first, nothing has been sent
         when the exception leaves; the text is that of the unpacking *)
      (Raised ("'" +:+ type_name v +:+ "' object is not a mapping"), r, [], w)
  | ArgsObject params =>
      let '(skill_name, act) := split_name func_name in
      match confirmation_need r func_name params with
      | Raised e => (Raised e, r, [], w)
      | Returned (true, reason) =>
          let '(confirmed, r1, t1, w1) := confirm w r skill_name act reason params in
          if confirmed then
            let '(result, t2, w2) :=
              dispatch w1 func_name skill_name act params config_id write_enabled in
            (Returned result, r1, t1 ++ t2, w2)
          else (Returned CANCELLED, r1, t1, w1)
      | Returned (false, _) =>
          let '(result, t, w1) :=
            dispatch w func_name skill_name act params config_id write_enabled in
          (Returned result, r, t, w1)
      end
  end.
End Execute.

(** The trace of a call of [execute]. *)
Definition trace_of {W : Type} (x : outcome string * router * trace * W) : trace :=
  snd (fst x).

End Router.

(** ** websocket_gateway.py *)

Module Gateway.
Import Py Models Router.

(** [_normalize_tc_id]: an id that lacks the [call_] prefix is rewritten and
    the rewriting is remembered in [_id_remap]. *)
Definition _normalize_tc_id (_id_remap : gmap string string) (raw_id : string)
  : string * gmap string string :=
  if String.eqb raw_id "" then (raw_id, _id_remap)
  else if starts_with (list_ascii_of_string "call_") (list_ascii_of_string raw_id)
  then (raw_id, _id_remap)
  else
    let new_id := "call_" +:+ replace "toolu_" "" (replace "toolu_vrtx_" "" raw_id) in
    (new_id, <[raw_id := new_id]> _id_remap).

Fixpoint normalize_calls (_id_remap : gmap string string) (tcs : list ToolCall)
  : list ToolCall * gmap string string :=
  match tcs with
  | [] => ([], _id_remap)
  | tc :: rest =>
      let '(new_id, remap1) := _normalize_tc_id _id_remap (tc_id tc) in
      let '(rest', remap2) := normalize_calls remap1 rest in
      ({| tc_id := new_id; tc_name := tc_name tc; tc_arguments := tc_arguments tc |}
         :: rest', remap2)
  end.

Definition nonempty_string (o : option string) : option string :=
  match o with
  | Some s => if String.eqb s "" then None else Some s
  | None => None
  end.

(** The messages of the session as sent to the completion service. *)
Fixpoint to_llm_messages (_id_remap : gmap string string) (ms : list ChatMessage)
  : list ChatMessage * gmap string string :=
  match ms with
  | [] => ([], _id_remap)
  | m :: rest =>
      let tcid :=
        match nonempty_string (tool_call_id m) with
        | Some i => Some (default i (_id_remap !! i))
        | None => None
        end in
      let '(tcs, remap1) :=
        match tool_calls m with
        | Some (tc :: l) =>
            let '(n, remap') := normalize_calls _id_remap (tc :: l) in (Some n, remap')
        | _ => (None, _id_remap)
        end in
      let '(rest', remap2) := to_llm_messages remap1 rest in
      ({| msg_role := msg_role m; content := content m; tool_call_id := tcid;
          tool_calls := tcs; name := nonempty_string (name m) |} :: rest', remap2)
  end.

(** [l[-n:]] *)
Definition last_n {A} (n : nat) (l : list A) : list A := drop (length l - n) l.

Definition append_message (s : ColonelSession) (m : ChatMessage) : ColonelSession :=
  {| session_id := session_id s; messages := messages s ++ [m]; title := title s |}.

(** *** [_call_llm_stream] *)

Definition merge_delta (tc : ToolCall) (d : tc_delta) : ToolCall :=
  {| tc_id := if String.eqb (d_id d) "" then tc_id tc else d_id d;
     tc_name := tc_name tc +:+ d_name d;
     tc_arguments := tc_arguments tc +:+ d_arguments d |}.

Definition new_call (d : tc_delta) : ToolCall :=
  {| tc_id := d_id d; tc_name := ""; tc_arguments := "" |}.

(** [current_tool_calls], kept in the order of its keys. *)
Fixpoint accumulate (d : tc_delta) (current : list (Z * ToolCall)) : list (Z * ToolCall) :=
  match current with
  | [] => [(d_index d, merge_delta (new_call d) d)]
  | (i, tc) :: rest =>
      if (i =? d_index d)%Z then (i, merge_delta tc d) :: rest
      else if (d_index d <? i)%Z then (d_index d, merge_delta (new_call d) d) :: current
      else (i, tc) :: accumulate d rest
  end.

(** The loop over the lines of the stream: the content so far, the tool
    calls so far, and what was sent.  [None] for the tool calls of the result
    marks the early returns after an error frame. *)
Fixpoint read_stream (lines : list sse_line) (full_content : string)
    (current : list (Z * ToolCall)) : string * option (list ToolCall) * trace :=
  let finish :=
    (full_content,
     match current with [] => None | _ => Some (map snd current) end, []) in
  match lines with
  | [] => finish
  | line :: rest =>
      match line with
      | NotData | DataInvalid | DataNoChoices => read_stream rest full_content current
      | DataDone => finish
      | DataError message =>
          (full_content, None, [Send (WSErrorFrame ("LLM error: " +:+ message) None)])
      | ReadTimeout =>
          (full_content, None, [Send (WSErrorFrame "LLM response timed out" None)])
      | Fault e =>
          (full_content, None, [Send (WSErrorFrame ("LLM error: " +:+ e) None)])
      | DataDelta text deltas =>
          let current' := fold_left (fun acc d => accumulate d acc) deltas current in
          if String.eqb text "" then read_stream rest full_content current'
          else
            let '(c, tcs, t) := read_stream rest (full_content +:+ text) current' in
            (c, tcs, Send (WSChunkFrame text) :: t)
      end
  end.

Section Streaming.
Context {W : Type}.
Variable env : environment W.

Definition _call_llm_stream (w : W) (llm_messages : list ChatMessage)
  : string * option (list ToolCall) * trace * W :=
  let '(response, w') := completion env w llm_messages in
  match response with
  | HttpError status_code body =>
      ("", None,
       [LlmRequest llm_messages;
        Send (WSErrorFrame ("LLM returned " +:+ string_of_Z status_code +:+ ": "
                              +:+ prefix 200 body) None)], w')
  | Stream lines =>
      let '(c, tcs, t) := read_stream lines "" [] in
      (c, tcs, LlmRequest llm_messages :: t, w')
  end.

(** A tool call that passes the filter, with its name and arguments. *)
Definition valid_tool_call (tc : ToolCall) : option (ToolCall * string * tool_args) :=
  if String.eqb (tc_name tc) "" then None
  else if String.eqb (strip (tc_arguments tc)) "" then Some (tc, tc_name tc, ArgsObject ∅)
  else match json_loads env (tc_arguments tc) with
       | JsonInvalid => None
       | JsonObject o => Some (tc, tc_name tc, ArgsObject o)
       | JsonOther v => Some (tc, tc_name tc, ArgsOther v)
       end.

(** A valid tool call that [execute] can run: its arguments are a
    dictionary, and the command of a shell call, if given, is a string. *)
Definition well_typed (call : ToolCall * string * tool_args) : bool :=
  match snd call with
  | ArgsOther _ => false
  | ArgsObject params =>
      if String.eqb (snd (fst call)) BASH then
        match params !! "command" with
        | Some (VStr _) | None => true
        | Some _ => false
        end
      else true
  end.

(** A completion service that answers every request with tool calls, of
    which at least one passes the filter and all that pass can be run. *)
Definition always_calls_tools : Prop :=
  forall (w : W) (request : list ChatMessage),
    exists text tcs t w',
      _call_llm_stream w request = (text, Some tcs, t, w')
      /\ omap valid_tool_call tcs <> []
      /\ forallb well_typed (omap valid_tool_call tcs) = true.

(** The state of one turn. *)
Record turn := {
  world : W;
  skill_router : option router;
  session : ColonelSession;
  llm_messages : list ChatMessage;
  _id_remap : gmap string string;
  all_content_parts : list string;
  done_sent : bool;
  sent : trace
}.

Definition emit (st : turn) (t : trace) : turn :=
  {| world := world st; skill_router := skill_router st; session := session st;
     llm_messages := llm_messages st; _id_remap := _id_remap st;
     all_content_parts := all_content_parts st; done_sent := done_sent st;
     sent := sent st ++ t |}.

Definition save (st : turn) : turn := emit st [Save (session st)].

Definition add_to_session (st : turn) (m : ChatMessage) : turn :=
  {| world := world st; skill_router := skill_router st;
     session := append_message (session st) m;
     llm_messages := llm_messages st; _id_remap := _id_remap st;
     all_content_parts := all_content_parts st; done_sent := done_sent st;
     sent := sent st |}.

(** Append the assistant message and send message_done with a fresh id. *)
Definition finish_message (st : turn) (text : string) (mark_done : bool) : turn :=
  let '(msg_id, w') := uuid8 env (world st) in
  {| world := w'; skill_router := skill_router st;
     session := append_message (session st) (plain assistant text);
     llm_messages := llm_messages st; _id_remap := _id_remap st;
     all_content_parts := all_content_parts st;
     done_sent := if mark_done then true else done_sent st;
     sent := sent st ++ [Send (WSMessageDoneFrame msg_id text)] |}.

(** The loop over the valid tool calls of a round. *)
Fixpoint run_tools (config_id : string) (write_enabled : bool)
    (calls : list (ToolCall * string * tool_args)) (r : router) (st : turn)
  : outcome unit * turn :=
  match calls with
  | [] => (Returned (),
           {| world := world st; skill_router := Some r; session := session st;
              llm_messages := llm_messages st; _id_remap := _id_remap st;
              all_content_parts := all_content_parts st; done_sent := done_sent st;
              sent := sent st |})
  | (tc, func_name, func_args) :: rest =>
      let tcid := default (tc_id tc) (_id_remap st !! tc_id tc) in
      let '(res, r', t, w') :=
        execute env (world st) r func_name func_args config_id write_enabled in
      match res with
      | Raised e =>
          (Raised e,
           {| world := w'; skill_router := Some r'; session := session st;
              llm_messages := llm_messages st; _id_remap := _id_remap st;
              all_content_parts := all_content_parts st; done_sent := done_sent st;
              sent := sent st ++ t |})
      | Returned result =>
          run_tools config_id write_enabled rest r'
            {| world := w'; skill_router := Some r';
               session := append_message (session st)
                 {| msg_role := tool; content := result; tool_call_id := Some tcid;
                    tool_calls := None; name := Some func_name |};
               llm_messages := llm_messages st ++
                 [{| msg_role := tool;
                     content := if String.eqb result "" then "(no output)" else result;
                     tool_call_id := Some tcid; tool_calls := None;
                     name := Some func_name |}];
               _id_remap := _id_remap st;
               all_content_parts := all_content_parts st; done_sent := done_sent st;
               sent := sent st ++ t |}
      end
  end.

Inductive step := Continue | Break | Abort (e : string).

(** The body of the round loop. *)
Definition round (config_id : string) (write_enabled : bool) (st : turn)
  : step * turn :=
  let '(assistant_content, tool_calls, t, w') :=
    _call_llm_stream (world st) (llm_messages st) in
  let st1 :=
    {| world := w'; skill_router := skill_router st; session := session st;
       llm_messages := llm_messages st; _id_remap := _id_remap st;
       all_content_parts :=
         if String.eqb assistant_content "" then all_content_parts st
         else all_content_parts st ++ [assistant_content];
       done_sent := done_sent st; sent := sent st ++ t |} in
  match tool_calls with
  | None | Some [] =>
      if String.eqb assistant_content "" then (Break, save st1)
      else (Break, save (finish_message st1 assistant_content true))
  | Some tcs =>
      match skill_router st1 with
      | Some r =>
          match omap valid_tool_call tcs with
          | [] =>
              if String.eqb assistant_content "" then (Break, save st1)
              else (Break, save (finish_message st1 assistant_content false))
          | valid_tool_calls =>
              let '(normalized_tool_calls, remap') := normalize_calls (_id_remap st1) tcs in
              let with_calls :=
                {| msg_role := assistant; content := assistant_content;
                   tool_call_id := None; tool_calls := Some normalized_tool_calls;
                   name := None |} in
              let st2 :=
                {| world := world st1; skill_router := skill_router st1;
                   session := append_message (session st1) with_calls;
                   llm_messages := llm_messages st1 ++ [with_calls];
                   _id_remap := remap';
                   all_content_parts := all_content_parts st1;
                   done_sent := done_sent st1; sent := sent st1 |} in
              match run_tools config_id write_enabled valid_tool_calls r st2 with
              | (Returned _, st3) => (Continue, save st3)
              | (Raised e, st3) => (Abort e, st3)
              end
          end
      | None =>
          (Break,
           save (add_to_session st1
                   (plain assistant
                      (if String.eqb assistant_content ""
                       then "(Tool calling not yet available)"
                       else assistant_content))))
      end
  end.

(** [for round_num in range(n): ...]; the loop ends by a break, by an
    exception, or because the range is exhausted. *)
Fixpoint rounds (n : nat) (config_id : string) (write_enabled : bool) (st : turn)
  : outcome unit * turn :=
  match n with
  | 0 => (Returned (), st)
  | S n' =>
      match round config_id write_enabled st with
      | (Continue, st') => rounds n' config_id write_enabled st'
      | (Break, st') => (Returned (), st')
      | (Abort e, st') => (Raised e, st')
      end
  end.

Definition max_tool_rounds : nat := 5.

Definition join_parts (parts : list string) : string :=
  match parts with
  | [] => ""
  | p :: rest =>
      fold_left (fun acc q => acc +:+ String "010" (String "010" q)) rest p
  end.

(** The safety net after the loop. *)
Definition safety_net (st : turn) : turn :=
  if done_sent st then st
  else
    let final_content := join_parts (all_content_parts st) in
    if String.eqb final_content "" then
      let '(msg_id, w') := uuid8 env (world st) in
      save {| world := w'; skill_router := skill_router st; session := session st;
              llm_messages := llm_messages st; _id_remap := _id_remap st;
              all_content_parts := all_content_parts st; done_sent := done_sent st;
              sent := sent st ++
                [Send (WSMessageDoneFrame msg_id "(No response generated)")] |}
    else
      let '(msg_id, w') := uuid8 env (world st) in
      let already :=
        match last (messages (session st)) with
        | Some m => String.eqb (content m) final_content
        | None => false
        end in
      let st1 := if already then st
                 else add_to_session st (plain assistant final_content) in
      save {| world := w'; skill_router := skill_router st1; session := session st1;
              llm_messages := llm_messages st1; _id_remap := _id_remap st1;
              all_content_parts := all_content_parts st1; done_sent := done_sent st1;
              sent := sent st1 ++ [Send (WSMessageDoneFrame msg_id final_content)] |}.

(** [_stream_response].  The system prompt (configuration, memories, graph
    context, skill descriptions) is given; the memory and graph
    collaborators do nothing else that the client or the session sees. *)
Definition _stream_response (w : W) (r : option router) (s : ColonelSession)
    (system_prompt config_id : string) (write_enabled : bool)
  : outcome unit * turn :=
  let '(history, remap) := to_llm_messages ∅ (last_n 20 (messages s)) in
  let st0 :=
    {| world := w; skill_router := r; session := s;
       llm_messages := plain system system_prompt :: history;
       _id_remap := remap; all_content_parts := []; done_sent := false;
       sent := [] |} in
  match rounds (max_tool_rounds + 1) config_id write_enabled st0 with
  | (Returned _, st) => (Returned (), safety_net st)
  | (Raised e, st) => (Raised e, st)
  end.
End Streaming.

(** *** The receive loop *)

(** What [json.loads] makes of an inbound text. *)
Inductive inbound :=
| InvalidJson
| NotAnObject (type_name : string)
| Object (fields : gmap string value).

(** How the receive loop ends: the client went away, or an exception
    propagated out of it. *)
Inductive loop_exit :=
| Disconnected
| Exception (e : string).

(** [v == s] for a string [s] *)
Definition equals (v : value) (s : string) : bool :=
  match v with
  | VStr t => String.eqb t s
  | _ => false
  end.

Definition auto_title (text : string) : string :=
  prefix 60 text +:+ (if Nat.ltb 60 (String.length text) then "..." else "").

(** [_message_loop].  The inbound texts are those received until the client
    disconnects.  A chat message is added to the session and saved; the call
    of [_stream_response] that follows names [write_enabled], which is
    neither a parameter nor a local of [_message_loop] nor a global of the
    module: evaluating the arguments raises NameError and the call is not
    made.  A confirmation id that is not a string can name no pending
    confirmation (their ids are strings); the entry it leaves in the results
    is not represented. *)
Fixpoint _message_loop (inbox : list inbound) (r : option router) (s : ColonelSession)
  : loop_exit * option router * ColonelSession * trace :=
  match inbox with
  | [] => (Disconnected, r, s, [])
  | InvalidJson :: rest =>
      let '(e, r', s', t) := _message_loop rest r s in
      (e, r', s', Send (WSErrorFrame "Invalid JSON" None) :: t)
  | NotAnObject ty :: _ =>
      (Exception ("'" +:+ ty +:+ "' object has no attribute 'get'"), r, s, [])
  | Object msg :: rest =>
      let msg_type := default (VStr "message") (msg !! "type") in
      if equals msg_type "ping" then
        let '(e, r', s', t) := _message_loop rest r s in
        (e, r', s', Send WSPongFrame :: t)
      else if equals msg_type "confirm" then
        let r1 :=
          match r, msg !! "confirm_id" with
          | Some router, Some (VStr confirm_id) =>
              Some (handle_confirmation confirm_id
                      (truthy (default (VBool false) (msg !! "confirmed"))) router)
          | _, _ => r
          end in
        _message_loop rest r1 s
      else if equals msg_type "message" || equals msg_type "chat" then
        match default (VStr "") (msg !! "content") with
        | VStr text =>
            let text' := strip text in
            if String.eqb text' "" then _message_loop rest r s
            else
              let s1 := append_message s (plain user text') in
              let s2 :=
                if Nat.eqb (length (messages s1)) 1
                then {| session_id := session_id s1; messages := messages s1;
                        title := Some (auto_title text') |}
                else s1 in
              (Exception "name 'write_enabled' is not defined", r, s2, [Save s2])
        | v => (Exception ("'" +:+ type_name v +:+ "' object has no attribute 'strip'"),
                r, s, [])
        end
      else _message_loop rest r s
  end.

(** [handle_websocket], from the call of the receive loop on: an exception
    other than the disconnection is reported in an error frame. *)
Definition handle_websocket (inbox : list inbound) (r : option router) (s : ColonelSession)
  : option router * ColonelSession * trace :=
  let '(e, r', s', t) := _message_loop inbox r s in
  match e with
  | Disconnected => (r', s', t)
  | Exception detail => (r', s', t ++ [Send (WSErrorFrame detail None)])
  end.

End Gateway.

(** ** Environments and inputs of the examples *)

Module Stub.
Import Py Models Router Gateway.

(** An environment whose world is a counter of the ids handed out: the ids
    are [u0], [u1], ...; every executor takes 7 ms; the shell prints [out];
    the other executors answer [ok]; [json_loads] is [json.loads] on the two
    argument strings of the examples ([{}] is the empty object, anything else
    here is rejected). *)
Definition env (llm : list ChatMessage -> llm_response) (calls : list (string * bool))
  : environment nat :=
  {| uuid8 := fun w => ("u" +:+ Safety.string_of_nat w, S w);
     elapsed_ms := fun w => (7%Z, w);
     other_tasks := fun w => (calls, w);
     shell := fun w _ _ => (ProcDone "out" "", w);
     external := fun w _ _ => (Returned "ok", w);
     completion := fun w ms => (llm ms, w);
     json_loads := fun s => if String.eqb s "{}" then JsonObject ∅ else JsonInvalid |}.

Definition EMPTY_ROUTER : router :=
  {| skills := ∅; _pending_confirmations := ∅; _confirmation_results := ∅ |}.


Definition STOP_PARAMS : gmap string value := {["command" := VStr "docker stop x"]}.



Definition NEW_SESSION : ColonelSession :=
  {| session_id := "s"; messages := []; title := None |}.

(** A session whose last message is the user's. *)
Definition ASKED_SESSION : ColonelSession :=
  {| session_id := "s"; messages := [plain user "list containers"]; title := None |}.

Definition chat_fields (text : string) : gmap string value :=
  {["type" := VStr "chat"; "content" := VStr text]}.

Definition chat (text : string) : inbound := Object (chat_fields text).

(** The completion service that streams the plain content [no tools]. *)
Definition PLAIN : llm_response := Stream [DataDelta "no tools" []; DataDone].

Definition call_of (arguments : string) : tc_delta :=
  {| d_index := 0; d_id := "call_1"; d_name := "system-status__cpu";
     d_arguments := arguments |}.

(** Content and one tool call whose arguments are not JSON. *)
Definition MALFORMED : llm_response :=
  Stream [DataDelta "hi" [call_of "{bad"]; DataDone].

(** One tool call with the empty object for arguments, at every request. *)
Definition TOOL_CALL : llm_response :=
  Stream [DataDelta "" [call_of "{}"]; DataDone].

End Stub.

(** * Further parts of the code

    Container management and SQL queries of [skill_executor.py] with
    [validate_docker_command] of [safety.py], the tool names of
    [skill_loader.py], the handshake and the titles of
    [websocket_gateway.py]; then the meaning of the patterns and the notions
    that the later statements use. *)

(** ** skill_executor.py: containers and queries *)

Module Docker.
Import Py Models.

(** *** safety.py: [validate_docker_command] *)

Definition PROTECTED : list string :=
  ["unicorn-postgresql"; "unicorn-redis"; "unicorn-keycloak"; "ops-center-direct";
   "traefik"].

Definition GUARDED : list string := ["stop"; "kill"; "rm"; "remove"].

(** [x in l] *)
Definition member (x : string) (l : list string) : bool := existsb (String.eqb x) l.

Definition validate_docker_command (container_name action : string)
  : bool * option string :=
  if member action GUARDED && member container_name PROTECTED then
    (false, Some ("Container '" +:+ container_name
                  +:+ "' is a critical service and cannot be " +:+ action +:+ "ped"))
  else (true, None).

(** *** skill_executor.py: [docker_manage_container] *)

(** The calls on a container object. *)
Inductive operation :=
| Start
| Stop (timeout : Z)
| Restart (timeout : Z)
| Kill.

(** What is asked of the Docker daemon, in order. *)
Inductive request :=
| Get (container_name : string)                    (* client.containers.get *)
| Do (container_name : string) (op : operation).

(** How a call of the Docker client fails: the two exceptions that
    [docker_manage_container] handles, and any other. *)
Inductive failure :=
| NotFound
| APIError (e : string)
| OtherException (e : string).

(** The Docker client: [get] stands for [_get_docker()] followed by
    [client.containers.get], [do] for a call on the container found. *)
Record daemon (W : Type) := {
  get : W -> string -> option failure * W;
  do : W -> string -> operation -> option failure * W
}.
Arguments get {W} _ _ _.
Arguments do {W} _ _ _ _.

Definition handled (container_name : string) (f : failure) : outcome string :=
  match f with
  | NotFound => Returned ("Container '" +:+ container_name +:+ "' not found.")
  | APIError e => Returned ("Docker API error: " +:+ e)
  | OtherException e => Raised e
  end.

(** The branches of the if-chain: the call and the word of the answer. *)
Definition operation_of (action : string) : option (operation * string) :=
  if String.eqb action "start" then Some (Start, "started")
  else if String.eqb action "stop" then Some (Stop 30, "stopped")
  else if String.eqb action "restart" then Some (Restart 30, "restarted")
  else if String.eqb action "kill" then Some (Kill, "killed")
  else None.

(** [docker_manage_container(container_name, action)], for the strings that
    its signature names. *)
Definition docker_manage_container {W : Type} (d : daemon W) (w : W)
    (container_name action : string) : outcome string * list request * W :=
  match validate_docker_command container_name action with
  | (false, reason) => (Returned ("Blocked: " +:+ default "None" reason), [], w)
  | (true, _) =>
      match get d w container_name with
      | (Some f, w1) => (handled container_name f, [Get container_name], w1)
      | (None, w1) =>
          match operation_of action with
          | None => (Returned ("Unknown action: " +:+ action), [Get container_name], w1)
          | Some (op, word) =>
              match do d w1 container_name op with
              | (Some f, w2) =>
                  (handled container_name f, [Get container_name; Do container_name op], w2)
              | (None, w2) =>
                  (Returned ("Container '" +:+ container_name +:+ "' " +:+ word +:+ "."),
                   [Get container_name; Do container_name op], w2)
              end
          end
      end
  end.


(** A daemon that has every container and never fails. *)
Definition WILLING : daemon nat :=
  {| get := fun w _ => (None, S w); do := fun w _ _ => (None, S w) |}.
End Docker.

Module Postgres.
Import Py Models Executor.

(** [str.upper()] on the characters below 256: the letters a-z and the
    letters from 224 to 254, the division sign apart, move to their capitals,
    32 below; the sharp s becomes SS.  The capitals of the micro sign and of
    the y with diaeresis lie above 255; these two characters are left as they
    are, which no test below can tell from their capitals. *)
Definition upper_char (c : ascii) : list ascii :=
  if Re.in_range 97 122 c then [ascii_of_N (Re.code c - 32)]
  else if (Re.code c =? 223)%N then ["S"%char; "S"%char]
  else if Re.in_range 224 254 c && negb (Re.code c =? 247)%N
       then [ascii_of_N (Re.code c - 32)]
  else [c].

Definition upper (s : list ascii) : list ascii := flat_map upper_char s.

Definition read_prefixes : list string := ["SELECT"; "\D"; "EXPLAIN"; "WITH"].

Definition write_prefixes : list string := ["INSERT"; "UPDATE"; "DELETE"].

(** [any(q_upper.startswith(p) for p in prefixes)] *)
Definition starts_with_any (prefixes : list string) (q_upper : list ascii) : bool :=
  existsb (fun p => starts_with (list_ascii_of_string p) q_upper) prefixes.

Definition REFUSED_WRITER : string :=
  "Only SELECT, INSERT, UPDATE, DELETE, WITH, \d, and EXPLAIN are allowed. DROP/ALTER/TRUNCATE are always blocked.".

Definition REFUSED_READER : string :=
  "Only SELECT, \d, and EXPLAIN queries are allowed. (Write operations require a write-capable model.)".

Definition QUOTE : string := String "034" "".

(** The command line of psql for a query. *)
Definition psql (database query : string) : string :=
  "docker exec unicorn-postgresql psql -U unicorn -d " +:+ database
  +:+ " -c " +:+ QUOTE +:+ query +:+ QUOTE.

Section Query.
Context {W : Type}.
Variable env : environment W.

(** [postgresql_query(query, database, write_enabled)] for a query that is
    a string; the database is formatted into the command line as [str] does,
    and the write flag is used for its truth value. *)
Definition postgresql_query (w : W) (query : string) (database write_enabled : value)
  : string * trace * W :=
  let q_upper := upper (list_ascii_of_string (strip query)) in
  if starts_with_any read_prefixes q_upper
     || (truthy write_enabled && starts_with_any write_prefixes q_upper)
  then bash_execute env w (psql (str database) query) (VInt 15)
  else if truthy write_enabled then (REFUSED_WRITER, [], w)
  else (REFUSED_READER, [], w).

End Query.
End Postgres.

(** ** skill_loader.py: the names of the tools *)

Module Loader.
Import Py Models Router.

(** [skill_to_tool_definitions]: the names of the tools made of a skill, in
    the order of its actions.  (The schema of the parameters plays no part in
    the routing.) *)
Definition tool_names (skill_name : string) (s : skill) : list string :=
  map (fun a => skill_name +:+ "__" +:+ action_name a) (skill_actions s).

(** [get_tool_definitions_for_skills]: the tools of the enabled skills that
    the catalog has, with the catalog keyed by the names of the skills, as
    [load_all_skills] builds it. *)
Definition get_tool_definitions_for_skills (catalog : gmap string skill)
    (enabled_skill_ids : list string) : list string :=
  flat_map (fun skill_id =>
              match catalog !! skill_id with
              | Some s => tool_names skill_id s
              | None => []
              end) enabled_skill_ids.

(** A name that can be told from what follows it: with one underscore
    added, it has no double underscore. *)
Definition separable (skill_name : string) : bool :=
  match split_once "__" (skill_name +:+ "_") with
  | None => true
  | Some _ => false
  end.

(** A catalog with one skill of two actions, the second to be confirmed. *)
Definition DOCKER_SKILL : skill :=
  {| skill_actions := [{| action_name := "list_containers";
                          confirmation_required := false |};
                       {| action_name := "manage_container";
                          confirmation_required := true |}] |}.

Definition CATALOG : gmap string skill := {["docker-management" := DOCKER_SKILL]}.
End Loader.

(** ** websocket_gateway.py: the handshake *)

Module Connect.
Import Py Models.

(** What the handshake reads of the socket. *)
Record socket := {
  cookie_token : option string;       (* ws.cookies.get("session_token") *)
  query_token : option string;        (* ws.query_params.get("token") *)
  query_session_id : option string    (* ws.query_params.get("session_id") *)
}.

(** The user record of a login session, for records whose ids and role are
    strings; [realm_roles] is [realm_access.roles], empty when absent. *)
Record user_record := {
  sub : option string;
  id_ : option string;
  user_id_ : option string;
  role_ : option string;
  realm_roles : list string
}.

(** What [RedisSessionManager.get] gives for a token: nothing, an exception,
    or the session data with its user record ([None] when the record is
    absent or empty). *)
Inductive login :=
| NoLogin
| LoginError (e : string)
| Login (record : option user_record).

(** A chat session in the store: its id and its owner. *)
Record stored := {
  stored_id : string;
  owner : string
}.

Record context := {
  logins : string -> login;                     (* the login sessions in Redis *)
  chats : string -> option stored;              (* _get_session *)
  fresh_id : string;                            (* the id of a session created now *)
  admin_only : bool;                            (* config.admin_only *)
  colonel_id : string;                          (* config.id *)
  write_capable : bool                          (* is_write_capable_model(...) *)
}.

Inductive step :=
| Accept
| ReadLogin (token : string)
| SendFrame (f : frame)
| Close (code : Z) (reason : string)
| GetSession (session_id : string)
| CreateSession (user_id colonel : string)
| Connected (session_id : string) (write_enabled : bool).

(** [x or y] on optional strings: the first that is there and not empty. *)
Definition nonempty (o : option string) : option string :=
  match o with
  | Some s => if String.eqb s "" then None else Some s
  | None => None
  end.

(** [_authenticate] *)
Definition _authenticate (c : context) (ws : socket) : option user_record * list step :=
  let session_token :=
    match nonempty (cookie_token ws) with
    | Some t => Some t
    | None => nonempty (query_token ws)
    end in
  match session_token with
  | None => (None, [])
  | Some token =>
      match logins c token with
      | Login (Some u) => (Some u, [ReadLogin token])
      | _ => (None, [ReadLogin token])
      end
  end.

(** [user.get("sub") or user.get("id") or user.get("user_id", "unknown")] *)
Definition user_id_of (u : user_record) : string :=
  match nonempty (sub u) with
  | Some s => s
  | None =>
      match nonempty (id_ u) with
      | Some s => s
      | None => default "unknown" (user_id_ u)
      end
  end.

Definition is_admin (u : user_record) : bool :=
  match role_ u with
  | Some r => String.eqb r "admin"
  | None => false
  end
  || existsb (String.eqb "admin") (realm_roles u).

(** How the handshake ends: the socket is closed, or the receive loop starts
    on a session. *)
Inductive verdict :=
| Rejected
| Attached (user_id : string) (session : stored).

(** [handle_websocket] up to the call of the receive loop. *)
Definition connect (c : context) (ws : socket) : verdict * list step :=
  let '(authenticated, t) := _authenticate c ws in
  match authenticated with
  | None =>
      (Rejected,
       Accept :: t ++
       [SendFrame (WSErrorFrame "Authentication required" (Some "auth_required"));
        Close 4001 "Authentication required"])
  | Some u =>
      let user_id := user_id_of u in
      if admin_only c && negb (is_admin u) then
        (Rejected,
         Accept :: t ++
         [SendFrame (WSErrorFrame "Admin access required" (Some "forbidden"));
          Close 4003 "Forbidden"])
      else
        let created := {| stored_id := fresh_id c; owner := user_id |} in
        let '(session, t') :=
          match nonempty (query_session_id ws) with
          | Some session_id =>
              match chats c session_id with
              | Some s =>
                  if String.eqb (owner s) user_id then (s, [GetSession session_id])
                  else (created, [GetSession session_id;
                                  CreateSession user_id (colonel_id c)])
              | None => (created, [GetSession session_id;
                                   CreateSession user_id (colonel_id c)])
              end
          | None => (created, [CreateSession user_id (colonel_id c)])
          end in
        (Attached user_id session,
         Accept :: t ++ t' ++ [Connected (stored_id session) (write_capable c)])
  end.

(** The steps that touch a chat session or start the conversation. *)
Definition opens (s : step) : bool :=
  match s with
  | GetSession _ | CreateSession _ _ | Connected _ _ => true
  | _ => false
  end.

Definition is_error_step (s : step) : bool :=
  match s with
  | SendFrame (WSErrorFrame _ _) => true
  | _ => false
  end.
End Connect.

(** ** websocket_gateway.py: the titles of the sessions *)

Module Titles.
Import Py Models.



End Titles.

(** ** What the patterns mean *)

Module Meaning.
Import Re.

(** The character before the position that follows [m]. *)
Definition last_char (prev : option ascii) (m : list ascii) : option ascii :=
  match rev m with
  | c :: _ => Some c
  | [] => prev
  end.

(** Iterations of a body: each one continues where the one before ended. *)
Inductive star_of (body : option ascii -> list ascii -> list ascii -> Prop)
  : option ascii -> list ascii -> list ascii -> Prop :=
| star_done before after : star_of body before [] after
| star_more before m1 m2 after :
    body before m1 (m2 ++ after) ->
    star_of body (last_char before m1) m2 after ->
    star_of body before (m1 ++ m2) after.

Fixpoint repeat_of (n : nat) (body : option ascii -> list ascii -> list ascii -> Prop)
    (before : option ascii) (m after : list ascii) : Prop :=
  match n with
  | 0 => m = []
  | S n' =>
      exists m1 m2, m = m1 ++ m2 /\ body before m1 (m2 ++ after)
                    /\ repeat_of n' body (last_char before m1) m2 after
  end.

(** What a pattern matches: [m] is matched by [r] where the character
    [before] precedes it and the text [after] follows it. *)
Fixpoint derives (ic : bool) (r : regex) (before : option ascii) (m after : list ascii)
  : Prop :=
  match r with
  | Empty => m = []
  | Lit p => exists c, m = [c] /\ lit_eq ic p c = true
  | Dot => exists c, m = [c] /\ negb (Ascii.eqb c "010") = true
  | Space => exists c, m = [c] /\ is_space c = true
  | NotSpace => exists c, m = [c] /\ negb (is_space c) = true
  | CharSet items => exists c, m = [c] /\ set_has ic items c = true
  | WordBoundary => m = [] /\ xorb (word_before before) (word_after after) = true
  | EndOfString => m = [] /\ at_end after = true
  | Cat r1 r2 =>
      exists m1 m2, m = m1 ++ m2 /\ derives ic r1 before m1 (m2 ++ after)
                    /\ derives ic r2 (last_char before m1) m2 after
  | Alt r1 r2 => derives ic r1 before m after \/ derives ic r2 before m after
  | Group _ r1 => derives ic r1 before m after
  | Star r1 => star_of (derives ic r1) before m after
  | Plus r1 =>
      exists m1 m2, m = m1 ++ m2 /\ derives ic r1 before m1 (m2 ++ after)
                    /\ star_of (derives ic r1) (last_char before m1) m2 after
  | Opt r1 => m = [] \/ derives ic r1 before m after
  | Repeat n r1 => repeat_of n (derives ic r1) before m after
  end.

(** The pattern matches somewhere in the text. *)
Definition occurs (ic : bool) (r : regex) (text : list ascii) : Prop :=
  exists pre m post,
    text = pre ++ m ++ post /\ derives ic r (last_char None pre) m post.

(** Whatever comes after a match is tried. *)
Definition complete {R : Type} (body : option ascii -> list ascii -> list ascii -> Prop)
    (f : matcher (R:=R)) : Prop :=
  forall prev m after cs k,
    body prev m after ->
    (forall cs', k (last_char prev m) after cs' <> None) ->
    f prev (m ++ after) cs k <> None.

(** A result of a matcher comes from a match and from what was tried after
    it. *)
Definition sound_for {R : Type} (body : option ascii -> list ascii -> list ascii -> Prop)
    (f : matcher (R:=R)) : Prop :=
  forall prev s cs k x,
    f prev s cs k = Some x ->
    exists m s' cs',
      s = m ++ s' /\ body prev m s' /\ k (last_char prev m) s' cs' = Some x.
End Meaning.

(** ** Notions used by the statements

    What a trace shows to the client, and the invariant of the table of
    rewritten tool-call ids. *)

Module Views.
Import Py Models Executor Router Gateway.

(** The text of the chunk frames of a trace, in order. *)
Fixpoint chunk_text (t : trace) : string :=
  match t with
  | [] => ""
  | Send (WSChunkFrame text) :: t' => text +:+ chunk_text t'
  | _ :: t' => chunk_text t'
  end.

(** An id in the format the completion service expects. *)
Definition canonical (raw_id : string) : bool :=
  starts_with (list_ascii_of_string "call_") (list_ascii_of_string raw_id).

(** Every entry of the table maps an id that is not canonical to the id
    that [_normalize_tc_id] makes of it. *)
Definition consistent (_id_remap : gmap string string) : Prop :=
  forall raw_id new_id,
    _id_remap !! raw_id = Some new_id ->
    raw_id <> "" /\ canonical raw_id = false
    /\ new_id = fst (_normalize_tc_id ∅ raw_id).

(** [_id_remap.get(raw_id, raw_id)] *)
Definition remapped (_id_remap : gmap string string) (raw_id : string) : string :=
  default raw_id (_id_remap !! raw_id).




(** The fragments of the tool call with index [i], in the order of arrival. *)
Definition fragments (i : Z) (deltas : list tc_delta) : list tc_delta :=
  List.filter (fun d => (d_index d =? i)%Z) deltas.

(** The pieces of a field of the fragments, put together. *)
Fixpoint joined (field : tc_delta -> string) (deltas : list tc_delta) : string :=
  match deltas with
  | [] => ""
  | d :: rest => field d +:+ joined field rest
  end.

(** The last id among the fragments that is not empty; the empty string when
    there is none. *)
Fixpoint last_id (deltas : list tc_delta) : string :=
  match deltas with
  | [] => ""
  | d :: rest => if String.eqb (last_id rest) "" then d_id d else last_id rest
  end.

Fixpoint increasing (keys : list Z) : bool :=
  match keys with
  | a :: rest =>
      match rest with
      | b :: _ => (a <? b)%Z && increasing rest
      | [] => true
      end
  | [] => true
  end.

(** What a state of [current_tool_calls] has to do with the fragments seen. *)
Definition assembled (deltas : list tc_delta) (current : list (Z * ToolCall)) : Prop :=
  increasing (map fst current) = true
  /\ (forall i, In i (map fst current) <-> In i (map d_index deltas))
  /\ forall i tc, In (i, tc) current ->
       tc_name tc = joined d_name (fragments i deltas)
       /\ tc_arguments tc = joined d_arguments (fragments i deltas)
       /\ tc_id tc = last_id (fragments i deltas).


(** [text] is [word], letter by letter, in any case. *)
Fixpoint spells (word text : list ascii) : bool :=
  match word, text with
  | [], [] => true
  | a :: word', b :: text' => Ascii.eqb (Re.lower a) (Re.lower b) && spells word' text'
  | _, _ => false
  end.

(** [text] is one of the [words], in any case. *)
Definition spells_any (words : list string) (text : list ascii) : bool :=
  existsb (fun p => spells (list_ascii_of_string p) text) words.

Definition ALL_ASCII : list ascii := map ascii_of_nat (seq 0 256).




(** A sequence of patterns, the last one apart. *)
Definition chain (rs : list Re.regex) (last : Re.regex) : Re.regex :=
  fold_right Re.Cat last rs.

Definition is_letter (a : ascii) : bool :=
  Re.in_range 65 90 a || Re.in_range 97 122 a.

Definition SQL_DROP : list ascii := list_ascii_of_string "DROP".
Definition SQL_DATABASE : list ascii := list_ascii_of_string "DATABASE".
Definition SQL_TRUNCATE : list ascii := list_ascii_of_string "TRUNCATE".
Definition SQL_TABLE : list ascii := list_ascii_of_string "TABLE".

(** The words that stop or wipe a machine. *)
Definition FATAL_WORDS : list string := ["mkfs"; "shutdown"; "reboot"; "poweroff"].

Definition SQL_DELETE : list ascii := list_ascii_of_string "DELETE".
Definition SQL_FROM : list ascii := list_ascii_of_string "FROM".
Definition SQL_ALTER : list ascii := list_ascii_of_string "ALTER".

Definition is_save (e : event) : bool :=
  match e with Save _ => true | _ => false end.

(** What may follow a message_done frame. *)
Definition closing (e : event) : bool := is_message_done e || is_save e.

(** After the first message_done frame of the trace, if there is one, come
    only message_done frames and saves. *)
Fixpoint closes (t : trace) : bool :=
  match t with
  | [] => true
  | e :: t' => if is_message_done e then forallb closing t' else closes t'
  end.

End Views.

(** ** More examples *)

Module Examples.
Import Py Models Router Gateway.

(** The completion service is down. *)
Definition UNAVAILABLE : llm_response := HttpError 503 "upstream down".

(** One tool call whose id has the format of another provider. *)
Definition TOOLU_CALL : llm_response :=
  Stream [DataDelta "" [{| d_index := 0; d_id := "toolu_vrtx_01";
                           d_name := "system-status__cpu"; d_arguments := "{}" |}];
          DataDone].

(** The state of a turn before its first round, for the session of the
    examples. *)
Definition FIRST_ROUND : @turn nat :=
  {| world := 0; skill_router := Some Stub.EMPTY_ROUTER; session := Stub.ASKED_SESSION;
     llm_messages := [plain system "prompt"; plain user "list containers"];
     _id_remap := ∅; all_content_parts := []; done_sent := false; sent := [] |}.
End Examples.
(** * Properties *)

(** ** The regular-expression engine *)

Module ReFacts.
Import Re.

Section Sound.
Context {R : Type}.

Lemma one_sound p : sound (R:=R) (one p) 1 (Some 1).
Proof.
  intros prev s cs k x H. destruct s as [|c s']; simpl in H; [discriminate|].
  destruct (p c); [|discriminate].
  exists (Some c), [c], s', cs. simpl. auto.
Qed.

Lemma guard_sound b : sound (R:=R) (guard b) 0 (Some 0).
Proof.
  intros prev s cs k x H. unfold guard in H. destruct b; [|discriminate].
  exists prev, [], s, cs. simpl. auto.
Qed.

Lemma star_loop_sound body lo hi fuel :
  sound (R:=R) body lo hi -> sound (star_loop body fuel) 0 None.
Proof.
  intros Hb. induction fuel as [|fuel IH]; intros prev s cs k x H; simpl in H.
  - exists prev, [], s, cs. simpl. auto with lia.
  - destruct (body prev s cs _) as [y|] eqn:E.
    + injection H as ->. apply Hb in E as (p1 & m1 & s1 & cs1 & -> & E & _ & _).
      destruct (Nat.ltb _ _); [|discriminate].
      apply IH in E as (p2 & m2 & s2 & cs2 & -> & E & _ & _).
      exists p2, (m1 ++ m2), s2, cs2. rewrite <- app_assoc. simpl. auto with lia.
    + exists prev, [], s, cs. simpl. auto with lia.
Qed.

Lemma repeat_loop_sound body lo hi n :
  sound (R:=R) body lo hi -> sound (repeat_loop body n) (n * lo) (option_map (Nat.mul n) hi).
Proof.
  intros Hb. induction n as [|n IH]; intros prev s cs k x H; simpl in H.
  - exists prev, [], s, cs. destruct hi; simpl; auto with lia.
  - apply Hb in H as (p1 & m1 & s1 & cs1 & -> & E & L1 & U1).
    apply IH in E as (p2 & m2 & s2 & cs2 & -> & E & L2 & U2).
    exists p2, (m1 ++ m2), s2, cs2. rewrite <- app_assoc, length_app.
    repeat split; auto; [lia|]. destruct hi; simpl in *; lia.
Qed.

Lemma rmatch_sound ic r : sound (R:=R) (rmatch ic r) (min_len r) (max_len r).
Proof.
  induction r; simpl; try apply one_sound.
  - intros prev s cs k x H. exists prev, [], s, cs. simpl. auto.
  - intros prev s cs k x H. apply guard_sound in H. exact H.
  - intros prev s cs k x H. apply guard_sound in H. exact H.
  - intros prev s cs k x H.
    apply IHr1 in H as (p1 & m1 & s1 & cs1 & -> & E & L1 & U1).
    apply IHr2 in E as (p2 & m2 & s2 & cs2 & -> & E & L2 & U2).
    exists p2, (m1 ++ m2), s2, cs2. rewrite <- app_assoc, length_app.
    repeat split; auto; [lia|].
    destruct (max_len r1), (max_len r2); simpl in *; lia.
  - intros prev s cs k x H.
    destruct (rmatch ic r1 prev s cs k) as [y|] eqn:E.
    + injection H as ->. apply IHr1 in E as (p1 & m1 & s1 & cs1 & -> & E & L1 & U1).
      exists p1, m1, s1, cs1. repeat split; auto; [lia|].
      destruct (max_len r1), (max_len r2); simpl in *; lia.
    + apply IHr2 in H as (p1 & m1 & s1 & cs1 & -> & E' & L1 & U1).
      exists p1, m1, s1, cs1. repeat split; auto; [lia|].
      destruct (max_len r1), (max_len r2); simpl in *; lia.
  - intros prev s cs k x H.
    apply IHr in H as (p1 & m1 & s1 & cs1 & -> & E & L1 & U1).
    eexists p1, m1, s1, _. repeat split; eauto.
  - intros prev s cs k x H.
    apply (star_loop_sound _ _ _ _ IHr) in H. exact H.
  - intros prev s cs k x H.
    apply IHr in H as (p1 & m1 & s1 & cs1 & -> & E & L1 & U1).
    apply (star_loop_sound _ _ _ _ IHr) in E as (p2 & m2 & s2 & cs2 & -> & E & _ & _).
    exists p2, (m1 ++ m2), s2, cs2. rewrite <- app_assoc, length_app.
    repeat split; auto. lia.
  - intros prev s cs k x H.
    destruct (rmatch ic r prev s cs k) as [y|] eqn:E.
    + injection H as ->. apply IHr in E as (p1 & m1 & s1 & cs1 & -> & E & L1 & U1).
      exists p1, m1, s1, cs1. repeat split; auto. lia.
    + exists prev, [], s, cs. repeat split; auto.
      destruct (max_len r); simpl; lia.
  - apply repeat_loop_sound. exact IHr.
Qed.
End Sound.

Lemma match_here_spec ic r prev s f :
  match_here ic r prev s = Some f ->
  f_pre f = [] /\ s = f_match f ++ f_rest f
  /\ min_len r <= length (f_match f) /\ within (max_len r) (length (f_match f)).
Proof.
  unfold match_here. intros H.
  apply rmatch_sound in H as (p1 & m1 & s1 & cs1 & -> & E & L & U).
  injection E as <-. simpl.
  rewrite length_app, Nat.add_sub, take_app_length. auto.
Qed.

Lemma search_spec ic r prev s f :
  search ic r prev s = Some f ->
  s = f_pre f ++ f_match f ++ f_rest f
  /\ min_len r <= length (f_match f) /\ within (max_len r) (length (f_match f)).
Proof.
  revert prev f. induction s as [|c s IH]; intros prev f H; simpl in H.
  - destruct (match_here ic r prev []) eqn:E; [|discriminate].
    injection H as ->. apply match_here_spec in E as (-> & E & L & U). auto.
  - destruct (match_here ic r prev (c :: s)) eqn:E.
    + injection H as ->. apply match_here_spec in E as (-> & E & L & U). auto.
    + destruct (search ic r (Some c) s) as [g|] eqn:G; [|discriminate].
      injection H as <-. simpl. apply IH in G as (G & L & U). rewrite <- G. auto.
Qed.

(** A pattern that needs at least one character has no empty match. *)
Lemma search_nonempty ic r prev s f :
  0 < min_len r -> search ic r prev s = Some f -> f_match f <> [].
Proof.
  intros Hm H. apply search_spec in H as (_ & L & _).
  intros E. rewrite E in L. simpl in L. lia.
Qed.

(** Substituting each match by itself changes nothing. *)
Lemma sub_loop_same fuel ic r g prev s :
  (forall m, within (max_len r) (length m) -> g m = m) ->
  sub_loop fuel ic r (Callable g) prev s = s.
Proof.
  intros Hg. revert prev s. induction fuel as [|fuel IH]; intros prev s; simpl; [reflexivity|].
  destruct (search ic r prev s) as [f|] eqn:E; [|reflexivity].
  apply search_spec in E as (E & L & U).
  rewrite (Hg _ U).
  destruct (f_match f) as [|a m] eqn:Em.
  - destruct (f_rest f) as [|c rest] eqn:Er.
    + symmetry. exact E.
    + rewrite IH. symmetry. exact E.
  - rewrite IH. symmetry. exact E.
Qed.
End ReFacts.

(** ** safety.py *)

Module SafetyFacts.
Import Re ReFacts Safety.

Lemma length_append (s t : string) :
  String.length (s +:+ t) = String.length s + String.length t.
Proof. induction s as [|c s IH]; simpl; [reflexivity|]. now rewrite IH. Qed.

Lemma length_string_of_list_ascii (l : list ascii) :
  String.length (string_of_list_ascii l) = length l.
Proof. induction l as [|c l IH]; simpl; [reflexivity|]. now rewrite IH. Qed.

Lemma length_list_ascii_of_string (s : string) :
  length (list_ascii_of_string s) = String.length s.
Proof. induction s as [|c s IH]; simpl; [reflexivity|]. now rewrite IH. Qed.

(** None of the patterns is rejected by the compiler. *)
Lemma patterns_compile :
  compile_all BLOCKED_PATTERNS = Some BLOCKED_COMPILED
  /\ compile_all (map fst CONFIRMATION_PATTERNS) = Some CONFIRMATION_COMPILED
  /\ compile_all (map fst REDACT_PATTERNS) = Some REDACT_COMPILED
  /\ Re.compile ANSI_PATTERN = Some ANSI_COMPILED.
Proof. repeat split; vm_compute; reflexivity. Qed.

(** No pattern used in a substitution has an empty match. *)
Lemma substitution_patterns_consume :
  Forall (fun q : compiled => 0 < min_len (snd (snd q))) REDACT_COMPILED
  /\ 0 < min_len (snd ANSI_COMPILED).
Proof. split; [repeat constructor|]; vm_compute; lia. Qed.

(** The compiled list keeps the texts of the patterns, in order. *)
Lemma blocked_sources : fst <$> BLOCKED_COMPILED = BLOCKED_PATTERNS.
Proof. reflexivity. Qed.

Lemma first_blocked_found (ps : list compiled) (command : string) :
  (exists q, q ∈ ps /\ re_search (snd q) true command = true) ->
  exists i pattern, first_match ps command i pattern
                    /\ first_blocked ps command = Some pattern.
Proof.
  induction ps as [|[p c] ps IH]; intros (q & Hin & Hq).
  - inversion Hin.
  - simpl. destruct (re_search c true command) eqn:E.
    + exists 0, p. split; [|reflexivity].
      exists c. repeat split; auto. intros j q' Hj. lia.
    + destruct IH as (i & pattern & (c' & Hi & Hm & Hbefore) & Hf).
      { apply elem_of_cons in Hin as [->|Hin]; [simpl in Hq; congruence|eauto]. }
      exists (S i), pattern. split; [|exact Hf].
      exists c'. repeat split; auto.
      intros [|j] q' Hj Hl; simpl in Hl.
      * injection Hl as <-. exact E.
      * apply (Hbefore j); [lia|exact Hl].
Qed.

Lemma first_blocked_none (ps : list compiled) (command : string) :
  (forall q, q ∈ ps -> re_search (snd q) true command = false) ->
  first_blocked ps command = None.
Proof.
  induction ps as [|[p c] ps IH]; intros H; simpl; [reflexivity|].
  pose proof (H (p, c) (list_elem_of_here _ _)) as E. simpl in E. rewrite E.
  apply IH. intros q Hq. apply H. now apply list_elem_of_further.
Qed.

(** C8.  [validate_command] is a total function of the command: its patterns
    all compile, so no call can fail.  When some blocked pattern is found in
    the command, the answer is [(False, reason)] and the reason names the
    first pattern of the list that is found; when none is found the answer is
    [(True, None)], the empty reason.  [rm -rf /] is denied and [docker ps]
    is allowed. *)
Theorem validate_command_first_match :
  compile_all BLOCKED_PATTERNS = Some BLOCKED_COMPILED
  /\ (forall command,
        (exists q, q ∈ BLOCKED_COMPILED /\ re_search (snd q) true command = true) ->
        exists i pattern,
          first_match BLOCKED_COMPILED command i pattern
          /\ BLOCKED_PATTERNS !! i = Some pattern
          /\ validate_command command = (false, Some (blocked_reason pattern)))
  /\ (forall command,
        (forall q, q ∈ BLOCKED_COMPILED -> re_search (snd q) true command = false) ->
        validate_command command = (true, None))
  /\ validate_command "rm -rf /"
     = (false, Some "Blocked: Command matches dangerous pattern (\brm\s+(-rf?\s+)?/\s*$)")
  /\ validate_command "docker ps" = (true, None).
Proof.
  split; [apply patterns_compile|]. split; [|split; [|split]].
  - intros command H.
    destruct (first_blocked_found _ _ H) as (i & pattern & Hfm & Hf).
    exists i, pattern. repeat split; auto.
    + destruct Hfm as (c & Hi & _).
      rewrite <- blocked_sources, list_lookup_fmap.
      exact (f_equal (fmap fst) Hi).
    + unfold validate_command. now rewrite Hf.
  - intros command H. unfold validate_command.
    now rewrite (first_blocked_none _ _ H).
  - vm_compute. reflexivity.
  - vm_compute. reflexivity.
Qed.

(** The theorem at [rm -rf /]: the first pattern is found in it. *)
Lemma validate_command_first_match_witness :
  exists i pattern,
    first_match BLOCKED_COMPILED "rm -rf /" i pattern
    /\ BLOCKED_PATTERNS !! i = Some pattern
    /\ validate_command "rm -rf /" = (false, Some (blocked_reason pattern)).
Proof.
  apply (proj1 (proj2 validate_command_first_match) "rm -rf /").
  eexists. split; [apply list_elem_of_here|]. vm_compute. reflexivity.
Defined.

(** The last redaction rule puts every match back as it found it. *)
Lemma uuid_rule_keeps_text (q : compiled) (text : list ascii) :
  last REDACT_COMPILED = Some q ->
  re_sub (snd q) (Callable uuid_replacement) text = text.
Proof.
  intros H. vm_compute in H. injection H as <-.
  unfold re_sub. apply sub_loop_same.
  intros m Hm. change (length m <= 36) in Hm. unfold uuid_replacement.
  destruct (Nat.leb_spec (length m) 36) as [_|Hgt]; [reflexivity|lia].
Qed.

Lemma sanitize_output_truncation (output : string) (max_length : Z) :
  (0 <= max_length)%Z ->
  sanitize_output output max_length
  = (if (max_length <? Z.of_nat (length (redact (strip_ansi (list_ascii_of_string output)))))%Z
     then string_of_list_ascii
            (take (Z.to_nat max_length) (redact (strip_ansi (list_ascii_of_string output))))
          +:+ truncation_notice (String.length output)
     else string_of_list_ascii (redact (strip_ansi (list_ascii_of_string output))))
  /\ String.length (sanitize_output output max_length)
     <= Z.to_nat max_length + String.length (truncation_notice (String.length output)).
Proof.
  intros Hpos. unfold sanitize_output, slice_to.
  destruct (Z.leb_spec 0 max_length) as [_|Hneg]; [|lia].
  split; [reflexivity|].
  destruct (Z.ltb_spec max_length
              (Z.of_nat (length (redact (strip_ansi (list_ascii_of_string output))))))
    as [Hlt|Hge].
  - rewrite length_append, length_string_of_list_ascii, length_take. lia.
  - rewrite length_string_of_list_ascii. lia.
Qed.

(** C9, as the code has it.  The redaction rules are applied in order after
    the escape sequences are removed; the last rule, for UUIDs, keeps every
    match as it found it, so that a UUID is never replaced by a marker.  For
    a maximal length that is not negative, a result longer than it is cut to
    that length and followed by the notice, which states the length of the
    original input; the output is never longer than the maximal length plus
    the notice.  The input [password=supersecret123] becomes
    [password=<REDACTED>] and the colour codes around [red] are removed; an input of 10000 characters with a maximal
    length of 8000 gives at most 8000 characters plus the notice, the notice
    states 10000, and 10000 letters give 8000 letters and the notice. *)
Theorem sanitize_output_rules :
  (forall q text,
     last REDACT_COMPILED = Some q ->
     re_sub (snd q) (Callable uuid_replacement) text = text)
  /\ (forall output max_length,
        (0 <= max_length)%Z ->
        sanitize_output output max_length
        = (if (max_length
                 <? Z.of_nat (length (redact (strip_ansi (list_ascii_of_string output)))))%Z
           then string_of_list_ascii
                  (take (Z.to_nat max_length)
                        (redact (strip_ansi (list_ascii_of_string output))))
                +:+ truncation_notice (String.length output)
           else string_of_list_ascii (redact (strip_ansi (list_ascii_of_string output))))
        /\ String.length (sanitize_output output max_length)
           <= Z.to_nat max_length + String.length (truncation_notice (String.length output)))
  /\ sanitize_output "password=supersecret123" 8000 = "password=<REDACTED>"
  /\ sanitize_output (String "027" "[31mred" +:+ String "027" "[0m") 8000 = "red"
  /\ (forall output,
        String.length output = 10000 ->
        String.length (sanitize_output output 8000)
        <= 8000 + String.length (truncation_notice 10000))
  /\ truncation_notice 10000
     = String "010" (String "010" "... (output truncated, 10000 total chars)")
  /\ sanitize_output (letters 10000) 8000 = letters 8000 +:+ truncation_notice 10000.
Proof.
  split; [intros q text; apply uuid_rule_keeps_text|].
  split; [apply sanitize_output_truncation|].
  split; [vm_compute; reflexivity|].
  split; [vm_compute; reflexivity|].
  split.
  { intros output Hlen.
    pose proof (sanitize_output_truncation output 8000 ltac:(lia)) as [_ H].
    rewrite Hlen in H. exact H. }
  split; vm_compute; reflexivity.
Qed.

(** The theorem at a short input with a maximal length of 4. *)
Lemma sanitize_output_rules_witness :
  sanitize_output "abcdefghij" 4 = "abcd" +:+ truncation_notice 10
  /\ String.length (sanitize_output "abcdefghij" 4)
     <= 4 + String.length (truncation_notice 10).
Proof.
  destruct (proj1 (proj2 sanitize_output_rules) "abcdefghij" 4%Z ltac:(lia)) as [H1 H2].
  split; [rewrite H1; vm_compute; reflexivity|exact H2].
Defined.

(** C9 as stated fails.  The UUID below matches the last redaction rule and
    comes out unchanged, without a marker; and an input that contains
    [password=supersecret123] after the two characters that open an escape
    sequence loses its [p] to the removal of escape sequences and keeps the
    secret. *)
Lemma sanitize_output_keeps_uuid :
  (exists q, last REDACT_COMPILED = Some q /\ re_search (snd q) false A_UUID = true)
  /\ sanitize_output A_UUID 8000 = A_UUID
  /\ sanitize_output (String "027" "[password=supersecret123") 8000
     = "assword=supersecret123".
Proof.
  split; [eexists; split; [reflexivity|vm_compute; reflexivity]|].
  split; vm_compute; reflexivity.
Qed.

End SafetyFacts.

(** ** skill_router.py *)

Module RouterFacts.
Import Py Models Executor Router.

Lemma handle_confirmation_results confirm_id confirmed r other :
  _confirmation_results (handle_confirmation confirm_id confirmed r) !! other
  = if String.eqb confirm_id other then Some confirmed
    else _confirmation_results r !! other.
Proof.
  unfold handle_confirmation.
  destruct (String.eqb_spec confirm_id other) as [->|Hne];
    destruct (_pending_confirmations r !! _); simpl;
    rewrite ?lookup_insert_eq, ?lookup_insert_ne by exact Hne; reflexivity.
Qed.

Lemma handle_confirmation_pending confirm_id confirmed r other :
  _pending_confirmations (handle_confirmation confirm_id confirmed r) !! other
  = if String.eqb confirm_id other
    then match _pending_confirmations r !! other with
         | Some _ => Some true
         | None => None
         end
    else _pending_confirmations r !! other.
Proof.
  unfold handle_confirmation.
  destruct (String.eqb_spec confirm_id other) as [->|Hne].
  - destruct (_pending_confirmations r !! other) eqn:E; simpl;
      rewrite ?lookup_insert_eq; auto.
  - destruct (_pending_confirmations r !! confirm_id); simpl;
      rewrite ?lookup_insert_ne by exact Hne; reflexivity.
Qed.

(** The event of a pending confirmation after the calls of other tasks: set
    as soon as one of them names it. *)
Lemma handle_all_pending calls r confirm_id b :
  _pending_confirmations r !! confirm_id = Some b ->
  _pending_confirmations (handle_all calls r) !! confirm_id
  = Some (b || existsb (fun c => String.eqb (fst c) confirm_id) calls).
Proof.
  revert r b. induction calls as [|[i v] calls IH]; intros r b H; simpl.
  - now rewrite orb_false_r.
  - unfold handle_all in IH. rewrite (IH _ (b || String.eqb i confirm_id)).
    + now rewrite orb_assoc.
    + rewrite handle_confirmation_pending, H.
      destruct (String.eqb i confirm_id); now rewrite ?orb_true_r, ?orb_false_r.
Qed.

(** The value recorded under an id after the calls of other tasks: that of
    the last call that names it. *)
Lemma handle_all_results calls r confirm_id :
  _confirmation_results (handle_all calls r) !! confirm_id
  = match last_answer confirm_id calls with
    | Some v => Some v
    | None => _confirmation_results r !! confirm_id
    end.
Proof.
  revert r. induction calls as [|[i v] calls IH]; intros r; simpl; [reflexivity|].
  unfold handle_all in IH. rewrite IH.
  destruct (last_answer confirm_id calls); [reflexivity|].
  rewrite handle_confirmation_results.
  destruct (String.eqb i confirm_id); reflexivity.
Qed.

Lemma last_answer_named confirm_id calls v :
  last_answer confirm_id calls = Some v ->
  existsb (fun c => String.eqb (fst c) confirm_id) calls = true.
Proof.
  revert v. induction calls as [|c calls IH]; intros v; simpl; [discriminate|].
  destruct (last_answer confirm_id calls) as [b|].
  - intros _. rewrite (IH b eq_refl). apply orb_true_r.
  - destruct (String.eqb (fst c) confirm_id); [reflexivity|discriminate].
Qed.

Lemma nobody_named confirm_id (calls : list (string * bool)) :
  Forall (fun c => fst c <> confirm_id) calls ->
  existsb (fun c => String.eqb (fst c) confirm_id) calls = false.
Proof.
  induction 1 as [|c calls Hc _ IH]; simpl; [reflexivity|].
  rewrite IH. destruct (String.eqb_spec (fst c) confirm_id); [contradiction|reflexivity].
Qed.




Section Execute.
Context {W : Type}.
Variable env : environment W.

Lemma bash_in_map : EXECUTOR_MAP !! BASH = Some shell_executor.
Proof. reflexivity. Qed.


(** C7.  When a tool invocation needs a confirmation, the router sends the
    confirmation frame and waits at most 60 seconds.  If no other task
    resolves the confirmation, the wait times out: exactly one skill_result
    frame is sent, with success false and the text of the timeout, and the
    result is the cancellation text.  If the last answer given is a denial,
    the result is the cancellation text as well.  In both cases the pending
    entry and the recorded value are removed and the trace has no call of
    an executor. *)
Theorem execute_unconfirmed (w : W) (r : router) (func_name : string)
    (params : gmap string value) (config_id : string) (write_enabled : bool)
    (reason : option string) (confirm_id : string) (w1 : W)
    (calls : list (string * bool)) (w2 : W) :
  confirmation_need r func_name params = Returned (true, reason) ->
  uuid8 env w = (confirm_id, w1) ->
  other_tasks env w1 = (calls, w2) ->
  exists r',
    _pending_confirmations r' !! confirm_id = None
    /\ _confirmation_results r' !! confirm_id = None
    /\ (Forall (fun c => fst c <> confirm_id) calls ->
        execute env w r func_name (ArgsObject params) config_id write_enabled
        = (Returned CANCELLED, r',
           [Send (WSConfirmFrame confirm_id (fst (split_name func_name))
                    (snd (split_name func_name))
                    (description_of reason (fst (split_name func_name))
                                    (snd (split_name func_name))) params);
            WaitFor 60 true;
            Send (WSSkillResultFrame (fst (split_name func_name))
                    (snd (split_name func_name)) false
                    "Confirmation timed out (60s)" None)], w2))
    /\ (last_answer confirm_id calls = Some false ->
        execute env w r func_name (ArgsObject params) config_id write_enabled
        = (Returned CANCELLED, r',
           [Send (WSConfirmFrame confirm_id (fst (split_name func_name))
                    (snd (split_name func_name))
                    (description_of reason (fst (split_name func_name))
                                    (snd (split_name func_name))) params);
            WaitFor 60 false], w2)).
Proof.
  intros Hneed Hid Hcalls.
  set (r1 := {| skills := skills r;
                _pending_confirmations := <[confirm_id := false]> (_pending_confirmations r);
                _confirmation_results := _confirmation_results r |}).
  assert (Hp : _pending_confirmations r1 !! confirm_id = Some false)
    by apply lookup_insert_eq.
  exists {| skills := skills (handle_all calls r1);
                _pending_confirmations :=
                  delete confirm_id (_pending_confirmations (handle_all calls r1));
                _confirmation_results :=
                  delete confirm_id (_confirmation_results (handle_all calls r1)) |}.
  split; [apply lookup_delete_eq|]. split; [apply lookup_delete_eq|].
  split.
  - intros Hnone. unfold execute.
    destruct (split_name func_name) as [skill_name act] eqn:Hn.
    rewrite Hneed. unfold confirm. rewrite Hid, Hcalls. fold r1.
    rewrite (handle_all_pending _ _ _ _ Hp), (nobody_named _ _ Hnone). simpl.
    reflexivity.
  - intros Hlast. unfold execute.
    destruct (split_name func_name) as [skill_name act] eqn:Hn.
    rewrite Hneed. unfold confirm. rewrite Hid, Hcalls. fold r1.
    rewrite (handle_all_pending _ _ _ _ Hp), (last_answer_named _ _ _ Hlast).
    rewrite handle_all_results, Hlast. simpl. reflexivity.
Qed.

(** C10.  For a tool name that the dispatch map does not have and that
    needs no confirmation, [execute] returns: it sends the skill_start
    frame, then a skill_result frame with success false, and its result is
    the text [Unknown skill action: ] followed by the tool name. *)
Theorem execute_unknown_skill (w : W) (r : router) (func_name : string)
    (params : gmap string value) (config_id : string) (write_enabled : bool) :
  EXECUTOR_MAP !! func_name = None ->
  get_confirmation_required (skills r) func_name = false ->
  exists duration_ms w',
    elapsed_ms env w = (duration_ms, w')
    /\ execute env w r func_name (ArgsObject params) config_id write_enabled
       = (Returned ("Unknown skill action: " +:+ func_name), r,
          [Send (WSSkillStartFrame (fst (split_name func_name))
                   (snd (split_name func_name)) params);
           Send (WSSkillResultFrame (fst (split_name func_name))
                   (snd (split_name func_name)) false
                   (prefix 500 ("Unknown skill action: " +:+ func_name))
                   (Some duration_ms));
           Audit {| audit_colonel_id := config_id;
                    audit_skill_name := fst (split_name func_name);
                    audit_action_name := snd (split_name func_name);
                    audit_parameters := params;
                    audit_result_summary :=
                      prefix 500 ("Unknown skill action: " +:+ func_name);
                    audit_success := false;
                    audit_duration_ms := duration_ms |}], w').
Proof.
  intros Hmap Hconf.
  destruct (elapsed_ms env w) as [duration_ms w'] eqn:Hd.
  exists duration_ms, w'. split; [reflexivity|].
  unfold execute, confirmation_need.
  destruct (split_name func_name) as [skill_name act] eqn:Hn.
  destruct (String.eqb_spec func_name BASH) as [->|_].
  { rewrite bash_in_map in Hmap. discriminate. }
  rewrite Hconf. unfold dispatch. rewrite Hmap, Hd. reflexivity.
Qed.


End Execute.

(** The theorem at [docker stop x], which asks for a confirmation that nobody
    gives. *)
Lemma execute_unconfirmed_witness :
  exists r',
    execute (Stub.env (fun _ => Stub.PLAIN) []) 0 Stub.EMPTY_ROUTER BASH
            (ArgsObject Stub.STOP_PARAMS) "default" false
    = (Returned CANCELLED, r',
       [Send (WSConfirmFrame "u0" "bash-execution" "run_command"
                "This will affect a running container" Stub.STOP_PARAMS);
        WaitFor 60 true;
        Send (WSSkillResultFrame "bash-execution" "run_command" false
                "Confirmation timed out (60s)" None)], 1).
Proof.
  destruct (execute_unconfirmed (Stub.env (fun _ => Stub.PLAIN) []) 0 Stub.EMPTY_ROUTER
              BASH Stub.STOP_PARAMS "default" false
              (Some "This will affect a running container") "u0" 1 [] 1
              ltac:(vm_compute; reflexivity) ltac:(reflexivity) ltac:(reflexivity))
    as (r' & _ & _ & Htimeout & _).
  exists r'. apply Htimeout. constructor.
Defined.

(** The theorem at a tool name that the dispatch map does not have. *)
Lemma execute_unknown_skill_witness :
  exists duration_ms w',
    elapsed_ms (Stub.env (fun _ => Stub.PLAIN) []) 0 = (duration_ms, w')
    /\ execute (Stub.env (fun _ => Stub.PLAIN) []) 0 Stub.EMPTY_ROUTER "nope__x"
               (ArgsObject ∅) "default" false
       = (Returned ("Unknown skill action: " +:+ "nope__x"), Stub.EMPTY_ROUTER,
          [Send (WSSkillStartFrame (fst (split_name "nope__x"))
                   (snd (split_name "nope__x")) ∅);
           Send (WSSkillResultFrame (fst (split_name "nope__x"))
                   (snd (split_name "nope__x")) false
                   (prefix 500 ("Unknown skill action: " +:+ "nope__x"))
                   (Some duration_ms));
           Audit {| audit_colonel_id := "default";
                    audit_skill_name := fst (split_name "nope__x");
                    audit_action_name := snd (split_name "nope__x");
                    audit_parameters := ∅;
                    audit_result_summary :=
                      prefix 500 ("Unknown skill action: " +:+ "nope__x");
                    audit_success := false;
                    audit_duration_ms := duration_ms |}], w').
Proof.
  apply (execute_unknown_skill (Stub.env (fun _ => Stub.PLAIN) []) 0 Stub.EMPTY_ROUTER
           "nope__x" ∅ "default" false); reflexivity.
Defined.



End RouterFacts.

(** ** websocket_gateway.py *)

Module GatewayFacts.
Import Py Models Executor Router Gateway.




(** C1.  A chat message with some content is added to the session and
    saved; then the receive loop fails on the name [write_enabled] before it
    calls [_stream_response]: the completion service is not asked, no chunk
    and no message_done frame is sent, the session has grown by the user's
    message only, and the connection handler ends with an error frame. *)
Theorem chat_message_raises_name_error (msg : gmap string value) (kind text : string)
    (rest : list inbound) (r : option router) (s : ColonelSession) :
  default (VStr "message") (msg !! "type") = VStr kind ->
  kind = "message" \/ kind = "chat" ->
  msg !! "content" = Some (VStr text) ->
  strip text <> "" ->
  exists s',
    messages s' = messages s ++ [plain user (strip text)]
    /\ _message_loop (Object msg :: rest) r s
       = (Exception "name 'write_enabled' is not defined", r, s', [Save s'])
    /\ handle_websocket (Object msg :: rest) r s
       = (r, s', [Save s'; Send (WSErrorFrame "name 'write_enabled' is not defined" None)]).
Proof.
  intros Hty Hkind Hcontent Htext.
  assert (Hloop : exists s',
    messages s' = messages s ++ [plain user (strip text)]
    /\ _message_loop (Object msg :: rest) r s
       = (Exception "name 'write_enabled' is not defined", r, s', [Save s'])).
  { cbn [_message_loop]. rewrite Hty, Hcontent.
    destruct Hkind as [-> | ->];
      cbn [default from_option id equals String.eqb Ascii.eqb Bool.eqb orb];
      (destruct (String.eqb_spec (strip text) ""); [contradiction|]);
      (eexists; split; [|reflexivity]);
      destruct (Nat.eqb _ 1); reflexivity. }
  destruct Hloop as (s' & Hm & Hloop). exists s'. split; [exact Hm|].
  split; [exact Hloop|]. unfold handle_websocket. rewrite Hloop. reflexivity.
Qed.

(** The theorem at the input of the scenario. *)
Lemma chat_message_raises_name_error_witness :
  exists s',
    messages s' = messages Stub.NEW_SESSION ++ [plain user (strip "list containers")]
    /\ _message_loop [Stub.chat "list containers"] (Some Stub.EMPTY_ROUTER) Stub.NEW_SESSION
       = (Exception "name 'write_enabled' is not defined", Some Stub.EMPTY_ROUTER, s',
          [Save s'])
    /\ handle_websocket [Stub.chat "list containers"] (Some Stub.EMPTY_ROUTER)
                        Stub.NEW_SESSION
       = (Some Stub.EMPTY_ROUTER, s',
          [Save s'; Send (WSErrorFrame "name 'write_enabled' is not defined" None)]).
Proof.
  apply (chat_message_raises_name_error (Stub.chat_fields "list containers") "chat"
           "list containers" [] (Some Stub.EMPTY_ROUTER) Stub.NEW_SESSION).
  - reflexivity.
  - right. reflexivity.
  - reflexivity.
  - vm_compute. discriminate.
Defined.

(** The scenario in full: what the connection handler leaves behind. *)
Example chat_scenario :
  handle_websocket [Stub.chat "list containers"] (Some Stub.EMPTY_ROUTER) Stub.NEW_SESSION
  = (Some Stub.EMPTY_ROUTER,
     {| session_id := "s"; messages := [plain user "list containers"];
        title := Some "list containers" |},
     [Save {| session_id := "s"; messages := [plain user "list containers"];
              title := Some "list containers" |};
      Send (WSErrorFrame "name 'write_enabled' is not defined" None)]).
Proof. vm_compute. reflexivity. Qed.

(** A completion that streams the content [hi] and one tool call whose
    arguments are not JSON: two message_done frames reach the client. *)
Example malformed_tool_calls_frames :
  frames (sent (snd (_stream_response (Stub.env (fun _ => Stub.MALFORMED) []) 0
                       (Some Stub.EMPTY_ROUTER) Stub.ASKED_SESSION
                       "prompt" "default" false)))
  = [WSChunkFrame "hi"; WSMessageDoneFrame "u0" "hi"; WSMessageDoneFrame "u1" "hi"].
Proof. vm_compute. reflexivity. Qed.

(** Called by itself, [_stream_response] does what the scenario of C1
    describes: one chunk, one message_done with the content, and the
    assistant's message added to the session. *)
Example stream_response_plain_content :
  let st := snd (_stream_response (Stub.env (fun _ => Stub.PLAIN) []) 0
                   (Some Stub.EMPTY_ROUTER) Stub.ASKED_SESSION "prompt" "default" false) in
  frames (sent st) = [WSChunkFrame "no tools"; WSMessageDoneFrame "u0" "no tools"]
  /\ messages (session st)
     = messages Stub.ASKED_SESSION ++ [plain assistant "no tools"].
Proof. split; vm_compute; reflexivity. Qed.

Lemma count_app p (a b : trace) : count p (a ++ b) = count p a + count p b.
Proof. induction a as [|e a IH]; simpl; [reflexivity|]. rewrite IH. lia. Qed.

Section Turn.
Context {W : Type}.
Variable env : environment W.

Lemma confirm_counts (w : W) r skill_name act reason params :
  exists c r1 t1 w1,
    confirm env w r skill_name act reason params = (c, r1, t1, w1)
    /\ count is_message_done t1 = 0 /\ count is_llm_request t1 = 0.
Proof.
  unfold confirm.
  destruct (uuid8 env w) as [confirm_id w1].
  destruct (other_tasks env w1) as [calls w2].
  destruct (_pending_confirmations _ !! confirm_id) as [[|]|];
    do 4 eexists; (split; [reflexivity|]); split; reflexivity.
Qed.

Lemma dispatch_counts (w : W) func_name skill_name act params config_id write_enabled :
  exists result t w',
    dispatch env w func_name skill_name act params config_id write_enabled
    = (result, t, w')
    /\ count is_message_done t = 0 /\ count is_llm_request t = 0.
Proof.
  unfold dispatch.
  destruct (EXECUTOR_MAP !! func_name) as [[|]|].
  - unfold run, run_command.
    destruct (_ !! "command") as [[command| | | |]|];
      try (destruct (elapsed_ms env w) as [d w'];
           do 3 eexists; (split; [reflexivity|]); split; reflexivity).
    unfold bash_execute.
    destruct (Safety.validate_command command) as [[|] reason].
    + destruct (shell env w command _) as [p w1].
      destruct (elapsed_ms env w1) as [d w'].
      do 3 eexists; (split; [reflexivity|]); split; reflexivity.
    + destruct (elapsed_ms env w) as [d w'].
      do 3 eexists; (split; [reflexivity|]); split; reflexivity.
  - unfold run.
    destruct (external env w func_name _) as [[result|e] w1];
      destruct (elapsed_ms env w1) as [d w'];
      do 3 eexists; (split; [reflexivity|]); split; reflexivity.
  - destruct (elapsed_ms env w) as [d w'].
    do 3 eexists; (split; [reflexivity|]); split; reflexivity.
Qed.

(** A call that can be run returns, and sends neither a message_done frame
    nor a request to the completion service. *)
Lemma execute_counts (w : W) r tc func_name args config_id write_enabled :
  well_typed (tc, func_name, args) = true ->
  exists result r' t w',
    execute env w r func_name args config_id write_enabled = (Returned result, r', t, w')
    /\ count is_message_done t = 0 /\ count is_llm_request t = 0.
Proof.
  unfold well_typed. simpl. intros H.
  destruct args as [params|v]; [|discriminate].
  unfold execute. destruct (split_name func_name) as [skill_name act].
  assert (Hneed : exists need reason,
            confirmation_need r func_name params = Returned (need, reason)).
  { unfold confirmation_need. destruct (String.eqb func_name BASH); [|eauto].
    destruct (params !! "command") as [[command| | | |]|]; try discriminate; [|eauto].
    destruct (Safety.requires_confirmation command) as [why|]; [|eauto].
    destruct (String.eqb why ""); eauto. }
  destruct Hneed as (need & reason & ->).
  destruct need.
  - destruct (confirm_counts w r skill_name act reason params)
      as (c & r1 & t1 & w1 & -> & Hd1 & Hl1).
    destruct c.
    + destruct (dispatch_counts w1 func_name skill_name act params config_id write_enabled)
        as (result & t2 & w2 & -> & Hd2 & Hl2).
      do 4 eexists. split; [reflexivity|]. rewrite !count_app. lia.
    + do 4 eexists. split; [reflexivity|]. auto.
  - destruct (dispatch_counts w func_name skill_name act params config_id write_enabled)
      as (result & t2 & w2 & -> & Hd2 & Hl2).
    do 4 eexists. split; [reflexivity|]. auto.
Qed.

Lemma run_tools_counts config_id write_enabled calls :
  forallb well_typed calls = true ->
  forall r st,
  exists st',
    run_tools env config_id write_enabled calls r st = (Returned (), st')
    /\ is_Some (skill_router st')
    /\ done_sent st' = done_sent st
    /\ all_content_parts st' = all_content_parts st
    /\ count is_message_done (sent st') = count is_message_done (sent st)
    /\ count is_llm_request (sent st') = count is_llm_request (sent st).
Proof.
  induction calls as [|[[tc func_name] args] calls IH]; intros Hwt r st.
  - eexists. split; [reflexivity|]. cbn. eauto 10.
  - cbn [forallb] in Hwt. apply andb_true_iff in Hwt as [Hc Hrest].
    cbn [run_tools].
    destruct (execute_counts (world st) r tc func_name args config_id write_enabled Hc)
      as (result & r' & t & w' & -> & Hd & Hl).
    edestruct (IH Hrest r') as (st' & -> & Hr & Hds & Hparts & Hdone & Hllm).
    exists st'. split; [reflexivity|].
    cbn in Hds, Hparts, Hdone, Hllm. rewrite count_app in Hdone, Hllm.
    repeat split; auto; lia.
Qed.

Lemma read_stream_counts lines :
  forall text current,
    count is_message_done (snd (read_stream lines text current)) = 0
    /\ count is_llm_request (snd (read_stream lines text current)) = 0.
Proof.
  induction lines as [|line lines IH]; intros text current; [split; reflexivity|].
  destruct line as [| | |message| |chunk deltas| |e]; cbn [read_stream];
    try apply IH; try (split; reflexivity).
  destruct (String.eqb chunk ""); [apply IH|].
  specialize (IH (text +:+ chunk)
                 (fold_left (fun acc d => accumulate d acc) deltas current)).
  destruct (read_stream lines _ _) as [[c tcs] t]. exact IH.
Qed.

Lemma call_llm_stream_counts (w : W) request text tcs t w' :
  _call_llm_stream env w request = (text, tcs, t, w') ->
  count is_message_done t = 0 /\ count is_llm_request t = 1.
Proof.
  unfold _call_llm_stream.
  destruct (completion env w request) as [[status body|lines] w1].
  - intros [= <- <- <- <-]. split; reflexivity.
  - pose proof (read_stream_counts lines "" []) as [Hd Hl].
    destruct (read_stream lines "" []) as [[c tcs'] t'].
    intros [= <- <- <- <-]. cbn in *. rewrite Hd, Hl. split; reflexivity.
Qed.

(** C2 where it fails.  When the completion streams some content and tool
    calls of which none passes the filter, the branch for malformed tool
    calls sends message_done without setting [done_sent], and the safety net
    sends it again: two message_done frames in one turn. *)
Theorem malformed_tool_calls_two_done_frames (w : W) (r : router) (s : ColonelSession)
    (system_prompt config_id : string) (write_enabled : bool)
    (text : string) (tcs : list ToolCall) (t : trace) (w1 : W) :
  _call_llm_stream env w
    (plain system system_prompt :: fst (to_llm_messages ∅ (last_n 20 (messages s))))
  = (text, Some tcs, t, w1) ->
  text <> "" ->
  tcs <> [] ->
  omap (valid_tool_call env) tcs = [] ->
  exists st,
    _stream_response env w (Some r) s system_prompt config_id write_enabled
    = (Returned (), st)
    /\ count is_message_done (sent st) = 2.
Proof.
  intros Hcall Htext Htcs Hvalid. unfold _stream_response.
  destruct (to_llm_messages ∅ (last_n 20 (messages s))) as [history remap].
  cbn [fst] in Hcall.
  destruct (call_llm_stream_counts _ _ _ _ _ _ Hcall) as [Hd _].
  destruct tcs as [|tc tcs]; [contradiction|].
  destruct (String.eqb_spec text "") as [|_]; [contradiction|].
  change (max_tool_rounds + 1) with 6. cbn [rounds]. unfold round.
  cbn [world llm_messages]. rewrite Hcall. cbn [skill_router]. rewrite Hvalid.
  destruct (String.eqb_spec text "") as [|_]; [contradiction|].
  unfold finish_message. cbn [world]. destruct (uuid8 env w1) as [msg_id w2].
  unfold save, emit, safety_net. cbn [done_sent all_content_parts app join_parts fold_left].
  destruct (String.eqb_spec text "") as [|_]; [contradiction|].
  cbn [world]. destruct (uuid8 env w2) as [msg_id' w3].
  destruct (match last _ with Some _ => _ | None => _ end);
    (eexists; split; [reflexivity|]); cbn; rewrite !count_app, Hd; reflexivity.
Qed.

(** Against a service that always calls tools, a round goes on to the next
    one: one more request, no message_done frame. *)
Lemma round_continues config_id write_enabled (st : turn) :
  always_calls_tools env ->
  is_Some (skill_router st) ->
  exists st',
    round env config_id write_enabled st = (Continue, st')
    /\ is_Some (skill_router st')
    /\ done_sent st' = done_sent st
    /\ count is_message_done (sent st') = count is_message_done (sent st)
    /\ count is_llm_request (sent st') = S (count is_llm_request (sent st)).
Proof.
  intros Hllm [r Hr]. unfold round.
  destruct (Hllm (world st) (llm_messages st)) as (text & tcs & t & w' & Hcall & Hne & Hwt).
  rewrite Hcall.
  destruct (call_llm_stream_counts _ _ _ _ _ _ Hcall) as [Hd Hl].
  destruct tcs as [|tc tcs]; [contradiction|].
  cbn [skill_router]. rewrite Hr.
  destruct (omap (valid_tool_call env) (tc :: tcs)) as [|call calls] eqn:Hvalid;
    [contradiction|].
  destruct (normalize_calls _ (tc :: tcs)) as [normalized remap'].
  edestruct (run_tools_counts config_id write_enabled (call :: calls) Hwt r)
    as (st3 & -> & Hr3 & Hds & _ & Hdone & Hreq).
  eexists. split; [reflexivity|].
  cbn in Hds, Hdone, Hreq |- *. rewrite !count_app in *. cbn.
  repeat split; auto; lia.
Qed.

Lemma rounds_exhausted config_id write_enabled n :
  always_calls_tools env ->
  forall st,
  is_Some (skill_router st) ->
  exists st',
    rounds env n config_id write_enabled st = (Returned (), st')
    /\ done_sent st' = done_sent st
    /\ count is_message_done (sent st') = count is_message_done (sent st)
    /\ count is_llm_request (sent st') = n + count is_llm_request (sent st).
Proof.
  intros Hllm. induction n as [|n IH]; intros st Hr.
  - exists st. repeat split; reflexivity.
  - cbn [rounds].
    destruct (round_continues config_id write_enabled st Hllm Hr)
      as (st1 & -> & Hr1 & Hds1 & Hd1 & Hl1).
    destruct (IH st1 Hr1) as (st' & -> & Hds & Hd & Hl).
    exists st'. repeat split; auto; try congruence. lia.
Qed.

(** The safety net, when no message_done frame has been sent, sends one. *)
Lemma safety_net_counts (st : turn) :
  done_sent st = false ->
  count is_message_done (sent (safety_net env st)) = S (count is_message_done (sent st))
  /\ count is_llm_request (sent (safety_net env st)) = count is_llm_request (sent st).
Proof.
  intros H. unfold safety_net. rewrite H.
  destruct (String.eqb (join_parts (all_content_parts st)) "");
    destruct (uuid8 env (world st)) as [msg_id w'].
  - cbn. rewrite !count_app. cbn. lia.
  - destruct (match last (messages (session st)) with Some _ => _ | None => _ end);
      cbn; rewrite !count_app; cbn; lia.
Qed.

(** C4, as the code has it.  Against a completion service that answers
    every request with a tool call, the round loop asks the service once
    more than [max_tool_rounds] times, 6 times for the limit of 5, and then
    ends the turn; exactly one message_done frame is sent, by the safety
    net. *)
Theorem stream_response_round_bound (w : W) (r : router) (s : ColonelSession)
    (system_prompt config_id : string) (write_enabled : bool) :
  always_calls_tools env ->
  exists st,
    _stream_response env w (Some r) s system_prompt config_id write_enabled
    = (Returned (), st)
    /\ count is_llm_request (sent st) = max_tool_rounds + 1
    /\ max_tool_rounds + 1 = 6
    /\ count is_message_done (sent st) = 1.
Proof.
  intros Hllm. unfold _stream_response.
  destruct (to_llm_messages ∅ (last_n 20 (messages s))) as [history remap].
  edestruct (rounds_exhausted config_id write_enabled (max_tool_rounds + 1) Hllm)
    as (st & -> & Hds & Hd & Hl); [cbn; eauto|].
  cbn in Hds, Hd, Hl.
  destruct (safety_net_counts st Hds) as [Hd' Hl'].
  eexists. split; [reflexivity|]. rewrite Hd', Hl', Hd, Hl. repeat split; lia.
Qed.
End Turn.

(** The theorem at that completion, for the environment of the examples. *)
Lemma malformed_tool_calls_two_done_frames_witness :
  exists st,
    _stream_response (Stub.env (fun _ => Stub.MALFORMED) []) 0 (Some Stub.EMPTY_ROUTER)
                     Stub.ASKED_SESSION "prompt" "default" false
    = (Returned (), st)
    /\ count is_message_done (sent st) = 2.
Proof.
  apply (malformed_tool_calls_two_done_frames (Stub.env (fun _ => Stub.MALFORMED) []) 0
           Stub.EMPTY_ROUTER Stub.ASKED_SESSION "prompt" "default" false
           "hi" [{| tc_id := "call_1"; tc_name := "system-status__cpu";
                    tc_arguments := "{bad" |}]
           [LlmRequest [plain system "prompt"; plain user "list containers"];
            Send (WSChunkFrame "hi")] 0).
  - vm_compute. reflexivity.
  - discriminate.
  - discriminate.
  - vm_compute. reflexivity.
Defined.

(** The theorem at the environment of the examples, with the service that
    always answers with the same tool call. *)
Lemma stream_response_round_bound_witness :
  exists st,
    _stream_response (Stub.env (fun _ => Stub.TOOL_CALL) []) 0 (Some Stub.EMPTY_ROUTER)
                     Stub.ASKED_SESSION "prompt" "default" false
    = (Returned (), st)
    /\ count is_llm_request (sent st) = max_tool_rounds + 1
    /\ max_tool_rounds + 1 = 6
    /\ count is_message_done (sent st) = 1.
Proof.
  apply (stream_response_round_bound (Stub.env (fun _ => Stub.TOOL_CALL) []) 0
           Stub.EMPTY_ROUTER Stub.ASKED_SESSION "prompt" "default" false).
  intros w request. do 4 eexists. split; [reflexivity|].
  split; [vm_compute; discriminate|vm_compute; reflexivity].
Defined.

(** C4 as stated fails: against the service that always answers with a tool
    call, the loop makes 6 requests and runs the tool 6 times, not 5. *)
Lemma always_tool_call_six_rounds :
  let t := sent (snd (_stream_response (Stub.env (fun _ => Stub.TOOL_CALL) []) 0
                        (Some Stub.EMPTY_ROUTER) Stub.ASKED_SESSION
                        "prompt" "default" false)) in
  count is_llm_request t = 6 /\ count is_call t = 6 /\ count is_message_done t = 1.
Proof. vm_compute. repeat split. Qed.

End GatewayFacts.

(** ** Whole turns, whatever the service and the tools do *)

Module TurnFacts.
Import Py Models Executor Router Gateway GatewayFacts Views Examples.

Section AnyTurn.
Context {W : Type}.
Variable env : environment W.

(** Whatever its arguments and its outcome, [execute] sends no message_done
    frame and asks nothing of the completion service. *)
Lemma execute_any_counts (w : W) r func_name args config_id write_enabled :
  count is_message_done
    (trace_of (execute env w r func_name args config_id write_enabled)) = 0
  /\ count is_llm_request
       (trace_of (execute env w r func_name args config_id write_enabled)) = 0.
Proof.
  unfold execute. destruct args as [params|v]; [|split; reflexivity].
  destruct (split_name func_name) as [skill_name act].
  destruct (confirmation_need r func_name params) as [[[|] reason]|e];
    [| |split; reflexivity].
  - destruct (confirm_counts env w r skill_name act reason params)
      as (c & r1 & t1 & w1 & -> & Hd1 & Hl1).
    destruct c; [|split; assumption].
    destruct (dispatch_counts env w1 func_name skill_name act params config_id write_enabled)
      as (result & t2 & w2 & -> & Hd2 & Hl2).
    unfold trace_of. cbn [fst snd]. rewrite !count_app, Hd1, Hl1, Hd2, Hl2. split; reflexivity.
  - destruct (dispatch_counts env w func_name skill_name act params config_id write_enabled)
      as (result & t2 & w2 & -> & Hd2 & Hl2).
    split; assumption.
Qed.

(** The tools of a round: nothing but tool messages is added to the
    session, and no message_done frame is sent. *)
Lemma run_tools_any config_id write_enabled calls :
  forall r st,
    done_sent (snd (run_tools env config_id write_enabled calls r st)) = done_sent st
    /\ all_content_parts (snd (run_tools env config_id write_enabled calls r st))
       = all_content_parts st
    /\ count is_message_done (sent (snd (run_tools env config_id write_enabled calls r st)))
       = count is_message_done (sent st)
    /\ count is_llm_request (sent (snd (run_tools env config_id write_enabled calls r st)))
       = count is_llm_request (sent st)
    /\ (exists added, messages (session (snd (run_tools env config_id write_enabled calls r st)))
                      = messages (session st) ++ added
                      /\ Forall (fun m => msg_role m = tool) added)
    /\ (exists t, sent (snd (run_tools env config_id write_enabled calls r st)) = sent st ++ t).
Proof.
  induction calls as [|[[tc func_name] args] calls IH]; intros r st.
  - cbn. repeat split; try reflexivity.
    + exists []. rewrite app_nil_r. split; [reflexivity|constructor].
    + exists []. now rewrite app_nil_r.
  - cbn [run_tools].
    pose proof (execute_any_counts (world st) r func_name args config_id write_enabled)
      as [Hd Hl].
    destruct (execute env (world st) r func_name args config_id write_enabled)
      as [[[res r'] t] w'].
    unfold trace_of in Hd, Hl. cbn [fst snd] in Hd, Hl.
    destruct res as [result|e].
    + match goal with |- context [run_tools _ _ _ _ r' ?s] =>
        destruct (IH r' s) as (H1 & H2 & H3 & H4 & (added & H5 & H6) & (t' & H7)) end.
      cbn in H1, H2, H3, H4, H5, H7.
      rewrite H1, H2, H3, H4, H5, H7, !count_app, Hd, Hl.
      repeat split; try lia.
      * eexists (_ :: added). rewrite <- app_assoc. split; [reflexivity|].
        constructor; [reflexivity|exact H6].
      * exists (t ++ t'). now rewrite app_assoc.
    + cbn. rewrite !count_app, Hd, Hl. repeat split; try lia.
      * exists []. rewrite app_nil_r. split; [reflexivity|constructor].
      * eauto.
Qed.

Lemma call_llm_stream_shape (w : W) request :
  exists t0,
    snd (fst (_call_llm_stream env w request)) = LlmRequest request :: t0
    /\ count is_message_done t0 = 0 /\ count is_llm_request t0 = 0.
Proof.
  unfold _call_llm_stream.
  destruct (completion env w request) as [[status body|lines] w1].
  - eexists. split; [reflexivity|]. split; reflexivity.
  - pose proof (read_stream_counts lines "" []) as [Hd Hl].
    destruct (read_stream lines "" []) as [[c tcs'] t'].
    exists t'. split; [reflexivity|]. split; assumption.
Qed.

(** One round of the loop, whatever the completion service and the tools
    do. *)
Lemma round_any config_id write_enabled (st : turn) :
  done_sent st = false ->
  (exists t, sent (snd (round env config_id write_enabled st))
             = sent st ++ LlmRequest (llm_messages st) :: t)
  /\ count is_llm_request (sent (snd (round env config_id write_enabled st)))
     = S (count is_llm_request (sent st))
  /\ (exists added, messages (session (snd (round env config_id write_enabled st)))
                    = messages (session st) ++ added)
  /\ match fst (round env config_id write_enabled st) with
     | Continue =>
         done_sent (snd (round env config_id write_enabled st)) = false
         /\ count is_message_done (sent (snd (round env config_id write_enabled st)))
            = count is_message_done (sent st)
     | Break =>
         (done_sent (snd (round env config_id write_enabled st)) = true
          /\ count is_message_done (sent (snd (round env config_id write_enabled st)))
             = S (count is_message_done (sent st)))
         \/ (done_sent (snd (round env config_id write_enabled st)) = false
             /\ count is_message_done (sent st)
                <= count is_message_done (sent (snd (round env config_id write_enabled st)))
                <= S (count is_message_done (sent st)))
     | Abort _ =>
         count is_message_done (sent (snd (round env config_id write_enabled st)))
         = count is_message_done (sent st)
     end.
Proof.
  intros Hds. unfold round.
  destruct (call_llm_stream_shape (world st) (llm_messages st)) as (t0 & Ht & Hd0 & Hl0).
  destruct (_call_llm_stream env (world st) (llm_messages st)) as [[[text tcs] t] w'].
  cbn [fst snd] in Ht. subst t.
  assert (Hplain :
    forall st1 : turn,
      sent st1 = sent st ++ LlmRequest (llm_messages st) :: t0 ->
      session st1 = session st -> done_sent st1 = false ->
      forall mark,
      let res := if String.eqb text "" then save st1
                 else save (finish_message env st1 text mark) in
      (exists t, sent res = sent st ++ LlmRequest (llm_messages st) :: t)
      /\ count is_llm_request (sent res) = S (count is_llm_request (sent st))
      /\ (exists added, messages (session res) = messages (session st) ++ added)
      /\ ((done_sent res = true
           /\ count is_message_done (sent res) = S (count is_message_done (sent st)))
          \/ (done_sent res = false
              /\ count is_message_done (sent st) <= count is_message_done (sent res)
                 <= S (count is_message_done (sent st))))).
  { intros st1 Hs Hsess Hd1 mark. destruct (String.eqb text "").
    - cbn. rewrite Hs, Hsess, Hd1, <- ?app_assoc, ?count_app. cbn.
      rewrite ?count_app, ?Hd0, ?Hl0. cbn.
      repeat split; eauto; [lia|exists []; now rewrite app_nil_r|right; lia].
    - unfold finish_message. destruct (uuid8 env (world st1)) as [msg_id w2].
      cbn. rewrite Hs, Hsess, Hd1, <- ?app_assoc, ?count_app. cbn.
      rewrite ?count_app, ?Hd0, ?Hl0. cbn.
      repeat split; eauto; [lia|].
      destruct mark; [left|right]; split; auto; lia. }
  destruct tcs as [[|tc tcs]|].
  - match goal with |- context [if String.eqb text "" then (Break, save ?s) else _] =>
      specialize (Hplain s eq_refl eq_refl Hds true) end.
    cbn zeta in Hplain. destruct (String.eqb text ""); exact Hplain.
  - cbn [skill_router]. destruct (skill_router st) as [r|].
    + destruct (omap (valid_tool_call env) (tc :: tcs)) as [|call calls].
      * match goal with |- context [if String.eqb text "" then (Break, save ?s) else _] =>
          specialize (Hplain s eq_refl eq_refl Hds false) end.
        cbn zeta in Hplain. destruct (String.eqb text ""); exact Hplain.
      * destruct (normalize_calls _ (tc :: tcs)) as [normalized remap'].
        match goal with |- context [run_tools env _ _ ?c r ?s] =>
          pose proof (run_tools_any config_id write_enabled c r s)
            as (H1 & H2 & H3 & H4 & (added & H5 & _) & (t' & H7));
          destruct (run_tools env config_id write_enabled c r s) as [[[]|e] st3]
        end; cbn [fst snd] in *; cbn in H1, H3, H4, H5, H7.
        -- cbn. rewrite ?count_app. cbn.
           rewrite ?H1, ?H3, ?H4, ?H5, ?H7, ?Hds, <- ?app_assoc, ?count_app. cbn.
           rewrite ?count_app, ?Hd0, ?Hl0. cbn.
           repeat split; eauto; lia.
        -- cbn. rewrite ?count_app. cbn.
           rewrite ?H3, ?H4, ?H5, ?H7, <- ?app_assoc, ?count_app. cbn.
           rewrite ?count_app, ?Hd0, ?Hl0. cbn.
           repeat split; eauto; lia.
    + cbn. rewrite Hds, <- ?app_assoc, ?count_app. cbn. rewrite ?count_app, ?Hd0, ?Hl0. cbn.
      repeat split; eauto; [lia|right; lia].
  - match goal with |- context [if String.eqb text "" then (Break, save ?s) else _] =>
      specialize (Hplain s eq_refl eq_refl Hds true) end.
    cbn zeta in Hplain. destruct (String.eqb text ""); exact Hplain.
Qed.

Lemma rounds_any config_id write_enabled n :
  forall st : turn,
  done_sent st = false ->
  count is_llm_request (sent (snd (rounds env n config_id write_enabled st)))
    <= n + count is_llm_request (sent st)
  /\ (exists added, messages (session (snd (rounds env n config_id write_enabled st)))
                    = messages (session st) ++ added)
  /\ (exists t, sent (snd (rounds env n config_id write_enabled st)) = sent st ++ t)
  /\ (1 <= n ->
      S (count is_llm_request (sent st))
        <= count is_llm_request (sent (snd (rounds env n config_id write_enabled st)))
      /\ exists t, sent (snd (rounds env n config_id write_enabled st))
                   = sent st ++ LlmRequest (llm_messages st) :: t)
  /\ match fst (rounds env n config_id write_enabled st) with
     | Returned _ =>
         (done_sent (snd (rounds env n config_id write_enabled st)) = true
          /\ count is_message_done (sent (snd (rounds env n config_id write_enabled st)))
             = S (count is_message_done (sent st)))
         \/ (done_sent (snd (rounds env n config_id write_enabled st)) = false
             /\ count is_message_done (sent st)
                <= count is_message_done
                     (sent (snd (rounds env n config_id write_enabled st)))
                <= S (count is_message_done (sent st)))
     | Raised _ =>
         count is_message_done (sent (snd (rounds env n config_id write_enabled st)))
         = count is_message_done (sent st)
     end.
Proof.
  induction n as [|n IH]; intros st Hds.
  - cbn. repeat split; try lia.
    + exists []. now rewrite app_nil_r.
    + exists []. now rewrite app_nil_r.
    + right. split; [exact Hds|lia].
  - cbn [rounds].
    pose proof (round_any config_id write_enabled st Hds)
      as ((t & Ht) & Hl & (added & Hm) & Hstep).
    destruct (round env config_id write_enabled st) as [[| |e] st1];
      cbn [fst snd] in *.
    + destruct Hstep as [Hds1 Hd1].
      destruct (IH st1 Hds1) as (Hl' & (added' & Hm') & (t' & Ht') & _ & Hres).
      split; [lia|]. split; [rewrite Hm', Hm, <- app_assoc; eauto|].
      split; [rewrite Ht', Ht, <- app_assoc; eauto|].
      split.
      * intros _. split.
        -- rewrite Ht', count_app. lia.
        -- rewrite Ht', Ht, <- app_assoc. cbn. eauto.
      * rewrite <- Hd1. exact Hres.
    + split; [lia|]. split; [eauto|]. split; [eauto|].
      split; [intros _; split; [lia|eauto]|exact Hstep].
    + split; [lia|]. split; [eauto|]. split; [eauto|].
      split; [intros _; split; [lia|eauto]|exact Hstep].
Qed.

Lemma safety_net_any (st : turn) :
  (exists added, messages (session (safety_net env st)) = messages (session st) ++ added)
  /\ (exists t, sent (safety_net env st) = sent st ++ t)
  /\ count is_llm_request (sent (safety_net env st)) = count is_llm_request (sent st)
  /\ count is_message_done (sent (safety_net env st))
     = (if done_sent st then 0 else 1) + count is_message_done (sent st).
Proof.
  unfold safety_net. destruct (done_sent st).
  { repeat split; try reflexivity; exists []; now rewrite app_nil_r. }
  destruct (String.eqb (join_parts (all_content_parts st)) "");
    destruct (uuid8 env (world st)) as [msg_id w'].
  - cbn. rewrite <- ?app_assoc, ?count_app. cbn.
    repeat split; eauto; try lia. exists []. now rewrite app_nil_r.
  - destruct (match last (messages (session st)) with Some _ => _ | None => _ end);
      cbn; rewrite <- ?app_assoc, ?count_app; cbn;
      repeat split; eauto; try lia.
    exists []. now rewrite app_nil_r.
Qed.

(** X1.  The frames of a turn, whatever the completion service and the tools do.
    The service is asked at least once and at most [max_tool_rounds + 1]
    times.  A turn that ends without an exception has sent one message_done
    frame, or two; a turn that an exception ends has sent none. *)
Theorem stream_response_bounds (w : W) (r : option router) (s : ColonelSession)
    (system_prompt config_id : string) (write_enabled : bool) :
  1 <= count is_llm_request
         (sent (snd (_stream_response env w r s system_prompt config_id write_enabled)))
    <= max_tool_rounds + 1
  /\ match fst (_stream_response env w r s system_prompt config_id write_enabled) with
     | Returned _ =>
         1 <= count is_message_done
                (sent (snd (_stream_response env w r s system_prompt config_id
                              write_enabled))) <= 2
     | Raised _ =>
         count is_message_done
           (sent (snd (_stream_response env w r s system_prompt config_id write_enabled)))
         = 0
     end.
Proof.
  unfold _stream_response.
  destruct (to_llm_messages ∅ (last_n 20 (messages s))) as [history remap].
  match goal with |- context [rounds env ?n _ _ ?s0] =>
    pose proof (rounds_any config_id write_enabled n s0 eq_refl)
      as (Hl & _ & _ & Hfirst & Hres);
    destruct (rounds env n config_id write_enabled s0) as [[[]|e] st]
  end; cbn [fst snd] in *.
  - destruct (Hfirst ltac:(cbn; lia)) as [Hl1 _]. cbn in Hl, Hl1, Hres.
    pose proof (safety_net_any st) as (_ & _ & Hl2 & Hd2).
    rewrite Hl2, Hd2. split; [cbn; lia|].
    destruct Hres as [[-> Hd]|[-> Hd]]; cbn; lia.
  - destruct (Hfirst ltac:(cbn; lia)) as [Hl1 _]. cbn in Hl, Hl1, Hres.
    split; [cbn; lia|exact Hres].
Qed.

(** X2.  The transcript only grows: the messages of the session before the turn
    are the first messages of the session after it, also when an exception
    ends the turn. *)
Theorem stream_response_appends (w : W) (r : option router) (s : ColonelSession)
    (system_prompt config_id : string) (write_enabled : bool) :
  exists added,
    messages (session (snd (_stream_response env w r s system_prompt config_id
                              write_enabled)))
    = messages s ++ added.
Proof.
  unfold _stream_response.
  destruct (to_llm_messages ∅ (last_n 20 (messages s))) as [history remap].
  match goal with |- context [rounds env ?n _ _ ?s0] =>
    pose proof (rounds_any config_id write_enabled n s0 eq_refl)
      as (_ & (added & Hm) & _);
    destruct (rounds env n config_id write_enabled s0) as [[[]|e] st]
  end; cbn [fst snd] in *; cbn in Hm.
  - destruct (safety_net_any st) as ((added' & Hm') & _).
    rewrite Hm', Hm, <- app_assoc. eauto.
  - eauto.
Qed.

Lemma to_llm_messages_keeps (ms : list ChatMessage) :
  forall remap,
    length (fst (to_llm_messages remap ms)) = length ms
    /\ map msg_role (fst (to_llm_messages remap ms)) = map msg_role ms
    /\ map content (fst (to_llm_messages remap ms)) = map content ms.
Proof.
  induction ms as [|m ms IH]; intros remap; [repeat split|].
  cbn [to_llm_messages].
  destruct (match tool_calls m with Some (tc :: l) => _ | _ => _ end) as [tcs remap1].
  specialize (IH remap1).
  destruct (to_llm_messages remap1 ms) as [rest remap2].
  cbn in *. destruct IH as (-> & -> & ->). repeat split.
Qed.

(** X3.  The context window.  The first request of a turn carries the system
    prompt and then the last 20 messages of the session at most, with their
    roles and contents in the order of the session. *)
Theorem stream_response_context_window (w : W) (r : option router) (s : ColonelSession)
    (system_prompt config_id : string) (write_enabled : bool) :
  exists history t older,
    sent (snd (_stream_response env w r s system_prompt config_id write_enabled))
    = LlmRequest (plain system system_prompt :: history) :: t
    /\ length history = Nat.min 20 (length (messages s))
    /\ messages s = older ++ last_n 20 (messages s)
    /\ map msg_role history = map msg_role (last_n 20 (messages s))
    /\ map content history = map content (last_n 20 (messages s)).
Proof.
  unfold _stream_response.
  pose proof (to_llm_messages_keeps (last_n 20 (messages s)) ∅) as (Hlen & Hrole & Hcontent).
  destruct (to_llm_messages ∅ (last_n 20 (messages s))) as [history remap].
  cbn [fst] in *.
  assert (Hwin : length history = Nat.min 20 (length (messages s))
                 /\ messages s = take (length (messages s) - 20) (messages s)
                                 ++ last_n 20 (messages s)).
  { split; [|unfold last_n; now rewrite take_drop].
    rewrite Hlen. unfold last_n. rewrite length_drop. lia. }
  destruct Hwin as [Hmin Hold].
  match goal with |- context [rounds env ?n _ _ ?s0] =>
    pose proof (rounds_any config_id write_enabled n s0 eq_refl)
      as (_ & _ & _ & Hfirst & _);
    destruct (rounds env n config_id write_enabled s0) as [[[]|e] st]
  end; cbn [fst snd] in *;
    destruct (Hfirst ltac:(cbn; lia)) as [_ [t Ht]]; cbn in Ht.
  - destruct (safety_net_any st) as (_ & (t' & Ht') & _).
    exists history, (t ++ t'), (take (length (messages s) - 20) (messages s)).
    rewrite Ht', Ht. repeat split; auto.
  - exists history, t, (take (length (messages s) - 20) (messages s)).
    repeat split; auto.
Qed.

(** X4.  An upstream failure before any content.  When the first call of the
    completion service gives neither content nor tool calls (an HTTP error, a
    fault of the stream, an empty stream), the turn ends at once: after what
    the call itself sent, the client gets one message_done frame with the
    placeholder text, and the session is saved as it was. *)
Theorem stream_response_no_answer (w : W) (r : option router) (s : ColonelSession)
    (system_prompt config_id : string) (write_enabled : bool)
    (t : trace) (w1 : W) (msg_id : string) (w2 : W) :
  _call_llm_stream env w
    (plain system system_prompt :: fst (to_llm_messages ∅ (last_n 20 (messages s))))
  = ("", None, t, w1) ->
  uuid8 env w1 = (msg_id, w2) ->
  fst (_stream_response env w r s system_prompt config_id write_enabled) = Returned ()
  /\ sent (snd (_stream_response env w r s system_prompt config_id write_enabled))
     = t ++ [Save s; Send (WSMessageDoneFrame msg_id "(No response generated)"); Save s]
  /\ session (snd (_stream_response env w r s system_prompt config_id write_enabled)) = s.
Proof.
  intros Hcall Hid. unfold _stream_response.
  destruct (to_llm_messages ∅ (last_n 20 (messages s))) as [history remap].
  cbn [fst] in Hcall.
  change (max_tool_rounds + 1) with 6. cbn [rounds]. unfold round.
  cbn [world llm_messages]. rewrite Hcall. cbn.
  unfold safety_net. cbn. rewrite Hid. cbn. rewrite <- !app_assoc.
  split; [reflexivity|]. split; reflexivity.
Qed.

Lemma append_assoc (a b c : string) : (a +:+ b) +:+ c = a +:+ (b +:+ c).
Proof.
  induction a as [|x a IH]; [reflexivity|].
  change (String x ((a +:+ b) +:+ c) = String x (a +:+ (b +:+ c))). now rewrite IH.
Qed.

Lemma append_nil_r (a : string) : a +:+ "" = a.
Proof.
  induction a as [|x a IH]; [reflexivity|].
  change (String x (a +:+ "") = String x a). now rewrite IH.
Qed.

Lemma read_stream_relays lines :
  forall text current,
    fst (fst (read_stream lines text current))
    = text +:+ chunk_text (snd (read_stream lines text current))
    /\ count is_error (snd (read_stream lines text current)) <= 1
    /\ (count is_error (snd (read_stream lines text current)) = 1 ->
        snd (fst (read_stream lines text current)) = None).
Proof.
  induction lines as [|line lines IH]; intros text current.
  { cbn. rewrite append_nil_r. repeat split; [lia|discriminate]. }
  destruct line as [| | |message| |chunk deltas| |e]; cbn [read_stream];
    try apply IH;
    try (cbn; rewrite append_nil_r; repeat split; [lia|discriminate]);
    try (cbn; rewrite append_nil_r; repeat split; lia).
  destruct (String.eqb chunk ""); [apply IH|].
  specialize (IH (text +:+ chunk)
                 (fold_left (fun acc d => accumulate d acc) deltas current)).
  destruct (read_stream lines _ _) as [[c tcs] t]. cbn in *.
  rewrite <- append_assoc. exact IH.
Qed.

(** X5.  What a call of the completion service relays.  The content it returns
    is the text of the chunk frames it sent, in order; it sends at most one
    error frame, and after an error frame it returns no tool calls. *)
Theorem call_llm_stream_relays (w : W) (request : list ChatMessage) :
  fst (fst (fst (_call_llm_stream env w request)))
  = chunk_text (snd (fst (_call_llm_stream env w request)))
  /\ count is_error (snd (fst (_call_llm_stream env w request))) <= 1
  /\ (count is_error (snd (fst (_call_llm_stream env w request))) = 1 ->
      snd (fst (fst (_call_llm_stream env w request))) = None).
Proof.
  unfold _call_llm_stream.
  destruct (completion env w request) as [[status body|lines] w1].
  - cbn. repeat split. lia.
  - pose proof (read_stream_relays lines "" []) as H.
    destruct (read_stream lines "" []) as [[c tcs] t]. cbn in *. exact H.
Qed.
End AnyTurn.

(** The theorem at the environment of the examples, with the service down. *)
Lemma stream_response_no_answer_witness :
  sent (snd (_stream_response (Stub.env (fun _ => UNAVAILABLE) []) 0 None
               Stub.ASKED_SESSION "prompt" "default" false))
  = [LlmRequest [plain system "prompt"; plain user "list containers"];
     Send (WSErrorFrame "LLM returned 503: upstream down" None);
     Save Stub.ASKED_SESSION;
     Send (WSMessageDoneFrame "u0" "(No response generated)");
     Save Stub.ASKED_SESSION].
Proof.
  apply (stream_response_no_answer (Stub.env (fun _ => UNAVAILABLE) []) 0 None
           Stub.ASKED_SESSION "prompt" "default" false
           [LlmRequest [plain system "prompt"; plain user "list containers"];
            Send (WSErrorFrame "LLM returned 503: upstream down" None)] 0 "u0" 1);
    vm_compute; reflexivity.
Defined.

End TurnFacts.

(** ** The table of rewritten tool-call ids *)

Module IdFacts.
Import Py Models Executor Router Gateway GatewayFacts Views.

(** X6.  Normalising a tool-call id.  The empty id and an id with the [call_]
    prefix stay as they are and leave the table alone; any other id gets the
    prefix and is entered in the table.  A normalised id is empty or has the
    prefix, and normalising it again changes neither the id nor the table. *)
Theorem normalize_tc_id_idempotent (_id_remap : gmap string string) (raw_id : string) :
  (raw_id = "" \/ canonical raw_id = true ->
   _normalize_tc_id _id_remap raw_id = (raw_id, _id_remap))
  /\ (raw_id <> "" -> canonical raw_id = false ->
      snd (_normalize_tc_id _id_remap raw_id) !! raw_id
      = Some (fst (_normalize_tc_id _id_remap raw_id)))
  /\ (raw_id <> "" -> canonical (fst (_normalize_tc_id _id_remap raw_id)) = true)
  /\ _normalize_tc_id (snd (_normalize_tc_id _id_remap raw_id))
                      (fst (_normalize_tc_id _id_remap raw_id))
     = _normalize_tc_id _id_remap raw_id.
Proof.
  unfold _normalize_tc_id, canonical.
  destruct (String.eqb_spec raw_id "") as [->|Hne].
  { repeat split; try reflexivity; intros; try contradiction; discriminate. }
  destruct (starts_with _ (list_ascii_of_string raw_id)) eqn:Hc.
  - cbn [fst snd]. rewrite Hc.
    destruct (String.eqb_spec raw_id ""); [contradiction|].
    repeat split; try reflexivity; intros; try discriminate.
  - cbn [fst snd]. repeat split.
    + intros [->|H]; [contradiction|discriminate].
    + intros _ _. apply lookup_insert_eq.
Qed.

Lemma normalize_fst_any (m1 m2 : gmap string string) (raw_id : string) :
  fst (_normalize_tc_id m1 raw_id) = fst (_normalize_tc_id m2 raw_id).
Proof.
  unfold _normalize_tc_id. destruct (String.eqb raw_id ""); [reflexivity|].
  destruct (starts_with _ _); reflexivity.
Qed.

Lemma normalize_consistent (_id_remap : gmap string string) (raw_id : string) :
  consistent _id_remap ->
  consistent (snd (_normalize_tc_id _id_remap raw_id))
  /\ remapped (snd (_normalize_tc_id _id_remap raw_id)) raw_id
     = fst (_normalize_tc_id _id_remap raw_id)
  /\ forall other,
       remapped _id_remap other = fst (_normalize_tc_id _id_remap other) ->
       remapped (snd (_normalize_tc_id _id_remap raw_id)) other
       = fst (_normalize_tc_id _id_remap other).
Proof.
  intros Hc.
  assert (Hkeep : forall i, _id_remap !! i = None \/ canonical i = false).
  { intros i. destruct (_id_remap !! i) eqn:E; [right|left; reflexivity].
    now destruct (Hc _ _ E) as (_ & H & _). }
  unfold _normalize_tc_id, remapped. fold (canonical raw_id).
  destruct (String.eqb_spec raw_id "") as [->|Hne]; cbn [fst snd].
  { split; [exact Hc|]. split; [|auto].
    destruct (_id_remap !! "") eqn:E; [|reflexivity].
    now destruct (Hc _ _ E) as (H & _). }
  destruct (canonical raw_id) eqn:Hcan; cbn [fst snd].
  { split; [exact Hc|]. split; [|auto].
    destruct (Hkeep raw_id) as [->|H]; [reflexivity|congruence]. }
  split; [|split].
  - intros i n. destruct (decide (raw_id = i)) as [<-|Hi].
    + rewrite lookup_insert_eq. intros [= <-]. repeat split; auto.
      unfold _normalize_tc_id. fold (canonical raw_id). rewrite Hcan.
      destruct (String.eqb_spec raw_id ""); [contradiction|reflexivity].
    + rewrite lookup_insert_ne by exact Hi. apply Hc.
  - now rewrite lookup_insert_eq.
  - intros other Hother. destruct (decide (raw_id = other)) as [<-|Hi].
    + rewrite lookup_insert_eq. cbn [default from_option id].
      fold (canonical raw_id). rewrite Hcan.
      destruct (String.eqb_spec raw_id ""); [contradiction|reflexivity].
    + rewrite lookup_insert_ne by exact Hi. exact Hother.
Qed.

(** The ids of tool results match the ids of the tool calls.  From a
    consistent table, normalising the tool calls of a round keeps the table
    consistent, keeps the names and the arguments of the calls, and makes the
    id under which the result of a call is recorded (the lookup of its
    original id in the table) equal to the id of the normalised call. *)
Theorem normalize_calls_resolve (tcs : list ToolCall) :
  forall _id_remap : gmap string string,
    consistent _id_remap ->
    consistent (snd (normalize_calls _id_remap tcs))
    /\ map (fun tc => remapped (snd (normalize_calls _id_remap tcs)) (tc_id tc)) tcs
       = map tc_id (fst (normalize_calls _id_remap tcs))
    /\ map tc_name (fst (normalize_calls _id_remap tcs)) = map tc_name tcs
    /\ map tc_arguments (fst (normalize_calls _id_remap tcs)) = map tc_arguments tcs.
Proof.
  assert (G : forall _id_remap : gmap string string,
    consistent _id_remap ->
    consistent (snd (normalize_calls _id_remap tcs))
    /\ (forall other,
          remapped _id_remap other = fst (_normalize_tc_id _id_remap other) ->
          remapped (snd (normalize_calls _id_remap tcs)) other
          = fst (_normalize_tc_id _id_remap other))
    /\ map (fun tc => remapped (snd (normalize_calls _id_remap tcs)) (tc_id tc)) tcs
       = map tc_id (fst (normalize_calls _id_remap tcs))
    /\ map tc_name (fst (normalize_calls _id_remap tcs)) = map tc_name tcs
    /\ map tc_arguments (fst (normalize_calls _id_remap tcs)) = map tc_arguments tcs).
  { induction tcs as [|tc tcs IH]; intros remap Hc.
    { cbn [normalize_calls fst snd map]. split; [exact Hc|]. split; [auto|].
      split; [reflexivity|]. split; reflexivity. }
    cbn [normalize_calls].
    destruct (normalize_consistent remap (tc_id tc) Hc) as (Hc1 & Hself & Hothers).
    destruct (_normalize_tc_id remap (tc_id tc)) as [new_id remap1] eqn:Hn.
    cbn [fst snd] in *.
    destruct (IH remap1 Hc1) as (Hc2 & Hkeep & Hids & Hnames & Hargs).
    destruct (normalize_calls remap1 tcs) as [rest remap2]. cbn [fst snd map] in *.
    split; [exact Hc2|]. split; [|split; [|split]].
    - intros other Hother. rewrite (Hkeep other).
      + apply normalize_fst_any.
      + rewrite (normalize_fst_any remap1 remap). apply Hothers. exact Hother.
    - f_equal; [|exact Hids].
      rewrite (Hkeep (tc_id tc)).
      + rewrite (normalize_fst_any remap1 remap), Hn. reflexivity.
      + rewrite (normalize_fst_any remap1 remap), Hn. exact Hself.
    - now rewrite Hnames.
    - now rewrite Hargs. }
  intros remap Hc. destruct (G remap Hc) as (H1 & _ & H2 & H3 & H4). auto.
Qed.

(** The table is consistent at the start of a turn: the empty table is, and
    preparing the messages of the session keeps it so. *)
Lemma to_llm_messages_consistent (ms : list ChatMessage) :
  forall _id_remap : gmap string string,
    consistent _id_remap -> consistent (snd (to_llm_messages _id_remap ms)).
Proof.
  induction ms as [|m ms IH]; intros remap Hc; [exact Hc|].
  cbn [to_llm_messages].
  destruct (tool_calls m) as [[|tc l]|].
  - specialize (IH remap Hc). destruct (to_llm_messages remap ms). exact IH.
  - destruct (normalize_calls_resolve (tc :: l) remap Hc) as (Hc1 & _).
    destruct (normalize_calls remap (tc :: l)) as [n remap1]. cbn [snd] in Hc1.
    specialize (IH remap1 Hc1). destruct (to_llm_messages remap1 ms). exact IH.
  - specialize (IH remap Hc). destruct (to_llm_messages remap ms). exact IH.
Qed.

Lemma empty_consistent : consistent ∅.
Proof. intros raw_id new_id H. rewrite lookup_empty in H. discriminate. Qed.

(** The theorem at an id that has the prefix and at one that lacks it. *)
Lemma normalize_tc_id_idempotent_witness :
  _normalize_tc_id ∅ "call_9" = ("call_9", ∅)
  /\ snd (_normalize_tc_id ∅ "toolu_vrtx_01") !! "toolu_vrtx_01"
     = Some (fst (_normalize_tc_id ∅ "toolu_vrtx_01"))
  /\ canonical (fst (_normalize_tc_id ∅ "toolu_vrtx_01")) = true.
Proof.
  destruct (normalize_tc_id_idempotent ∅ "toolu_vrtx_01") as (_ & H2 & H3 & _).
  split; [|split].
  - apply (proj1 (normalize_tc_id_idempotent ∅ "call_9")). right. reflexivity.
  - apply H2; [discriminate|reflexivity].
  - apply H3. discriminate.
Defined.

End IdFacts.

(** ** A round of tool calls *)

Module RoundFacts.
Import Py Models Executor Router Gateway GatewayFacts Views IdFacts Examples.

Section Ids.
Context {W : Type}.
Variable env : environment W.

Lemma run_tools_results config_id write_enabled calls :
  forall r st,
    _id_remap (snd (run_tools env config_id write_enabled calls r st)) = _id_remap st
    /\ exists results,
         messages (session (snd (run_tools env config_id write_enabled calls r st)))
         = messages (session st) ++ results
         /\ Forall (fun m =>
                      msg_role m = tool
                      /\ exists call, In call calls
                           /\ tool_call_id m
                              = Some (remapped (_id_remap st) (tc_id (fst (fst call))))
                           /\ name m = Some (snd (fst call))) results
         /\ (fst (run_tools env config_id write_enabled calls r st) = Returned () ->
             length results = length calls).
Proof.
  induction calls as [|[[tc func_name] args] calls IH]; intros r st.
  - cbn. split; [reflexivity|]. exists []. rewrite app_nil_r.
    split; [reflexivity|]. split; [constructor|reflexivity].
  - cbn [run_tools].
    destruct (execute env (world st) r func_name args config_id write_enabled)
      as [[[res r'] t] w'].
    destruct res as [result|e].
    + match goal with |- context [run_tools _ _ _ _ r' ?s] =>
        destruct (IH r' s) as (H1 & results & H2 & H3 & H4) end.
      cbn [_id_remap session messages append_message] in H1, H2, H3.
      split; [exact H1|].
      eexists (_ :: results). rewrite H2, <- app_assoc. split; [reflexivity|].
      split.
      * constructor.
        -- split; [reflexivity|]. exists (tc, func_name, args).
           split; [left; reflexivity|]. split; reflexivity.
        -- eapply Forall_impl; [exact H3|]. cbn beta.
           intros m (Hr & call & Hin & Hid & Hn). split; [exact Hr|].
           exists call. split; [right; exact Hin|]. split; assumption.
      * intros Hret. cbn [length]. f_equal. apply H4. exact Hret.
    + cbn [fst snd _id_remap session]. split; [reflexivity|]. exists [].
      rewrite app_nil_r. split; [reflexivity|]. split; [constructor|discriminate].
Qed.

Lemma valid_tool_calls_in (tcs : list ToolCall) (call : ToolCall * string * tool_args) :
  In call (omap (valid_tool_call env) tcs) ->
  In (fst (fst call)) tcs /\ snd (fst call) = tc_name (fst (fst call)).
Proof.
  induction tcs as [|tc tcs IH]; [intros []|].
  cbn [omap list_omap]. destruct (valid_tool_call env tc) as [c|] eqn:Hv.
  - intros [<-|Hin].
    + unfold valid_tool_call in Hv.
      destruct (String.eqb (tc_name tc) ""); [discriminate|].
      destruct (String.eqb (strip (tc_arguments tc)) "").
      * injection Hv as <-. split; [left; reflexivity|reflexivity].
      * destruct (json_loads env (tc_arguments tc)); [discriminate| |];
          injection Hv as <-; (split; [left; reflexivity|reflexivity]).
    + destruct (IH Hin) as [H1 H2]. split; [right; exact H1|exact H2].
  - intros Hin. destruct (IH Hin) as [H1 H2]. split; [right; exact H1|exact H2].
Qed.

Lemma resolved_in (remap : gmap string string) (tcs normalized : list ToolCall) (tc : ToolCall) :
  map (fun tc => remapped remap (tc_id tc)) tcs = map tc_id normalized ->
  map tc_name normalized = map tc_name tcs ->
  In tc tcs ->
  exists tc', In tc' normalized
              /\ tc_id tc' = remapped remap (tc_id tc) /\ tc_name tc' = tc_name tc.
Proof.
  revert normalized. induction tcs as [|a tcs IH]; intros normalized Hid Hname; [intros []|].
  destruct normalized as [|b normalized]; [discriminate|].
  cbn [map] in Hid, Hname. injection Hid as Hb Hid. injection Hname as Hn Hname.
  intros [->|Hin].
  - exists b. split; [left; reflexivity|]. split; [symmetry; exact Hb|exact Hn].
  - destruct (IH normalized Hid Hname Hin) as (tc' & H1 & H2).
    exists tc'. split; [right; exact H1|exact H2].
Qed.

(** X7.  The results of a round answer its calls.  A round that runs tools adds
    to the session one assistant message with the tool calls, their ids
    normalised, and after it one tool message for every call that passed the
    filter; each tool message carries the id and the name of one of the
    calls of the assistant message, and the table of rewritten ids stays
    consistent for the next round. *)
Theorem round_results_answer_calls (config_id : string) (write_enabled : bool)
    (st st' : turn) :
  consistent (_id_remap st) ->
  round env config_id write_enabled st = (Continue, st') ->
  exists text calls results,
    messages (session st')
    = messages (session st)
      ++ {| msg_role := assistant; content := text; tool_call_id := None;
            tool_calls := Some calls; name := None |} :: results
    /\ results <> []
    /\ Forall (fun m =>
                 msg_role m = tool
                 /\ exists tc, In tc calls /\ tool_call_id m = Some (tc_id tc)
                               /\ name m = Some (tc_name tc)) results
    /\ consistent (_id_remap st').
Proof.
  intros Hc. unfold round.
  destruct (_call_llm_stream env (world st) (llm_messages st))
    as [[[assistant_content tool_calls] t] w'].
  destruct tool_calls as [[|tc0 tcs0]|].
  - destruct (String.eqb assistant_content ""); discriminate.
  - cbn [skill_router]. destruct (skill_router st) as [r|]; [|discriminate].
    destruct (omap (valid_tool_call env) (tc0 :: tcs0)) as [|call calls] eqn:Hvalid.
    { destruct (String.eqb assistant_content ""); discriminate. }
    cbn [_id_remap].
    destruct (normalize_calls_resolve (tc0 :: tcs0) (_id_remap st) Hc)
      as (Hc' & Hids & Hnames & _).
    destruct (normalize_calls (_id_remap st) (tc0 :: tcs0)) as [normalized remap'].
    cbn [fst snd] in Hc', Hids, Hnames.
    match goal with |- context [run_tools env _ _ _ r ?s] =>
      destruct (run_tools_results config_id write_enabled (call :: calls) r s)
        as (Hremap & results & Hmsgs & Hall & Hlen);
      destruct (run_tools env config_id write_enabled (call :: calls) r s)
        as [[[]|e] st3] end; [|discriminate].
    cbn [fst snd _id_remap session messages append_message] in Hremap, Hmsgs, Hall, Hlen.
    intros [= <-]. exists assistant_content, normalized, results.
    unfold save, emit. cbn [session _id_remap].
    split; [rewrite Hmsgs, <- app_assoc; reflexivity|].
    split; [intros ->; specialize (Hlen eq_refl); discriminate|].
    split; [|rewrite Hremap; exact Hc'].
    eapply Forall_impl; [exact Hall|]. cbn beta.
    intros m (Hr & c & Hin & Hid & Hn). split; [exact Hr|].
    rewrite <- Hvalid in Hin. destruct (valid_tool_calls_in _ _ Hin) as [Hin' Hname].
    destruct (resolved_in remap' _ normalized _ Hids Hnames Hin') as (tc' & H1 & H2 & H3).
    exists tc'. split; [exact H1|]. split.
    + rewrite Hid, H2. reflexivity.
    + rewrite Hn, Hname, H3. reflexivity.
  - destruct (String.eqb assistant_content ""); discriminate.
Qed.
End Ids.

(** The theorem at a round in which the service asks for one tool, with an id
    of another provider. *)
Lemma round_results_answer_calls_witness :
  exists text calls results,
    messages (session (snd (round (Stub.env (fun _ => TOOLU_CALL) []) "default" false
                              FIRST_ROUND)))
    = messages (session FIRST_ROUND)
      ++ {| msg_role := assistant; content := text; tool_call_id := None;
            tool_calls := Some calls; name := None |} :: results
    /\ results <> []
    /\ Forall (fun m =>
                 msg_role m = tool
                 /\ exists tc, In tc calls /\ tool_call_id m = Some (tc_id tc)
                               /\ name m = Some (tc_name tc)) results
    /\ consistent (_id_remap (snd (round (Stub.env (fun _ => TOOLU_CALL) []) "default"
                                     false FIRST_ROUND))).
Proof.
  apply (round_results_answer_calls (Stub.env (fun _ => TOOLU_CALL) []) "default" false
           FIRST_ROUND).
  - apply empty_consistent.
  - vm_compute. reflexivity.
Defined.

End RoundFacts.

(** ** The trace of one tool invocation *)

Module ExecuteFacts.
Import Py Models Executor Router Gateway GatewayFacts Views.


Section Approval.
Context {W : Type}.
Variable env : environment W.

(** X8.  The approval path.  When a tool invocation needs a confirmation and the
    last answer that another task gives for it is an approval, the router
    sends the confirmation frame, the wait ends before its 60 seconds, and
    the action then runs as it would without a confirmation: the result and
    the rest of the trace are those of the dispatch.  The pending entry and
    the recorded answer are removed, and the catalog is the same. *)
Theorem execute_confirmed (w : W) (r : router) (func_name : string)
    (params : gmap string value) (config_id : string) (write_enabled : bool)
    (reason : option string) (confirm_id : string) (w1 : W)
    (calls : list (string * bool)) (w2 : W) :
  confirmation_need r func_name params = Returned (true, reason) ->
  uuid8 env w = (confirm_id, w1) ->
  other_tasks env w1 = (calls, w2) ->
  last_answer confirm_id calls = Some true ->
  exists r' result t w',
    dispatch env w2 func_name (fst (split_name func_name)) (snd (split_name func_name))
             params config_id write_enabled = (result, t, w')
    /\ execute env w r func_name (ArgsObject params) config_id write_enabled
       = (Returned result, r',
          [Send (WSConfirmFrame confirm_id (fst (split_name func_name))
                   (snd (split_name func_name))
                   (description_of reason (fst (split_name func_name))
                                   (snd (split_name func_name))) params);
           WaitFor 60 false] ++ t, w')
    /\ _pending_confirmations r' !! confirm_id = None
    /\ _confirmation_results r' !! confirm_id = None
    /\ skills r' = skills r.
Proof.
  intros Hneed Hid Hcalls Hlast.
  set (r1 := {| skills := skills r;
                _pending_confirmations := <[confirm_id := false]> (_pending_confirmations r);
                _confirmation_results := _confirmation_results r |}).
  assert (Hp : _pending_confirmations r1 !! confirm_id = Some false)
    by apply lookup_insert_eq.
  assert (Hs : forall l x, skills (handle_all l x) = skills x).
  { induction l as [|[i v] l IH]; intros x; [reflexivity|].
    cbn. unfold handle_all in IH. rewrite IH. unfold handle_confirmation.
    destruct (_pending_confirmations x !! i); reflexivity. }
  destruct (dispatch env w2 func_name (fst (split_name func_name))
              (snd (split_name func_name)) params config_id write_enabled)
    as [[result t] w'] eqn:Hd.
  exists {| skills := skills (handle_all calls r1);
            _pending_confirmations :=
              delete confirm_id (_pending_confirmations (handle_all calls r1));
            _confirmation_results :=
              delete confirm_id (_confirmation_results (handle_all calls r1)) |},
    result, t, w'.
  split; [reflexivity|]. split.
  - unfold execute.
    destruct (split_name func_name) as [skill_name act] eqn:Hn.
    cbn [fst snd] in Hd.
    rewrite Hneed. unfold confirm. rewrite Hid, Hcalls. fold r1.
    rewrite (RouterFacts.handle_all_pending _ _ _ _ Hp),
            (RouterFacts.last_answer_named _ _ _ Hlast).
    rewrite RouterFacts.handle_all_results, Hlast.
    cbn [orb default from_option id]. rewrite Hd. reflexivity.
  - cbn [_pending_confirmations _confirmation_results skills].
    split; [apply lookup_delete_eq|]. split; [apply lookup_delete_eq|].
    rewrite Hs. reflexivity.
Qed.







End Approval.

(** The theorem at the environment of the examples, where another task
    approves the confirmation [u0]. *)
Lemma execute_confirmed_witness :
  exists r' result t w',
    dispatch (Stub.env (fun _ => Stub.PLAIN) [("u0", true)]) 1 BASH
             (fst (split_name BASH)) (snd (split_name BASH))
             Stub.STOP_PARAMS "default" false = (result, t, w')
    /\ execute (Stub.env (fun _ => Stub.PLAIN) [("u0", true)]) 0 Stub.EMPTY_ROUTER BASH
               (ArgsObject Stub.STOP_PARAMS) "default" false
       = (Returned result, r',
          [Send (WSConfirmFrame "u0" (fst (split_name BASH)) (snd (split_name BASH))
                   (description_of (Some "This will affect a running container")
                                   (fst (split_name BASH)) (snd (split_name BASH)))
                   Stub.STOP_PARAMS);
           WaitFor 60 false] ++ t, w')
    /\ _pending_confirmations r' !! "u0" = None
    /\ _confirmation_results r' !! "u0" = None
    /\ skills r' = skills Stub.EMPTY_ROUTER.
Proof.
  apply (execute_confirmed (Stub.env (fun _ => Stub.PLAIN) [("u0", true)]) 0
           Stub.EMPTY_ROUTER BASH Stub.STOP_PARAMS "default" false
           (Some "This will affect a running container") "u0" 1 [("u0", true)] 1);
    [vm_compute; reflexivity|reflexivity|reflexivity|reflexivity].
Defined.
End ExecuteFacts.

(** ** The fragments of streamed tool calls *)

Module AccumulateFacts.
Import Py Models Executor Router Gateway GatewayFacts Views TurnFacts.

Lemma joined_snoc field ds d : joined field (ds ++ [d]) = joined field ds +:+ field d.
Proof.
  induction ds as [|a ds IH]; cbn [joined app].
  - now rewrite append_nil_r.
  - now rewrite IH, append_assoc.
Qed.

Lemma last_id_snoc ds d :
  last_id (ds ++ [d]) = if String.eqb (d_id d) "" then last_id ds else d_id d.
Proof.
  induction ds as [|a ds IH]; cbn [last_id app].
  - change (String.eqb "" "") with true. cbn iota.
    destruct (String.eqb_spec (d_id d) "") as [E|E]; [exact E|reflexivity].
  - rewrite IH. destruct (String.eqb_spec (d_id d) "") as [E|E]; [reflexivity|].
    destruct (String.eqb_spec (d_id d) ""); [contradiction|reflexivity].
Qed.

Lemma fragments_snoc i ds d :
  fragments i (ds ++ [d])
  = fragments i ds ++ (if (d_index d =? i)%Z then [d] else []).
Proof.
  unfold fragments. rewrite List.filter_app. f_equal.
Qed.

Lemma increasing_above a l :
  increasing (a :: l) = true -> increasing l = true /\ forall x, In x l -> (a < x)%Z.
Proof.
  revert a. induction l as [|b l IH]; intros a H; [split; [reflexivity|intros x []]|].
  cbn [increasing] in H. apply andb_prop in H as [Hab Hl]. apply Z.ltb_lt in Hab.
  split; [exact Hl|]. intros x [<-|Hx]; [exact Hab|].
  destruct (IH b Hl) as [_ Hall]. specialize (Hall x Hx). lia.
Qed.

Lemma increasing_cons a l :
  increasing l = true -> (forall x, In x l -> (a < x)%Z) -> increasing (a :: l) = true.
Proof.
  intros Hl Hall. destruct l as [|b l]; [reflexivity|].
  cbn [increasing]. apply andb_true_intro. split; [|exact Hl].
  apply Z.ltb_lt, Hall. left. reflexivity.
Qed.

(** One fragment more. *)
Lemma accumulate_step d current :
  increasing (map fst current) = true ->
  increasing (map fst (accumulate d current)) = true
  /\ (forall i, In i (map fst (accumulate d current))
                <-> i = d_index d \/ In i (map fst current))
  /\ (forall i tc, In (i, tc) (accumulate d current) ->
        if (d_index d =? i)%Z
        then (exists tc0, In (i, tc0) current /\ tc = merge_delta tc0 d)
             \/ (~ In i (map fst current) /\ tc = merge_delta (new_call d) d)
        else In (i, tc) current).
Proof.
  induction current as [|[k tck] rest IH]; intros Hinc.
  - cbn. split; [reflexivity|]. split; [intros i; cbn [In]; intuition congruence|].
    intros i tc [[= <- <-]|[]]. rewrite Z.eqb_refl. right. split; [tauto|reflexivity].
  - cbn [accumulate]. cbn [map fst] in Hinc.
    destruct (increasing_above _ _ Hinc) as [Hrest Habove].
    destruct (Z.eqb_spec k (d_index d)) as [Hk|Hk].
    + cbn [map fst]. split; [exact Hinc|]. split.
      * intros i. cbn [In]. intuition congruence.
      * intros i tc [[= <- <-]|Hin].
        -- rewrite <- Hk, Z.eqb_refl. left. exists tck. split; [left; reflexivity|reflexivity].
        -- destruct (Z.eqb_spec (d_index d) i) as [Hi|Hi]; [|right; exact Hin].
           exfalso. assert (Hlt : (k < i)%Z).
           { apply Habove. change i with (fst (i, tc)). apply in_map. exact Hin. }
           lia.
    + destruct (Z.ltb_spec (d_index d) k) as [Hlt|Hge].
      * cbn [map fst]. split; [|split].
        -- apply increasing_cons; [exact Hinc|].
           intros x [<-|Hx]; [exact Hlt|]. specialize (Habove x Hx). lia.
        -- intros i. cbn [In map fst]. intuition congruence.
        -- intros i tc [[= <- <-]|Hin].
           ++ rewrite Z.eqb_refl. right. split; [|reflexivity].
              cbn [map fst In]. intros [H|H]; [lia|]. specialize (Habove _ H). lia.
           ++ destruct (Z.eqb_spec (d_index d) i) as [Hi|Hi]; [|exact Hin].
              exfalso. assert (Hle : (k <= i)%Z).
              { destruct Hin as [[= <- _]|Hin]; [lia|].
                assert (k < i)%Z; [|lia].
                apply Habove. change i with (fst (i, tc)). apply in_map. exact Hin. }
              lia.
      * destruct (IH Hrest) as (I1 & I2 & I3). cbn [map fst]. split; [|split].
        -- apply increasing_cons; [exact I1|].
           intros x Hx. apply I2 in Hx as [->|Hx]; [lia|]. apply Habove. exact Hx.
        -- intros i. cbn [In]. rewrite I2. intuition congruence.
        -- intros i tc [[= <- <-]|Hin].
           ++ destruct (Z.eqb_spec (d_index d) k) as [Hi|Hi]; [congruence|].
              left. reflexivity.
           ++ specialize (I3 i tc Hin).
              destruct (Z.eqb_spec (d_index d) i) as [Hi|Hi].
              ** destruct I3 as [(tc0 & H0 & ->)|[Hnot ->]].
                 --- left. exists tc0. split; [right; exact H0|reflexivity].
                 --- right. split; [|reflexivity]. cbn [map fst In].
                     intros [H|H]; [lia|contradiction].
              ** right. exact I3.
Qed.

Lemma fragments_none i deltas : ~ In i (map d_index deltas) -> fragments i deltas = [].
Proof.
  induction deltas as [|d ds IH]; [reflexivity|]. cbn [map In]. intros H.
  unfold fragments. cbn [List.filter].
  destruct (Z.eqb_spec (d_index d) i) as [Hd|Hd]; [tauto|].
  apply IH. tauto.
Qed.

Lemma assembled_step deltas current d :
  assembled deltas current -> assembled (deltas ++ [d]) (accumulate d current).
Proof.
  intros (Hinc & Hkeys & Hfields).
  destruct (accumulate_step d current Hinc) as (A1 & A2 & A3).
  split; [exact A1|]. split.
  - intros i. rewrite A2, Hkeys, map_app, in_app_iff. cbn [map In]. split.
    + intros [->|H]; [right; left; reflexivity|left; exact H].
    + intros [H|[H|[]]]; [right; exact H|left; symmetry; exact H].
  - intros i tc Hin. specialize (A3 i tc Hin). rewrite fragments_snoc.
    destruct (d_index d =? i)%Z eqn:Hi.
    + rewrite !joined_snoc, last_id_snoc.
      destruct A3 as [(tc0 & H0 & ->)|[Hnot ->]].
      * destruct (Hfields i tc0 H0) as (F1 & F2 & F3). cbn [merge_delta tc_name
          tc_arguments tc_id]. rewrite F1, F2, F3. repeat split.
      * rewrite fragments_none by (rewrite <- Hkeys; exact Hnot).
        cbn [merge_delta new_call tc_name tc_arguments tc_id joined last_id].
        repeat split. destruct (String.eqb_spec (d_id d) "") as [E|E]; [exact E|reflexivity].
    + rewrite app_nil_r. apply Hfields. exact A3.
Qed.

Lemma assembled_fold deltas :
  forall seen current,
    assembled seen current ->
    assembled (seen ++ deltas) (fold_left (fun acc d => accumulate d acc) deltas current).
Proof.
  induction deltas as [|d ds IH]; intros seen current H; cbn [fold_left].
  - now rewrite app_nil_r.
  - replace (seen ++ d :: ds) with ((seen ++ [d]) ++ ds) by now rewrite <- app_assoc.
    apply IH, assembled_step, H.
Qed.

(** X10.  Putting the fragments of tool calls together.  After any sequence of
    fragments, the table of tool calls has one entry for every index that
    occurred, in increasing order of the indices; the name and the arguments
    of an entry are the pieces of the fragments with its index, joined in the
    order of arrival, and its id is the last id of these fragments that is
    not empty. *)
Theorem accumulate_assembles (deltas : list tc_delta) :
  let current := fold_left (fun acc d => accumulate d acc) deltas [] in
  increasing (map fst current) = true
  /\ (forall i, In i (map fst current) <-> In i (map d_index deltas))
  /\ forall i tc, In (i, tc) current ->
       tc_name tc = joined d_name (fragments i deltas)
       /\ tc_arguments tc = joined d_arguments (fragments i deltas)
       /\ tc_id tc = last_id (fragments i deltas).
Proof.
  apply (assembled_fold deltas [] []).
  split; [reflexivity|]. split; [intros i; reflexivity|]. intros i tc [].
Qed.
End AccumulateFacts.

(** ** The receive loop and the titles *)

Module LoopFacts.
Import Py Models Executor Router Gateway GatewayFacts Views Titles ExecuteFacts.

Lemma prefix_nonempty n s : s <> "" -> prefix (S n) s <> "".
Proof. destruct s; [contradiction|]. intros _. discriminate. Qed.






End LoopFacts.

(** ** Container management *)

Module DockerFacts.
Import Py Models Docker Views.

Section Manage.
Context {W : Type}.
Variable d : daemon W.


(** X14.  Nothing removes a container.  The actions rm and remove make no call on
    a container: the answer is the refusal for a critical service, and
    otherwise what the lookup of the container gives or the text for an
    unknown action.  Any action other than start, stop, restart and kill
    makes no call on a container either. *)
Theorem docker_manage_unknown_action (w : W) (container_name action : string) :
  operation_of action = None ->
  Forall (fun q => match q with Get _ => True | Do _ _ => False end)
         (snd (fst (docker_manage_container d w container_name action)))
  /\ (member container_name PROTECTED = false ->
      get d w container_name = (None, snd (get d w container_name)) ->
      fst (fst (docker_manage_container d w container_name action))
      = Returned ("Unknown action: " +:+ action)).
Proof.
  intros Hop. unfold docker_manage_container, validate_docker_command. split.
  - destruct (member action GUARDED && member container_name PROTECTED); [constructor|].
    destruct (get d w container_name) as [[f|] w1]; [repeat constructor|].
    rewrite Hop. repeat constructor.
  - intros -> Hget. rewrite andb_false_r, Hget, Hop. reflexivity.
Qed.

(** A restart is not refused: for any container, critical or not, that the
    daemon finds and restarts, the restart is made with a timeout of 30
    seconds and reported. *)
Theorem docker_manage_restart (w w1 w2 : W) (container_name : string) :
  get d w container_name = (None, w1) ->
  do d w1 container_name (Restart 30) = (None, w2) ->
  docker_manage_container d w container_name "restart"
  = (Returned ("Container '" +:+ container_name +:+ "' restarted."),
     [Get container_name; Do container_name (Restart 30)], w2).
Proof.
  intros Hget Hdo. unfold docker_manage_container, validate_docker_command.
  change (member "restart" GUARDED) with false. cbn [andb].
  rewrite Hget. change (operation_of "restart") with (Some (Restart 30, "restarted")).
  cbn iota. rewrite Hdo. reflexivity.
Qed.
End Manage.


Lemma docker_manage_unknown_action_witness :
  fst (fst (docker_manage_container WILLING 0 "web" "rm"))
  = Returned ("Unknown action: " +:+ "rm").
Proof.
  apply (proj2 (docker_manage_unknown_action WILLING 0 "web" "rm" eq_refl));
    reflexivity.
Defined.

Lemma docker_manage_restart_witness :
  docker_manage_container WILLING 0 "unicorn-postgresql" "restart"
  = (Returned ("Container '" +:+ "unicorn-postgresql" +:+ "' restarted."),
     [Get "unicorn-postgresql"; Do "unicorn-postgresql" (Restart 30)], 2).
Proof.
  apply (docker_manage_restart WILLING 0 1 2 "unicorn-postgresql"); reflexivity.
Defined.
End DockerFacts.

(** ** The first word of SQL queries *)

Module PostgresFacts.
Import Py Models Executor Router Gateway GatewayFacts Views Postgres.

Lemma in_all_ascii (c : ascii) : In c ALL_ASCII.
Proof.
  unfold ALL_ASCII. rewrite <- (ascii_nat_embedding c). apply in_map, in_seq.
  pose proof (nat_ascii_bounded c). lia.
Qed.










Section FirstWord.
Context {W : Type}.
Variable env : environment W.



End FirstWord.


End PostgresFacts.

(** ** The matcher against the meaning of the patterns *)

Module EngineFacts.
Import Re Meaning.

Lemma last_char_nil prev : last_char prev [] = prev.
Proof. reflexivity. Qed.

Lemma last_char_one prev c : last_char prev [c] = Some c.
Proof. reflexivity. Qed.

Lemma last_char_app prev m1 m2 :
  last_char (last_char prev m1) m2 = last_char prev (m1 ++ m2).
Proof.
  unfold last_char. rewrite rev_app_distr.
  destruct (rev m2) as [|c l]; [reflexivity|reflexivity].
Qed.

Lemma last_char_cons prev c m : last_char prev (c :: m) = last_char (Some c) m.
Proof. exact (eq_sym (last_char_app prev [c] m)). Qed.

Section Complete.
Context {R : Type}.
Variable ic : bool.

Lemma one_complete (p : ascii -> bool) :
  complete (R:=R) (fun _ m _ => exists c, m = [c] /\ p c = true) (one p).
Proof.
  intros prev m after cs k (c & -> & Hc) Hk. cbn. rewrite Hc. apply Hk.
Qed.

Lemma star_loop_complete body f :
  complete (R:=R) body f ->
  forall prev m after,
    star_of body prev m after ->
    forall fuel cs k,
      length (m ++ after) <= fuel ->
      (forall cs', k (last_char prev m) after cs' <> None) ->
      star_loop f fuel prev (m ++ after) cs k <> None.
Proof.
  intros Hf prev m after H.
  induction H as [before after|before m1 m2 after Hbody Hrest IH]; intros fuel cs k Hfuel Hk.
  - destruct fuel as [|fuel]; cbn [star_loop app]; [apply Hk|].
    destruct (f before after cs _); [discriminate|apply Hk].
  - destruct m1 as [|c m1].
    { cbn [app] in *. apply IH; assumption. }
    destruct fuel as [|fuel]; [cbn in Hfuel; lia|].
    cbn [star_loop]. rewrite <- app_assoc.
    match goal with |- context [f before _ cs ?k'] =>
      pose proof (Hf before (c :: m1) (m2 ++ after) cs k' Hbody) as Hstep end.
    destruct (f before ((c :: m1) ++ m2 ++ after) cs _); [discriminate|].
    exfalso. apply Hstep; [|reflexivity].
    intros cs'.
    destruct (Nat.ltb_spec (length (m2 ++ after)) (length ((c :: m1) ++ m2 ++ after)))
      as [_|Hge].
    + apply IH.
      * rewrite <- app_assoc in Hfuel. cbn [app length] in Hfuel.
        rewrite length_app in Hfuel. lia.
      * intros cs''. rewrite last_char_app. apply Hk.
    + cbn [app length] in Hge. rewrite (length_app m1) in Hge. lia.
Qed.

Lemma repeat_loop_complete body f n :
  complete (R:=R) body f -> complete (repeat_of n body) (repeat_loop f n).
Proof.
  intros Hf. induction n as [|n IH]; intros prev m after cs k H Hk.
  - cbn in H. subst m. apply Hk.
  - destruct H as (m1 & m2 & -> & H1 & H2). cbn [repeat_loop]. rewrite <- app_assoc.
    apply (Hf prev m1 (m2 ++ after)); [exact H1|].
    intros cs'. apply IH; [exact H2|]. intros cs''. rewrite last_char_app. apply Hk.
Qed.

Lemma rmatch_complete r : complete (R:=R) (derives ic r) (rmatch ic r).
Proof.
  induction r as [|p| | | |items| | |r1 IH1 r2 IH2|r1 IH1 r2 IH2|n r1 IH1|r1 IH1|r1 IH1
                 |r1 IH1|n r1 IH1]; cbn [rmatch derives].
  - intros prev m after cs k -> Hk. apply Hk.
  - apply one_complete.
  - apply one_complete.
  - apply one_complete.
  - apply one_complete.
  - apply one_complete.
  - intros prev m after cs k [-> Hb] Hk. unfold guard. cbn [app]. rewrite Hb. apply Hk.
  - intros prev m after cs k [-> Hb] Hk. unfold guard. cbn [app]. rewrite Hb. apply Hk.
  - intros prev m after cs k (m1 & m2 & -> & H1 & H2) Hk. rewrite <- app_assoc.
    apply (IH1 prev m1 (m2 ++ after)); [exact H1|].
    intros cs'. apply IH2; [exact H2|]. intros cs''. rewrite last_char_app. apply Hk.
  - intros prev m after cs k [H|H] Hk.
    + pose proof (IH1 prev m after cs k H Hk) as H1.
      destruct (rmatch ic r1 prev (m ++ after) cs k); [discriminate|contradiction].
    + destruct (rmatch ic r1 prev (m ++ after) cs k); [discriminate|].
      apply IH2; assumption.
  - intros prev m after cs k H Hk. apply IH1; [exact H|]. intros cs'. apply Hk.
  - intros prev m after cs k H Hk.
    apply (star_loop_complete _ _ IH1 prev m after H); [lia|exact Hk].
  - intros prev m after cs k (m1 & m2 & -> & H1 & H2) Hk. rewrite <- app_assoc.
    apply (IH1 prev m1 (m2 ++ after)); [exact H1|].
    intros cs'. apply (star_loop_complete _ _ IH1 _ m2 after H2); [lia|].
    intros cs''. rewrite last_char_app. apply Hk.
  - intros prev m after cs k [->|H] Hk.
    + cbn [app]. destruct (rmatch ic r1 prev after cs k); [discriminate|apply Hk].
    + pose proof (IH1 prev m after cs k H Hk) as H1.
      destruct (rmatch ic r1 prev (m ++ after) cs k); [discriminate|contradiction].
  - apply repeat_loop_complete. exact IH1.
Qed.
End Complete.

Section SoundFor.
Context {R : Type}.
Variable ic : bool.

Lemma one_sound_for (p : ascii -> bool) :
  sound_for (R:=R) (fun _ m _ => exists c, m = [c] /\ p c = true) (one p).
Proof.
  intros prev s cs k x H. destruct s as [|c s]; cbn in H; [discriminate|].
  destruct (p c) eqn:Hc; [|discriminate].
  exists [c], s, cs. split; [reflexivity|]. split; [eauto|exact H].
Qed.

Lemma star_loop_sound_for body f fuel :
  sound_for (R:=R) body f -> sound_for (star_of body) (star_loop f fuel).
Proof.
  intros Hf. induction fuel as [|fuel IH]; intros prev s cs k x H; cbn [star_loop] in H.
  - exists [], s, cs. split; [reflexivity|]. split; [constructor|exact H].
  - destruct (f prev s cs _) as [y|] eqn:E.
    + injection H as ->.
      apply Hf in E as (m1 & s1 & cs1 & -> & Hb & E).
      destruct (Nat.ltb _ _); [|discriminate].
      apply IH in E as (m2 & s2 & cs2 & -> & Hs & E).
      exists (m1 ++ m2), s2, cs2. rewrite <- app_assoc, <- last_char_app.
      split; [reflexivity|]. split; [constructor; assumption|exact E].
    + exists [], s, cs. split; [reflexivity|]. split; [constructor|exact H].
Qed.

Lemma repeat_loop_sound_for body f n :
  sound_for (R:=R) body f -> sound_for (repeat_of n body) (repeat_loop f n).
Proof.
  intros Hf. induction n as [|n IH]; intros prev s cs k x H; cbn [repeat_loop] in H.
  - exists [], s, cs. split; [reflexivity|]. split; [reflexivity|exact H].
  - apply Hf in H as (m1 & s1 & cs1 & -> & Hb & E).
    apply IH in E as (m2 & s2 & cs2 & -> & Hs & E).
    exists (m1 ++ m2), s2, cs2. rewrite <- app_assoc, <- last_char_app.
    split; [reflexivity|]. split; [|exact E].
    exists m1, m2. split; [reflexivity|]. split; assumption.
Qed.

Lemma rmatch_sound_for r : sound_for (R:=R) (derives ic r) (rmatch ic r).
Proof.
  induction r as [|p| | | |items| | |r1 IH1 r2 IH2|r1 IH1 r2 IH2|n r1 IH1|r1 IH1|r1 IH1
                 |r1 IH1|n r1 IH1]; cbn [rmatch derives].
  - intros prev s cs k x H. exists [], s, cs. auto.
  - apply one_sound_for.
  - apply one_sound_for.
  - apply one_sound_for.
  - apply one_sound_for.
  - apply one_sound_for.
  - intros prev s cs k x H. unfold guard in H.
    destruct (xorb _ _) eqn:Hb; [|discriminate]. exists [], s, cs. auto.
  - intros prev s cs k x H. unfold guard in H.
    destruct (at_end s) eqn:Hb; [|discriminate]. exists [], s, cs. auto.
  - intros prev s cs k x H.
    apply IH1 in H as (m1 & s1 & cs1 & -> & H1 & E).
    apply IH2 in E as (m2 & s2 & cs2 & -> & H2 & E).
    exists (m1 ++ m2), s2, cs2. rewrite <- app_assoc, <- last_char_app.
    split; [reflexivity|]. split; [|exact E].
    exists m1, m2. split; [reflexivity|]. split; assumption.
  - intros prev s cs k x H.
    destruct (rmatch ic r1 prev s cs k) as [y|] eqn:E.
    + injection H as ->. apply IH1 in E as (m & s' & cs' & -> & H1 & E).
      exists m, s', cs'. auto.
    + apply IH2 in H as (m & s' & cs' & -> & H1 & E'). exists m, s', cs'. auto.
  - intros prev s cs k x H.
    apply IH1 in H as (m & s' & cs' & -> & H1 & E). eexists m, s', _. eauto.
  - intros prev s cs k x H.
    apply (star_loop_sound_for _ _ _ IH1) in H. exact H.
  - intros prev s cs k x H.
    apply IH1 in H as (m1 & s1 & cs1 & -> & H1 & E).
    apply (star_loop_sound_for _ _ _ IH1) in E as (m2 & s2 & cs2 & -> & H2 & E).
    exists (m1 ++ m2), s2, cs2. rewrite <- app_assoc, <- last_char_app.
    split; [reflexivity|]. split; [|exact E].
    exists m1, m2. split; [reflexivity|]. split; assumption.
  - intros prev s cs k x H.
    destruct (rmatch ic r1 prev s cs k) as [y|] eqn:E.
    + injection H as ->. apply IH1 in E as (m & s' & cs' & -> & H1 & E).
      exists m, s', cs'. auto.
    + exists [], s, cs. auto.
  - apply repeat_loop_sound_for. exact IH1.
Qed.
End SoundFor.

Lemma search_complete ic r pre :
  forall prev m post,
    derives ic r (last_char prev pre) m post ->
    search ic r prev (pre ++ m ++ post) <> None.
Proof.
  induction pre as [|c pre IH]; intros prev m post H.
  - cbn [app]. assert (Hm : match_here ic r prev (m ++ post) <> None).
    { unfold match_here. apply rmatch_complete; [exact H|]. intros cs'. discriminate. }
    destruct (m ++ post) as [|c s]; cbn [search];
      destruct (match_here ic r prev _); [discriminate|contradiction|discriminate|
                                           contradiction].
  - cbn [app search].
    destruct (match_here ic r prev (c :: pre ++ m ++ post)); [discriminate|].
    rewrite last_char_cons in H. specialize (IH (Some c) m post H).
    destruct (search ic r (Some c) (pre ++ m ++ post)); [discriminate|contradiction].
Qed.

Lemma match_here_derives ic r prev s f :
  match_here ic r prev s = Some f ->
  f_pre f = [] /\ s = f_match f ++ f_rest f
  /\ derives ic r prev (f_match f) (f_rest f).
Proof.
  unfold match_here. intros H.
  apply rmatch_sound_for in H as (m & s' & cs' & -> & Hd & E).
  injection E as <-. cbn [f_pre f_match f_rest].
  rewrite length_app, Nat.add_sub, take_app_length. auto.
Qed.

Lemma search_derives ic r s :
  forall prev f,
    search ic r prev s = Some f ->
    s = f_pre f ++ f_match f ++ f_rest f
    /\ derives ic r (last_char prev (f_pre f)) (f_match f) (f_rest f).
Proof.
  induction s as [|c s IH]; intros prev f H; cbn [search] in H.
  - destruct (match_here ic r prev []) eqn:E; [|discriminate].
    injection H as ->. apply match_here_derives in E as (-> & E & Hd). auto.
  - destruct (match_here ic r prev (c :: s)) eqn:E.
    + injection H as ->. apply match_here_derives in E as (-> & E & Hd). auto.
    + destruct (search ic r (Some c) s) as [g|] eqn:G; [|discriminate].
      injection H as <-. cbn [f_pre f_match f_rest].
      apply IH in G as (G & Hd). rewrite last_char_cons. cbn [app]. rewrite <- G. auto.
Qed.

(** The engine against the meaning of the patterns: [re.search] finds a
    match exactly when the pattern matches somewhere in the text. *)
Theorem re_search_occurs (p : bool * regex) (flag : bool) (text : string) :
  re_search p flag text = true
  <-> occurs (fst p || flag) (snd p) (list_ascii_of_string text).
Proof.
  unfold re_search, occurs. split.
  - destruct (search _ _ None _) as [f|] eqn:E; [|discriminate]. intros _.
    apply search_derives in E as (E & Hd).
    exists (f_pre f), (f_match f), (f_rest f). auto.
  - intros (pre & m & post & -> & Hd).
    pose proof (search_complete _ _ pre None m post Hd) as H.
    destruct (search _ _ None _); [reflexivity|contradiction].
Qed.
End EngineFacts.

(** ** What the blocked patterns catch *)

Module BlockedFacts.
Import Py Models Executor Router Gateway GatewayFacts Views Re Meaning EngineFacts
       Safety SafetyFacts.

Lemma derives_lits (w : list ascii) :
  forall text rest_r b m a,
    spells w text = true ->
    derives true rest_r (last_char b text) m a ->
    derives true (chain (map Lit w) rest_r) b (text ++ m) a.
Proof.
  induction w as [|p w IH]; intros [|c text] rest_r b m a Hs Hd; try discriminate.
  - exact Hd.
  - cbn [spells] in Hs. apply andb_prop in Hs as [Hc Hs].
    cbn [map chain fold_right derives]. exists [c], (text ++ m).
    split; [reflexivity|]. split; [exists c; split; [reflexivity|exact Hc]|].
    apply IH; [exact Hs|]. rewrite last_char_app. exact Hd.
Qed.

Lemma spells_snoc (w : list ascii) (z : ascii) :
  forall text,
    spells (w ++ [z]) text = true ->
    exists init e, text = init ++ [e] /\ spells w init = true
                   /\ lit_eq true z e = true.
Proof.
  induction w as [|p w IH]; intros [|c text] Hs; try discriminate.
  - destruct text; [|cbn in Hs; rewrite andb_false_r in Hs; discriminate].
    cbn in Hs. rewrite andb_true_r in Hs. exists [], c. auto.
  - cbn [app spells] in Hs. apply andb_prop in Hs as [Hc Hs].
    destruct (IH text Hs) as (init & e & -> & Hi & He).
    exists (c :: init), e. cbn [spells]. rewrite Hc, Hi. auto.
Qed.

Lemma derives_word (w : list ascii) (z : ascii) (text : list ascii) b a :
  spells (w ++ [z]) text = true ->
  derives true (chain (map Lit w) (Lit z)) b text a.
Proof.
  intros Hs. destruct (spells_snoc w z text Hs) as (init & e & -> & Hi & He).
  apply derives_lits; [exact Hi|]. exists e. auto.
Qed.

Lemma star_spaces (ws : list ascii) :
  forall b a, forallb is_space ws = true -> star_of (derives true Space) b ws a.
Proof.
  induction ws as [|c ws IH]; intros b a H; [constructor|].
  cbn [forallb] in H. apply andb_prop in H as [Hc H].
  apply (star_more _ b [c] ws a); [exists c; auto|]. apply IH, H.
Qed.

Lemma derives_spaces (ws : list ascii) b a :
  ws <> [] -> forallb is_space ws = true -> derives true (Plus Space) b ws a.
Proof.
  destruct ws as [|c ws]; [contradiction|]. intros _ H.
  cbn [forallb] in H. apply andb_prop in H as [Hc H].
  exists [c], ws. split; [reflexivity|]. split; [exists c; auto|].
  apply star_spaces, H.
Qed.

(** Two words with white space between them. *)
Lemma derives_two_words (w1 w2 : list ascii) (z : ascii) (t1 ws t2 : list ascii) b a :
  spells w1 t1 = true -> ws <> [] -> forallb is_space ws = true ->
  spells (w2 ++ [z]) t2 = true ->
  derives true (chain (map Lit w1) (Cat (Plus Space) (chain (map Lit w2) (Lit z))))
          b (t1 ++ ws ++ t2) a.
Proof.
  intros H1 Hne Hws H2. apply derives_lits; [exact H1|].
  exists ws, t2. split; [reflexivity|].
  split; [apply derives_spaces; assumption|apply derives_word, H2].
Qed.

Lemma blocked_by (q : compiled) (pre m post : list ascii) :
  In q BLOCKED_COMPILED ->
  derives true (snd (snd q)) (last_char None pre) m post ->
  exists reason,
    validate_command (string_of_list_ascii (pre ++ m ++ post)) = (false, Some reason).
Proof.
  intros Hin Hd. unfold validate_command.
  destruct (first_blocked_found BLOCKED_COMPILED
              (string_of_list_ascii (pre ++ m ++ post))) as (i & pattern & _ & ->).
  - exists q. split; [apply list_elem_of_In, Hin|].
    apply re_search_occurs. rewrite orb_true_r, list_ascii_of_string_of_list_ascii.
    exists pre, m, post. auto.
  - eauto.
Qed.

Lemma sql_is_blocked (pre t1 ws t2 post : list ascii) :
  ws <> [] -> forallb is_space ws = true ->
  (spells SQL_DROP t1 = true /\ spells SQL_DATABASE t2 = true)
  \/ (spells SQL_TRUNCATE t1 = true /\ spells SQL_TABLE t2 = true) ->
  exists reason,
    validate_command (string_of_list_ascii (pre ++ (t1 ++ ws ++ t2) ++ post))
    = (false, Some reason).
Proof.
  intros Hne Hws [[H1 H2]|[H1 H2]].
  - apply (blocked_by ("DROP\s+DATABASE",
                       (false, chain (map Lit SQL_DROP)
                                 (Cat (Plus Space)
                                    (chain (map Lit (list_ascii_of_string "DATABAS"))
                                           (Lit "E")))))).
    + do 12 right. left. reflexivity.
    + cbn [snd]. apply derives_two_words; assumption.
  - apply (blocked_by ("TRUNCATE\s+TABLE",
                       (false, chain (map Lit SQL_TRUNCATE)
                                 (Cat (Plus Space)
                                    (chain (map Lit (list_ascii_of_string "TABL"))
                                           (Lit "E")))))).
    + do 14 right. left. reflexivity.
    + cbn [snd]. apply derives_two_words; assumption.
Qed.

(** X17.  Destructive SQL is refused wherever it stands.  A command in which the
    words DROP and DATABASE, or TRUNCATE and TABLE, in any case, are
    separated by white space only is not allowed, whatever comes before and
    after. *)
Theorem validate_command_blocks_sql (pre t1 ws t2 post : list ascii) :
  ws <> [] -> forallb is_space ws = true ->
  (spells SQL_DROP t1 = true /\ spells SQL_DATABASE t2 = true)
  \/ (spells SQL_TRUNCATE t1 = true /\ spells SQL_TABLE t2 = true) ->
  exists reason,
    validate_command (string_of_list_ascii (pre ++ (t1 ++ ws ++ t2) ++ post))
    = (false, Some reason).
Proof. exact (sql_is_blocked pre t1 ws t2 post). Qed.

Lemma spelled_char_word (a b : ascii) :
  is_letter a = true -> Ascii.eqb (lower a) (lower b) = true -> is_word b = true.
Proof.
  assert (H : forallb (fun a => forallb (fun b =>
                implb (is_letter a && Ascii.eqb (lower a) (lower b)) (is_word b))
                ALL_ASCII) ALL_ASCII = true)
    by (vm_compute; reflexivity).
  intros Ha Hab.
  rewrite forallb_forall in H. specialize (H a (PostgresFacts.in_all_ascii a)).
  rewrite forallb_forall in H. specialize (H b (PostgresFacts.in_all_ascii b)).
  rewrite Ha, Hab in H. exact H.
Qed.

(** A word between two boundaries. *)
Lemma derives_bounded_word (w : list ascii) (z : ascii) (text : list ascii) b a :
  w <> [] -> forallb is_letter (w ++ [z]) = true ->
  spells (w ++ [z]) text = true ->
  word_before b = false -> word_after a = false ->
  derives true (Cat WordBoundary (chain (map Lit w) (Cat (Lit z) WordBoundary))) b text a.
Proof.
  intros Hne Hl Hs Hb Ha.
  destruct (spells_snoc w z text Hs) as (init & e & -> & Hi & He).
  rewrite forallb_app in Hl. apply andb_prop in Hl as [Hlw Hlz].
  cbn [forallb] in Hlz. rewrite andb_true_r in Hlz.
  exists [], (init ++ [e]). split; [reflexivity|]. split.
  - split; [reflexivity|]. rewrite Hb. cbn [xorb app].
    destruct w as [|p w]; [contradiction|]. destruct init as [|c init]; [discriminate|].
    cbn [spells] in Hi. apply andb_prop in Hi as [Hc _].
    cbn [forallb] in Hlw. apply andb_prop in Hlw as [Hp _].
    cbn [app word_after]. exact (spelled_char_word p c Hp Hc).
  - rewrite last_char_nil. apply derives_lits; [exact Hi|].
    exists [e], []. split; [reflexivity|]. split; [exists e; auto|].
    split; [reflexivity|]. rewrite (last_char_one _ e), Ha.
    cbn [word_before app]. rewrite (spelled_char_word z e Hlz He). reflexivity.
Qed.

(** X18.  The words that stop or wipe a machine are refused wherever they stand.
    A command that has mkfs, shutdown, reboot or poweroff, in any case, as a
    word of its own (no letter, digit or underscore next to it) is not
    allowed. *)
Theorem validate_command_blocks_words (pre text post : list ascii) :
  spells_any FATAL_WORDS text = true ->
  word_before (last_char None pre) = false ->
  word_after post = false ->
  exists reason,
    validate_command (string_of_list_ascii (pre ++ text ++ post)) = (false, Some reason).
Proof.
  intros Hs Hb Ha. unfold spells_any, FATAL_WORDS in Hs. cbn [existsb] in Hs.
  rewrite orb_false_r in Hs.
  apply orb_prop in Hs as [Hs|Hs]; [|apply orb_prop in Hs as [Hs|Hs];
                                      [|apply orb_prop in Hs as [Hs|Hs]]].
  - apply (blocked_by ("\bmkfs\b",
             (false, Cat WordBoundary
                       (chain (map Lit (list_ascii_of_string "mkf"))
                              (Cat (Lit "s") WordBoundary))))).
    + do 2 right. left. reflexivity.
    + cbn [snd]. apply derives_bounded_word; try assumption; [discriminate|reflexivity].
  - apply (blocked_by ("\bshutdown\b",
             (false, Cat WordBoundary
                       (chain (map Lit (list_ascii_of_string "shutdow"))
                              (Cat (Lit "n") WordBoundary))))).
    + do 5 right. left. reflexivity.
    + cbn [snd]. apply derives_bounded_word; try assumption; [discriminate|reflexivity].
  - apply (blocked_by ("\breboot\b",
             (false, Cat WordBoundary
                       (chain (map Lit (list_ascii_of_string "reboo"))
                              (Cat (Lit "t") WordBoundary))))).
    + do 6 right. left. reflexivity.
    + cbn [snd]. apply derives_bounded_word; try assumption; [discriminate|reflexivity].
  - apply (blocked_by ("\bpoweroff\b",
             (false, Cat WordBoundary
                       (chain (map Lit (list_ascii_of_string "powerof"))
                              (Cat (Lit "f") WordBoundary))))).
    + do 8 right. left. reflexivity.
    + cbn [snd]. apply derives_bounded_word; try assumption; [discriminate|reflexivity].
Qed.

Lemma list_ascii_of_append (a b : string) :
  list_ascii_of_string (a +:+ b) = list_ascii_of_string a ++ list_ascii_of_string b.
Proof.
  induction a as [|c a IH]; [reflexivity|].
  change (c :: list_ascii_of_string (a +:+ b)
          = c :: (list_ascii_of_string a ++ list_ascii_of_string b)).
  now rewrite IH.
Qed.

Section Queries.
Context {W : Type}.
Variable env : environment W.

(** X19.  No query drops a database or truncates a table.  Whatever the write
    flag, the database and the rest of the query, a query in which DROP and
    DATABASE, or TRUNCATE and TABLE, stand with white space between them
    spawns no process: it is refused by the prefix test or by the check of the
    command line. *)
Theorem postgresql_query_blocks_sql (w : W) (pre t1 ws t2 post : list ascii)
    (database write_enabled : value) :
  ws <> [] -> forallb is_space ws = true ->
  (spells SQL_DROP t1 = true /\ spells SQL_DATABASE t2 = true)
  \/ (spells SQL_TRUNCATE t1 = true /\ spells SQL_TABLE t2 = true) ->
  exists result,
    Postgres.postgresql_query env w
      (string_of_list_ascii (pre ++ (t1 ++ ws ++ t2) ++ post)) database write_enabled
    = (result, [], w).
Proof.
  intros Hne Hws Hsql. unfold Postgres.postgresql_query.
  destruct (_ || _); [|destruct (truthy write_enabled); eauto].
  unfold bash_execute.
  set (query := string_of_list_ascii (pre ++ (t1 ++ ws ++ t2) ++ post)).
  assert (Hcmd : Postgres.psql (str database) query
                 = string_of_list_ascii
                     ((list_ascii_of_string
                         ("docker exec unicorn-postgresql psql -U unicorn -d "
                          +:+ str database +:+ " -c " +:+ Postgres.QUOTE) ++ pre)
                      ++ (t1 ++ ws ++ t2)
                      ++ (post ++ list_ascii_of_string Postgres.QUOTE))).
  { rewrite <- (string_of_list_ascii_of_string (Postgres.psql (str database) query)).
    f_equal. unfold Postgres.psql, query.
    rewrite !list_ascii_of_append, list_ascii_of_string_of_list_ascii.
    rewrite <- !app_assoc. reflexivity. }
  rewrite Hcmd.
  destruct (sql_is_blocked
              (list_ascii_of_string
                 ("docker exec unicorn-postgresql psql -U unicorn -d "
                  +:+ str database +:+ " -c " +:+ Postgres.QUOTE) ++ pre)
              t1 ws t2 (post ++ list_ascii_of_string Postgres.QUOTE) Hne Hws Hsql)
    as [reason Hv].
  rewrite Hv. eauto.
Qed.
End Queries.

(** The theorem at a command line of psql. *)
Lemma validate_command_blocks_sql_witness :
  exists reason,
    validate_command "psql -c 'drop  database x'" = (false, Some reason).
Proof.
  apply (validate_command_blocks_sql (list_ascii_of_string "psql -c '")
           (list_ascii_of_string "drop") (list_ascii_of_string "  ")
           (list_ascii_of_string "database") (list_ascii_of_string " x'"));
    [discriminate|reflexivity|left; split; reflexivity].
Defined.

(** The theorem at a reboot. *)
Lemma validate_command_blocks_words_witness :
  exists reason, validate_command "sudo REBOOT now" = (false, Some reason).
Proof.
  apply (validate_command_blocks_words (list_ascii_of_string "sudo ")
           (list_ascii_of_string "REBOOT") (list_ascii_of_string " now"));
    reflexivity.
Defined.

(** The theorem at a query that reads first and truncates then. *)
Lemma postgresql_query_blocks_sql_witness :
  exists result,
    Postgres.postgresql_query (Stub.env (fun _ => Stub.PLAIN) []) 0
      "SELECT 1; truncate table users" (VStr "unicorn_db") (VBool true)
    = (result, [], 0).
Proof.
  apply (postgresql_query_blocks_sql (Stub.env (fun _ => Stub.PLAIN) []) 0
           (list_ascii_of_string "SELECT 1; ") (list_ascii_of_string "truncate")
           (list_ascii_of_string " ") (list_ascii_of_string "table")
           (list_ascii_of_string " users") (VStr "unicorn_db") (VBool true));
    [discriminate|reflexivity|right; split; reflexivity].
Defined.
End BlockedFacts.

(** ** Commands that need a confirmation *)

Module ConfirmationFacts.
Import Py Models Executor Router Gateway GatewayFacts Views Re Meaning EngineFacts
       Safety SafetyFacts BlockedFacts.

Lemma first_confirmation_found (ps : list (compiled * string)) (command : string) :
  (exists q, In q ps /\ re_search (snd (fst q)) true command = true) ->
  exists description,
    first_confirmation ps command = Some description /\ In description (map snd ps).
Proof.
  induction ps as [|[[p c] d] ps IH]; intros (q & Hin & Hq); [destruct Hin|].
  cbn [first_confirmation]. destruct (re_search c true command) eqn:E.
  - exists d. split; [reflexivity|left; reflexivity].
  - destruct Hin as [<-|Hin]; [cbn in Hq; congruence|].
    destruct IH as (description & H1 & H2); [eauto|].
    exists description. split; [exact H1|right; exact H2].
Qed.

Lemma confirmed_by (q : compiled * string) (pre m post : list ascii) :
  In q (zip CONFIRMATION_COMPILED (map snd CONFIRMATION_PATTERNS)) ->
  derives true (snd (snd (fst q))) (last_char None pre) m post ->
  exists reason,
    reason <> ""
    /\ requires_confirmation (string_of_list_ascii (pre ++ m ++ post)) = Some reason.
Proof.
  intros Hin Hd. unfold requires_confirmation.
  destruct (first_confirmation_found
              (zip CONFIRMATION_COMPILED (map snd CONFIRMATION_PATTERNS))
              (string_of_list_ascii (pre ++ m ++ post))) as (d & H1 & H2).
  - exists q. split; [exact Hin|].
    apply re_search_occurs. rewrite orb_true_r, list_ascii_of_string_of_list_ascii.
    exists pre, m, post. auto.
  - exists d. split; [|exact H1].
    cbn in H2. repeat (destruct H2 as [<-|H2]; [discriminate|]). destruct H2.
Qed.

Lemma needs_confirmation (pre m post : list ascii) :
  (exists q, In q (zip CONFIRMATION_COMPILED (map snd CONFIRMATION_PATTERNS))
             /\ derives true (snd (snd (fst q))) (last_char None pre) m post) ->
  exists reason,
    reason <> ""
    /\ requires_confirmation (string_of_list_ascii (pre ++ m ++ post)) = Some reason
    /\ forall (r : router) (params : gmap string value),
         params !! "command" = Some (VStr (string_of_list_ascii (pre ++ m ++ post))) ->
         confirmation_need r BASH params = Returned (true, Some reason).
Proof.
  intros (q & Hin & Hd). destruct (confirmed_by q pre m post Hin Hd) as (reason & Hne & Hr).
  exists reason. split; [exact Hne|]. split; [exact Hr|].
  intros r params Hp. unfold confirmation_need.
  rewrite String.eqb_refl, Hp, Hr.
  destruct (String.eqb_spec reason ""); [contradiction|reflexivity].
Qed.

(** X20.  Shell commands that always need a confirmation.  A shell command that
    has the word kill, in any case, as a word of its own, or in which DELETE
    and FROM, or ALTER and TABLE, stand with white space between them, needs
    a confirmation whatever the catalog says: the reason found is not empty
    and the router asks before it runs anything. *)
Theorem shell_command_needs_confirmation (pre m post : list ascii) :
  (spells (list_ascii_of_string "kill") m = true
   /\ word_before (last_char None pre) = false /\ word_after post = false)
  \/ (exists t1 ws t2,
        m = t1 ++ ws ++ t2 /\ ws <> [] /\ forallb is_space ws = true
        /\ ((spells SQL_DELETE t1 = true /\ spells SQL_FROM t2 = true)
            \/ (spells SQL_ALTER t1 = true /\ spells SQL_TABLE t2 = true))) ->
  exists reason,
    reason <> ""
    /\ requires_confirmation (string_of_list_ascii (pre ++ m ++ post)) = Some reason
    /\ forall (r : router) (params : gmap string value),
         params !! "command" = Some (VStr (string_of_list_ascii (pre ++ m ++ post))) ->
         confirmation_need r BASH params = Returned (true, Some reason).
Proof.
  intros [(Hs & Hb & Ha)|(t1 & ws & t2 & -> & Hne & Hws & [[H1 H2]|[H1 H2]])];
    apply needs_confirmation.
  - exists (("\bkill\b",
             (false, Cat WordBoundary
                       (chain (map Lit (list_ascii_of_string "kil"))
                              (Cat (Lit "l") WordBoundary)))),
            "This will terminate a process").
    split; [do 3 right; left; reflexivity|].
    cbn [fst snd]. apply derives_bounded_word; try assumption; [discriminate|reflexivity].
  - exists (("DELETE\s+FROM",
             (false, chain (map Lit SQL_DELETE)
                       (Cat (Plus Space)
                          (chain (map Lit (list_ascii_of_string "FRO")) (Lit "M"))))),
            "This will delete database records").
    split; [do 7 right; left; reflexivity|].
    cbn [fst snd]. apply derives_two_words; assumption.
  - exists (("ALTER\s+TABLE",
             (false, chain (map Lit SQL_ALTER)
                       (Cat (Plus Space)
                          (chain (map Lit (list_ascii_of_string "TABL")) (Lit "E"))))),
            "This will modify database schema").
    split; [do 9 right; left; reflexivity|].
    cbn [fst snd]. apply derives_two_words; assumption.
Qed.

(** The theorem at a command that ends a process. *)
Lemma shell_command_needs_confirmation_witness :
  exists reason,
    reason <> ""
    /\ requires_confirmation "sudo kill -9 1" = Some reason
    /\ forall (r : router) (params : gmap string value),
         params !! "command" = Some (VStr "sudo kill -9 1") ->
         confirmation_need r BASH params = Returned (true, Some reason).
Proof.
  apply (shell_command_needs_confirmation (list_ascii_of_string "sudo ")
           (list_ascii_of_string "kill") (list_ascii_of_string " -9 1")).
  left. split; [reflexivity|split; reflexivity].
Defined.
End ConfirmationFacts.

(** ** The names of the tools *)

Module LoaderFacts.
Import Py Models Router Loader BlockedFacts.

Lemma split_once_chars_separable (a b : list ascii) :
  split_once_chars ["_"; "_"]%char (a ++ ["_"%char]) = None ->
  split_once_chars ["_"; "_"]%char (a ++ "_"%char :: "_"%char :: b) = Some (a, b).
Proof.
  induction a as [|c a IH]; intros H.
  - reflexivity.
  - cbn [app] in H |- *. cbn [split_once_chars] in H.
    destruct (starts_with ["_"; "_"]%char (c :: a ++ ["_"%char])) eqn:Hs; [discriminate|].
    destruct (split_once_chars ["_"; "_"]%char (a ++ ["_"%char])) as [[x y]|] eqn:Hr;
      [discriminate|].
    assert (Hs' : starts_with ["_"; "_"]%char (c :: a ++ "_"%char :: "_"%char :: b)
                  = false).
    { cbn [starts_with] in Hs |- *. destruct (Ascii.eqb "_" c); [|reflexivity].
      cbn [andb] in Hs |- *. destruct a as [|c' a]; [discriminate|].
      cbn [app] in Hs |- *. destruct (Ascii.eqb "_" c'); [discriminate|reflexivity]. }
    cbn [split_once_chars]. rewrite Hs', (IH eq_refl). reflexivity.
Qed.

Lemma split_once_separable (skill_name act : string) :
  separable skill_name = true ->
  split_once "__" (skill_name +:+ "__" +:+ act) = Some (skill_name, act).
Proof.
  unfold separable, split_once. rewrite !list_ascii_of_append.
  change (list_ascii_of_string "__") with ["_"; "_"]%char.
  change (list_ascii_of_string "_") with ["_"%char].
  destruct (split_once_chars _ (list_ascii_of_string skill_name ++ ["_"%char]))
    as [[x y]|] eqn:H; [discriminate|]. intros _.
  change (["_"; "_"]%char ++ list_ascii_of_string act)
    with ("_"%char :: "_"%char :: list_ascii_of_string act).
  rewrite (split_once_chars_separable _ (list_ascii_of_string act) H).
  now rewrite !string_of_list_ascii_of_string.
Qed.

(** X21.  The names of the tools lead back to their actions.  Every tool offered
    for the enabled skills is made of a skill of the catalog and of one of
    its actions.  When the name of the skill is separable, the router splits
    the name of the tool into these two again, and the confirmation flag it
    finds is that of the first action of the skill with this name. *)
Theorem tool_names_route_back (catalog : gmap string skill)
    (enabled_skill_ids : list string) (func_name : string) :
  In func_name (get_tool_definitions_for_skills catalog enabled_skill_ids) ->
  exists skill_name s a,
    In skill_name enabled_skill_ids
    /\ catalog !! skill_name = Some s
    /\ In a (skill_actions s)
    /\ func_name = skill_name +:+ "__" +:+ action_name a
    /\ (separable skill_name = true ->
        split_name func_name = (skill_name, action_name a)
        /\ exists first,
             List.find (fun x => String.eqb (action_name x) (action_name a))
                       (skill_actions s) = Some first
             /\ get_confirmation_required catalog func_name
                = confirmation_required first).
Proof.
  unfold get_tool_definitions_for_skills. intros H.
  apply in_flat_map in H as (skill_name & Hen & H).
  destruct (catalog !! skill_name) as [s|] eqn:Hs; [|destruct H].
  unfold tool_names in H. apply in_map_iff in H as (a & <- & Ha).
  exists skill_name, s, a. repeat split; auto.
  - unfold split_name. now rewrite split_once_separable.
  - unfold get_confirmation_required. rewrite split_once_separable, Hs by assumption.
    destruct (List.find _ (skill_actions s)) as [first|] eqn:Hf.
    + eauto.
    + exfalso. apply (find_none _ _ Hf a) in Ha.
      rewrite String.eqb_refl in Ha. discriminate.
Qed.

(** The theorem at the catalog of the examples. *)
Lemma tool_names_route_back_witness :
  exists skill_name s a,
    In skill_name ["docker-management"]
    /\ CATALOG !! skill_name = Some s
    /\ In a (skill_actions s)
    /\ "docker-management__manage_container" = skill_name +:+ "__" +:+ action_name a
    /\ (separable skill_name = true ->
        split_name "docker-management__manage_container" = (skill_name, action_name a)
        /\ exists first,
             List.find (fun x => String.eqb (action_name x) (action_name a))
                       (skill_actions s) = Some first
             /\ get_confirmation_required CATALOG "docker-management__manage_container"
                = confirmation_required first).
Proof.
  apply (tool_names_route_back CATALOG ["docker-management"]
           "docker-management__manage_container").
  vm_compute. right. left. reflexivity.
Defined.
End LoaderFacts.

(** ** The handshake *)

Module ConnectFacts.
Import Py Models Connect.

(** X22.  The handshake.  A socket is rejected with exactly one error frame and a
    close, and then no chat session has been read or created and the
    conversation has not started.  A socket is attached only for a user whom
    the login store knows, who is an administrator when the configuration
    asks for one, and only to a chat session owned by this user: the stored
    session asked for if it is the user's, a new one otherwise.  No error
    frame is sent to an attached socket. *)
Theorem connect_guard (c : context) (ws : socket) :
  match fst (connect c ws) with
  | Rejected =>
      existsb opens (snd (connect c ws)) = false
      /\ exists t detail code close_code reason,
           snd (connect c ws)
           = Accept :: t ++ [SendFrame (WSErrorFrame detail (Some code));
                             Close close_code reason]
           /\ existsb is_error_step t = false
           /\ ((code = "auth_required" /\ close_code = 4001%Z)
               \/ (code = "forbidden" /\ close_code = 4003%Z))
  | Attached user_id session =>
      owner session = user_id
      /\ existsb is_error_step (snd (connect c ws)) = false
      /\ exists token u,
           logins c token = Login (Some u)
           /\ (nonempty (cookie_token ws) = Some token
               \/ (nonempty (cookie_token ws) = None
                   /\ nonempty (query_token ws) = Some token))
           /\ user_id = user_id_of u
           /\ (admin_only c = true -> is_admin u = true)
           /\ (session = {| stored_id := fresh_id c; owner := user_id |}
               \/ exists session_id,
                    nonempty (query_session_id ws) = Some session_id
                    /\ chats c session_id = Some session)
  end.
Proof.
  unfold connect, _authenticate.
  destruct (nonempty (cookie_token ws)) as [token|] eqn:Hc.
  - destruct (logins c token) as [|e|[u|]] eqn:Hl; cbn [fst snd];
      try (split; [reflexivity|]; exists [ReadLogin token]; do 4 eexists;
           split; [reflexivity|]; split; [reflexivity|]; left; split; reflexivity).
    destruct (admin_only c && negb (is_admin u)) eqn:Ha; cbn [fst snd].
    { split; [reflexivity|]. exists [ReadLogin token]. do 4 eexists.
      split; [reflexivity|]. split; [reflexivity|]. right. split; reflexivity. }
    assert (Hadm : admin_only c = true -> is_admin u = true).
    { intros E. rewrite E in Ha. cbn in Ha. now destruct (is_admin u). }
    destruct (nonempty (query_session_id ws)) as [sid|] eqn:Hq.
    + destruct (chats c sid) as [s|] eqn:Hs.
      * destruct (String.eqb_spec (owner s) (user_id_of u)) as [Ho|Ho]; cbn [fst snd].
        -- split; [exact Ho|]. split; [reflexivity|]. exists token, u.
           repeat split; auto. right. exists sid. auto.
        -- split; [reflexivity|]. split; [reflexivity|]. exists token, u.
           repeat split; auto.
      * cbn [fst snd]. split; [reflexivity|]. split; [reflexivity|]. exists token, u.
        repeat split; auto.
    + cbn [fst snd]. split; [reflexivity|]. split; [reflexivity|]. exists token, u.
      repeat split; auto.
  - destruct (nonempty (query_token ws)) as [token|] eqn:Hq'.
    2: { cbn [fst snd]. split; [reflexivity|]. exists []. do 4 eexists.
         split; [reflexivity|]. split; [reflexivity|]. left. split; reflexivity. }
    destruct (logins c token) as [|e|[u|]] eqn:Hl; cbn [fst snd];
      try (split; [reflexivity|]; exists [ReadLogin token]; do 4 eexists;
           split; [reflexivity|]; split; [reflexivity|]; left; split; reflexivity).
    destruct (admin_only c && negb (is_admin u)) eqn:Ha; cbn [fst snd].
    { split; [reflexivity|]. exists [ReadLogin token]. do 4 eexists.
      split; [reflexivity|]. split; [reflexivity|]. right. split; reflexivity. }
    assert (Hadm : admin_only c = true -> is_admin u = true).
    { intros E. rewrite E in Ha. cbn in Ha. now destruct (is_admin u). }
    destruct (nonempty (query_session_id ws)) as [sid|] eqn:Hq.
    + destruct (chats c sid) as [s|] eqn:Hs.
      * destruct (String.eqb_spec (owner s) (user_id_of u)) as [Ho|Ho]; cbn [fst snd].
        -- split; [exact Ho|]. split; [reflexivity|]. exists token, u.
           repeat split; auto. right. exists sid. auto.
        -- split; [reflexivity|]. split; [reflexivity|]. exists token, u.
           repeat split; auto.
      * cbn [fst snd]. split; [reflexivity|]. split; [reflexivity|]. exists token, u.
        repeat split; auto.
    + cbn [fst snd]. split; [reflexivity|]. split; [reflexivity|]. exists token, u.
      repeat split; auto.
Qed.
End ConnectFacts.

(** ** What follows a message_done frame *)

Module ClosingFacts.
Import Py Models Executor Router Gateway GatewayFacts Views TurnFacts.

Lemma closes_app_quiet (a b : trace) :
  count is_message_done a = 0 -> closes (a ++ b) = closes b.
Proof.
  induction a as [|e a IH]; [reflexivity|]. cbn [count app closes].
  destruct (is_message_done e); [discriminate|]. exact IH.
Qed.

Lemma quiet_closes (a : trace) : count is_message_done a = 0 -> closes a = true.
Proof.
  intros H. rewrite <- (app_nil_r a). now rewrite closes_app_quiet.
Qed.

Lemma closes_app_closing (a b : trace) :
  closes a = true -> forallb closing b = true -> closes (a ++ b) = true.
Proof.
  induction a as [|e a IH]; intros Ha Hb.
  - cbn [app]. destruct b as [|x b]; [reflexivity|]. cbn [closes forallb] in *.
    apply andb_prop in Hb as [Hx Hb]. destruct (is_message_done x); [exact Hb|].
    clear Hx. induction b as [|y b IHb]; [reflexivity|]. cbn [closes forallb] in *.
    apply andb_prop in Hb as [Hy Hb]. destruct (is_message_done y); [exact Hb|].
    apply IHb, Hb.
  - cbn [app closes] in *. destruct (is_message_done e).
    + rewrite forallb_app, Ha, Hb. reflexivity.
    + apply IH; assumption.
Qed.

Section Closing.
Context {W : Type}.
Variable env : environment W.

Lemma round_closes config_id write_enabled (st : turn) :
  count is_message_done (sent st) = 0 ->
  closes (sent (snd (round env config_id write_enabled st))) = true
  /\ (fst (round env config_id write_enabled st) = Continue ->
      count is_message_done (sent (snd (round env config_id write_enabled st))) = 0).
Proof.
  intros Hq. unfold round.
  pose proof (call_llm_stream_shape env (world st) (llm_messages st))
    as (t0 & Ht & Hd0 & _).
  destruct (_call_llm_stream env (world st) (llm_messages st)) as [[[text tcs] t] w'].
  cbn [fst snd] in Ht. subst t.
  assert (Hq1 : count is_message_done (sent st ++ LlmRequest (llm_messages st) :: t0) = 0).
  { rewrite count_app. cbn. lia. }
  assert (Hplain : forall st1 : turn,
            sent st1 = sent st ++ LlmRequest (llm_messages st) :: t0 ->
            forall mark,
            closes (sent (snd (if String.eqb text "" then (Break, save st1)
                               else (Break, save (finish_message env st1 text mark)))))
            = true
            /\ (fst (if String.eqb text "" then (Break, save st1)
                     else (Break, save (finish_message env st1 text mark))) = Continue ->
                count is_message_done
                  (sent (snd (if String.eqb text "" then (Break, save st1)
                              else (Break, save (finish_message env st1 text mark))))) = 0)).
  { intros st1 Hs mark. destruct (String.eqb text "").
    - cbn [fst snd save emit sent]. split; [|discriminate].
      apply quiet_closes. rewrite count_app, Hs, Hq1. reflexivity.
    - unfold finish_message. destruct (uuid8 env (world st1)) as [msg_id w1].
      cbn [fst snd save emit sent]. split; [|discriminate].
      rewrite <- app_assoc. apply closes_app_closing; [|reflexivity].
      apply quiet_closes. rewrite Hs. exact Hq1. }
  destruct tcs as [[|tc tcs]|].
  - apply Hplain. reflexivity.
  - cbn [skill_router]. destruct (skill_router st) as [r|].
    + destruct (omap (valid_tool_call env) (tc :: tcs)) as [|call calls] eqn:Hv.
      { apply Hplain. reflexivity. }
      cbn [_id_remap].
      destruct (normalize_calls (_id_remap st) (tc :: tcs)) as [normalized remap'].
      match goal with |- context [run_tools env _ _ ?cs r ?s] =>
        pose proof (run_tools_any env config_id write_enabled cs r s)
          as (_ & _ & H3 & _);
        destruct (run_tools env config_id write_enabled cs r s) as [[[]|e] st3] end;
        cbn [fst snd sent] in *.
      * assert (H0 : count is_message_done (sent st3 ++ [Save (session st3)]) = 0).
        { rewrite count_app, H3, Hq1. reflexivity. }
        unfold save, emit. cbn [sent]. split; [apply quiet_closes, H0|intros _; exact H0].
      * split; [|discriminate]. apply quiet_closes. rewrite H3. exact Hq1.
    + cbn [fst snd save emit add_to_session sent]. split; [|discriminate].
      apply quiet_closes. rewrite count_app, Hq1. reflexivity.
  - apply Hplain. reflexivity.
Qed.

Lemma rounds_closes config_id write_enabled n :
  forall st : turn,
    count is_message_done (sent st) = 0 ->
    closes (sent (snd (rounds env n config_id write_enabled st))) = true.
Proof.
  induction n as [|n IH]; intros st Hq; cbn [rounds].
  - apply quiet_closes, Hq.
  - destruct (round_closes config_id write_enabled st Hq) as [Hc Hcont].
    destruct (round env config_id write_enabled st) as [[| |e] st1]; cbn [fst snd] in *.
    + apply IH, Hcont. reflexivity.
    + exact Hc.
    + exact Hc.
Qed.

(** X23.  A message_done frame closes the turn.  Whatever the completion
    service and the tools do, after the first message_done frame of a turn
    the gateway asks the completion service nothing more, runs no tool and
    sends no chunk: what follows is saves of the session and, at most, more
    message_done frames. *)
Theorem stream_response_done_closes (w : W) (r : option router) (s : ColonelSession)
    (system_prompt config_id : string) (write_enabled : bool) :
  closes (sent (snd (_stream_response env w r s system_prompt config_id write_enabled)))
  = true.
Proof.
  unfold _stream_response.
  destruct (to_llm_messages ∅ (last_n 20 (messages s))) as [history remap].
  match goal with |- context [rounds env ?n _ _ ?s0] =>
    pose proof (rounds_closes config_id write_enabled n s0 eq_refl) as Hc;
    destruct (rounds env n config_id write_enabled s0) as [[[]|e] st]
  end; cbn [fst snd] in *; [|exact Hc].
  unfold safety_net. destruct (done_sent st); [exact Hc|].
  destruct (String.eqb (join_parts (all_content_parts st)) "");
    destruct (uuid8 env (world st)) as [msg_id w'].
  - cbn [save emit sent]. rewrite <- app_assoc.
    apply closes_app_closing; [exact Hc|reflexivity].
  - destruct (match last (messages (session st)) with Some _ => _ | None => _ end);
      cbn [save emit sent add_to_session]; rewrite <- app_assoc;
      (apply closes_app_closing; [exact Hc|reflexivity]).
Qed.
End Closing.
End ClosingFacts.
